(** * PreferenceAgent: the preference-logic compiler and evaluation engine

    A shallow embedding of [datahandler.py], [object.py], [penaltylogic.py],
    [qualitativechoicelogic.py] and [preferenceproblem.py], and the
    properties of the formula compiler, the two scorers and the dominance
    engine proved over it.

    Python values are modelled as follows: [str] as [string], [int] as [Z],
    lists as [list], the label dictionary [DataHandler.values] as a
    [gmap string Z], insertion-ordered dictionaries that the code iterates
    over as association lists, and a raised exception as the [Raise] case
    of [result]. *)

From Stdlib Require Import ZArith String Ascii List Lia Bool DecimalString.
From Stdlib Require DecimalNat DecimalFacts.
From stdpp Require Import base gmap strings list.
Import ListNotations.

Local Open Scope string_scope.
Local Open Scope Z_scope.
Local Open Scope list_scope.

(** ** Exceptions *)

(** The exceptions the modelled code can raise; none of them is caught
    anywhere in the program, so a raised exception reaches the caller. *)
Inductive exn : Type :=
| KeyError (key : string)     (* [d[key]] on a dictionary without [key] *)
| IndexError                  (* list index out of range *)
| ValueError.                 (* [sample] larger than population, [int] of a non-number *)

Inductive result (A : Type) : Type :=
| Return (a : A)
| Raise (e : exn).
Arguments Return {A} a.
Arguments Raise {A} e.

(** Sequencing: an exception raised by the first computation skips the
    rest.  With these instances [x ← r; k] reads as Python's statement
    sequence. *)
#[global] Instance result_ret : MRet result := fun _ a => Return a.
#[global] Instance result_bind : MBind result := fun _ _ k r =>
  match r with
  | Return a => k a
  | Raise e => Raise e
  end.

(** [for x in xs: acc = body(acc, x)], stopping at the first exception. *)
Fixpoint for_each {A S : Type} (body : S -> A -> result S) (xs : list A) (acc : S)
  : result S :=
  match xs with
  | [] => Return acc
  | x :: xs' => acc' ← body acc x; for_each body xs' acc'
  end.

(** [[f(x) for x in xs]], stopping at the first exception. *)
Fixpoint map_result {A B : Type} (f : A -> result B) (xs : list A) : result (list B) :=
  match xs with
  | [] => Return []
  | x :: xs' => y ← f x; ys ← map_result f xs'; Return (y :: ys)
  end.

(** ** Python string splitting *)

Module PyStr.

(** A matcher tells, for the text that starts at the current position,
    how many characters a separator occupies there ([None]: no separator
    starts here). *)
Definition matcher : Type := string -> option nat.

(** [str.split(sep)] for a non-empty [sep]. *)
Definition fixed_sep (sep : string) : matcher :=
  fun s => if String.prefix sep s then Some (String.length sep) else None.

(** The regular expression [' IF | IF']: the first alternative that
    matches at a position wins. *)
Definition re_IF : matcher :=
  fun s => if String.prefix " IF " s then Some 4%nat
           else if String.prefix " IF" s then Some 3%nat
           else None.

Definition cons_head (c : ascii) (pieces : list string) : list string :=
  match pieces with
  | [] => [String c ""]
  | p :: ps => String c p :: ps
  end.

(** Left-to-right, non-overlapping splitting: [skip] counts the
    characters of a separator still to be consumed. *)
Fixpoint split_from (m : matcher) (s : string) (skip : nat) : list string :=
  match s with
  | EmptyString => [""]
  | String c s' =>
      match skip with
      | S k => split_from m s' k
      | O =>
          match m s with
          | Some (S k) => "" :: split_from m s' k
          | _ => cons_head c (split_from m s' O)
          end
      end
  end.

Definition split (sep : string) (s : string) : list string :=
  split_from (fixed_sep sep) s 0.

Definition re_split_IF (s : string) : list string :=
  split_from re_IF s 0.

(** [c in s] for a character. *)
Fixpoint has_char (c : ascii) (s : string) : bool :=
  match s with
  | EmptyString => false
  | String d s' => Ascii.eqb c d || has_char c s'
  end.

(** [sub in s]: some suffix of [s] starts with [sub]. *)
Fixpoint occurs (sub s : string) : bool :=
  String.prefix sub s ||
  match s with
  | EmptyString => false
  | String _ s' => occurs sub s'
  end.

End PyStr.

(** ** Lists and dictionaries *)

(** [xs[i]]: raises [IndexError] out of range. *)
Definition index {A : Type} (xs : list A) (i : nat) : result A :=
  match xs !! i with
  | Some x => Return x
  | None => Raise IndexError
  end.

(** A compiled clause is a list of signed attribute indices, a compiled
    formula a list of clauses (what [pysat]'s [CNF(from_clauses=...)]
    takes). *)
Definition clause_t : Type := list Z.
Definition formula : Type := list clause_t.

(** ** [datahandler.py] *)

(** The two fields of [DataHandler] the compiler reads. *)
Record DataHandler : Type := {
  attributes : list (list string);  (* one list of value labels per attribute *)
  values : gmap string Z            (* label -> binary code *)
}.

Definition new_DataHandler : DataHandler :=
  {| attributes := []; values := ∅ |}.

(** The body of the loop of [read_attributes], for one stripped line. *)
Definition read_attributes_line (dh : DataHandler) (line : string) : result DataHandler :=
  let current_line := PyStr.split ": " line in
  field ← index current_line 1;
  let vals := PyStr.split ", " field in
  v0 ← index vals 0;
  v1 ← index vals 1;
  Return {| attributes := attributes dh ++ [vals];
            values := <[v1 := 0]> (<[v0 := 1]> (values dh)) |}.

Definition read_attributes (lines : list string) (dh : DataHandler) : result DataHandler :=
  for_each read_attributes_line lines dh.

(** [self.values[value]] *)
Definition values_get (dh : DataHandler) (value : string) : result Z :=
  match values dh !! value with
  | Some bit_value => Return bit_value
  | None => Raise (KeyError value)
  end.

(** [return_integer]: the 1-based position of the first attribute whose
    label list contains [value], 0 when there is none. *)
Fixpoint return_integer_from (items : list (list string)) (idx : Z) (value : string) : Z :=
  match items with
  | [] => 0
  | item :: items' =>
      if bool_decide (value ∈ item) then idx
      else return_integer_from items' (idx + 1) value
  end.

Definition return_integer (dh : DataHandler) (value : string) : Z :=
  return_integer_from (attributes dh) 1 value.

(** The integer that [make_constraints] computes for one literal text:
    the same statements appear in both of its branches (lines 168-174 and
    178-182, again at 187-193 and 196-200). *)
Definition literal_integer (dh : DataHandler) (literal : string) : result Z :=
  let attribute_value := PyStr.split " " literal in
  if (length attribute_value =? 2)%nat then
    value ← index attribute_value 1;
    let integer := return_integer dh value in
    bit_value ← values_get dh value;
    Return (if bit_value =? 1 then - integer else integer)
  else
    value ← index attribute_value 0;
    let integer := return_integer dh value in
    bit_value ← values_get dh value;
    Return (if bit_value =? 0 then - integer else integer).

(** [make_constraints] keeps ONE list object [clause] for the whole call:
    it is emptied in place ([clause.clear()]) at the start of every
    iteration and appended to [clause_list] by reference.  An entry of
    [clause_list] is therefore either a list of its own ([new_clause]) or a
    reference to that shared object. *)
Inductive clause_ref : Type :=
| Fresh (new_clause : clause_t)
| Shared.

Record mc_heap : Type := {
  clause : clause_t;              (* current content of the shared object *)
  clause_list : list clause_ref
}.

Definition mc_single (dh : DataHandler) (h : mc_heap) (literal : string) : result mc_heap :=
  integer ← literal_integer dh literal;
  Return {| clause := clause h; clause_list := clause_list h ++ [Fresh [integer]] |}.

Definition mc_several (dh : DataHandler) (h : mc_heap) (literal : string) : result mc_heap :=
  integer ← literal_integer dh literal;
  Return {| clause := clause h ++ [integer]; clause_list := clause_list h |}.

(** One iteration of [for a_clause in clauses]. *)
Definition mc_part (dh : DataHandler) (h : mc_heap) (a_clause : string) : result mc_heap :=
  let h0 := {| clause := []; clause_list := clause_list h |} in
  let literals := PyStr.split " OR " a_clause in
  h1 ← (if (length literals =? 1)%nat
        then for_each (mc_single dh) literals h0
        else for_each (mc_several dh) literals h0);
  Return (match clause h1 with
          | [] => h1
          | _ :: _ => {| clause := clause h1; clause_list := clause_list h1 ++ [Shared] |}
          end).

(** What a reference denotes once the call has returned. *)
Definition deref (final_clause : clause_t) (r : clause_ref) : clause_t :=
  match r with
  | Fresh c => c
  | Shared => final_clause
  end.

Definition make_constraints (dh : DataHandler) (line : string) : result formula :=
  h ← for_each (mc_part dh) (PyStr.split " AND " line)
        {| clause := []; clause_list := [] |};
  Return (map (deref (clause h)) (clause_list h)).

(** [add_base_constraints]: the clause [[-i, i]] for every attribute. *)
Fixpoint base_constraints_from {A : Type} (items : list A) (idx : Z) : formula :=
  match items with
  | [] => []
  | _ :: items' => [- idx; idx] :: base_constraints_from items' (idx + 1)
  end.

Definition add_base_constraints (dh : DataHandler) (constraints : formula) : formula :=
  constraints ++ base_constraints_from (attributes dh) 1.

(** [read_constraints], on the stripped lines of the file. *)
Definition read_constraints (dh : DataHandler) (lines : list string) : result formula :=
  constraints ← for_each (fun acc line =>
                   clause_list ← make_constraints dh line;
                   Return (acc ++ clause_list)) lines [];
  Return (add_base_constraints dh constraints).

(** ** External collaborators *)

(** The SAT solver of [pysat]: [Solver(bootstrap_with=CNF(from_clauses=f))]
    followed by [solve()], respectively by [enum_models()]. *)
Class SatOracle : Type := {
  solve : formula -> bool;
  enum_models : formula -> list (list Z)
}.

(** Python's [int(s)] for a string: the number it denotes, or
    [ValueError]. *)
Class PyBuiltins : Type := {
  int_of_str : string -> result Z
}.

(** A value that is an [int] or a [str] (a penalty as read from the file
    is the text after the comma). *)
Inductive pyval : Type :=
| PyInt (z : Z)
| PyStr (s : string).

Definition py_int `{PyBuiltins} (v : pyval) : result Z :=
  match v with
  | PyInt z => Return z
  | PyStr s => int_of_str s
  end.

(** ** [object.py] *)

Record Object : Type := {
  name : string;
  encoding : string;
  obj_values : list string;
  integers : list Z;
  total_penalty : Z
}.

(** [Object.__init__]: the accumulator starts at 0. *)
Definition new_Object (nm enc : string) (vals : list string) (ints : list Z) : Object :=
  {| name := nm; encoding := enc; obj_values := vals; integers := ints;
     total_penalty := 0 |}.

Definition return_integer_values (o : Object) : list Z := integers o.

(** One singleton clause per integer of the object. *)
Definition return_test_integers (o : Object) : formula :=
  map (fun integer => [integer]) (integers o).

(** The object with its accumulator set to [t]. *)
Definition set_total_penalty (o : Object) (t : Z) : Object :=
  {| name := name o; encoding := encoding o; obj_values := obj_values o;
     integers := integers o; total_penalty := t |}.

(** [self.total_penalty += int(penalty)]; the object is updated in place,
    the model returns the updated object. *)
Definition add_penalty `{PyBuiltins} (o : Object) (penalty : pyval) : result Object :=
  p ← py_int penalty;
  Return (set_total_penalty o (total_penalty o + p)).

Definition get_total_penalty (o : Object) : Z := total_penalty o.

(** ** [penaltylogic.py] *)

Record PenaltyLogic : Type := {
  pl_name : string;
  constraint : formula;
  penalty : pyval
}.

(** [PenaltyLogic.test]: the value returned and the object as updated. *)
Definition PenaltyLogic_test `{SatOracle} `{PyBuiltins}
    (self : PenaltyLogic) (test_object : Object) : result (pyval * Object) :=
  let test_formula := constraint self ++ return_test_integers test_object in
  if solve test_formula then
    o ← add_penalty test_object (PyInt 0);
    Return (PyInt 0, o)
  else
    o ← add_penalty test_object (penalty self);
    Return (penalty self, o).

(** ** [qualitativechoicelogic.py] *)

Record QualitativeChoiceLogic : Type := {
  qcl_name : string;
  constraints : list formula;      (* the preference tiers, best first *)
  condition : option formula       (* [None] when the rule has no condition *)
}.

(** What [test] returns: a tier index or [float('inf')]. *)
Inductive degree : Type :=
| Finite (k : Z)
| Infinite.

(** [enumerate(xs, start)] *)
Fixpoint enumerate {A : Type} (xs : list A) (start : Z) : list (Z * A) :=
  match xs with
  | [] => []
  | x :: xs' => (start, x) :: enumerate xs' (start + 1)
  end.

(** [min(xs)] of a non-empty list, given as head and tail. *)
Definition py_min (x : Z) (xs : list Z) : Z := fold_left Z.min xs x.

Definition min_or_inf (true_logics : list Z) : degree :=
  match true_logics with
  | k :: ks => Finite (py_min k ks)
  | [] => Infinite
  end.

Definition QualitativeChoiceLogic_test `{SatOracle}
    (self : QualitativeChoiceLogic) (test_object : Object) : degree :=
  let condition_formula := condition self in
  let logics := constraints self in
  let object_test_integers := return_test_integers test_object in
  let pysat_formulas := map (fun logic => logic ++ object_test_integers) logics in
  let condition_value :=
    match condition_formula with
    | Some c => solve (c ++ object_test_integers)
    | None => false
    end in
  let logic_values :=
    map (fun '(idx, pysat_formula) => (idx, solve pysat_formula))
        (enumerate pysat_formulas 1) in
  let true_logics := map fst (List.filter (fun kv => snd kv) logic_values) in
  if condition_value then min_or_inf true_logics
  else
    match condition_formula with
    | Some _ => Infinite
    | None => min_or_inf true_logics
    end.

(** [read_penalty_logic], body of the loop for one stripped line. *)
Definition read_penalty_logic_line (dh : DataHandler) (line : string) : result PenaltyLogic :=
  let line_elements := PyStr.split ", " line in
  cnf_formula ← index line_elements 0;
  penalty_value ← index line_elements 1;
  cnf_constraints ← make_constraints dh cnf_formula;
  Return {| pl_name := cnf_formula; constraint := cnf_constraints;
            penalty := PyStr penalty_value |}.

(** [values.pop(1)] *)
Definition pop1 {A : Type} (xs : list A) : list A :=
  match xs with
  | x :: _ :: rest => x :: rest
  | _ => xs
  end.

(** [read_qualitative_logic], body of the loop for one stripped line. *)
Definition read_qualitative_logic_line (dh : DataHandler) (line : string)
  : result QualitativeChoiceLogic :=
  let vals := PyStr.re_split_IF line in
  logic ← index vals 0;
  cond ← index vals 1;
  let vals := if String.eqb cond "" then pop1 vals else vals in
  condition_constraint ←
    (if (length vals =? 2)%nat then
       cond ← index vals 1;
       c ← make_constraints dh cond;
       Return (Some c)
     else Return None);
  let clauses := PyStr.split " BT " logic in
  tiers ← for_each (fun acc cl =>
             clause_list ← make_constraints dh cl;
             Return (acc ++ [clause_list])) clauses [];
  Return {| qcl_name := line; constraints := tiers; condition := condition_constraint |}.

(** ** [preferenceproblem.py] *)

(** [dict[key] = value] on an insertion-ordered dictionary: an existing
    key keeps its place, a new key goes last. *)
Fixpoint dict_set {V : Type} (d : list (string * V)) (key : string) (value : V)
  : list (string * V) :=
  match d with
  | [] => [(key, value)]
  | (k, v) :: d' =>
      if String.eqb k key then (k, value) :: d'
      else (k, v) :: dict_set d' key value
  end.

(** A row of the penalty table: object name, one entry per rule, total. *)
Definition penalty_row : Type := string * list pyval * Z.
(** A row of the qualitative table: object name, one degree per rule. *)
Definition qualitative_row : Type := string * list degree.

(** The state of a [PreferenceProblem].  The members of
    [feasible_objects] are the very instances held by [self.objects]; they
    are the only ones ever updated and only [encoding()] reads the others,
    so the state keeps the feasible ones. *)
Record PreferenceProblem : Type := {
  hard_constraints : formula;
  penalty_logics : list PenaltyLogic;
  qualitative_logics : list QualitativeChoiceLogic;
  object_qualitative_values : list (string * list Z);
  feasible_objects : list Object;
  penalty_logic_table : list penalty_row;
  qualitative_choice_table : list qualitative_row
}.

(** [x in xs] for a list of integer lists: element-wise equality with some
    member. *)
Definition py_in (x : list Z) (xs : list (list Z)) : bool :=
  existsb (fun m => bool_decide (x = m)) xs.

(** [check_feasibility]: [feasible_objects] is empty before the call. *)
Definition check_feasibility `{SatOracle} (objs : list Object) (hard : formula)
  : list Object :=
  let valid_objects := enum_models hard in
  List.filter (fun obj => py_in (return_integer_values obj) valid_objects) objs.

(** [return_feasibility]: the line printed. *)
Definition return_feasibility (feasible : list Object) : string :=
  match feasible with
  | _ :: _ =>
      "Yes, there are "
        +:+ NilZero.string_of_uint (Nat.to_uint (length feasible))
        +:+ " feasible objects."
  | [] => "No feasible objects."
  end.

(** [make_penalty_table_columns] and [make_qualitative_table_columns] *)
Definition make_penalty_table_columns (pls : list PenaltyLogic) : list string :=
  ("encoding" :: map pl_name pls) ++ ["total penalty"].

Definition make_qualitative_table_columns (qcls : list QualitativeChoiceLogic) : list string :=
  "encoding" :: map qcl_name qcls.

(** [PrettyTable(field_names)] of [prettytable]: the field names must be
    pairwise different, [ValueError] otherwise.  The table is kept as
    its field names; its rows are collected by the loop that adds them. *)
Definition PrettyTable (field_names : list string) : result (list string) :=
  if bool_decide (NoDup field_names) then Return field_names else Raise ValueError.

(** [my_table.add_row(row)] for a row of [cells] values: [ValueError]
    when the table has field names and the row has not one value per
    field. *)
Definition add_row (my_table : list string) (cells : nat) : result unit :=
  match my_table with
  | [] => Return tt
  | _ :: _ => if (cells =? length my_table)%nat then Return tt else Raise ValueError
  end.

(** The inner loop of [apply_penalty_logic] for one object: the entries of
    its row and the object as left by the calls of [test]. *)
Fixpoint apply_rules `{SatOracle} `{PyBuiltins}
    (rules : list PenaltyLogic) (obj : Object) : result (list pyval * Object) :=
  match rules with
  | [] => Return ([], obj)
  | penalty_logic :: rules' =>
      '(p, obj1) ← PenaltyLogic_test penalty_logic obj;
      '(ps, obj2) ← apply_rules rules' obj1;
      Return (p :: ps, obj2)
  end.

(** The loop of [apply_penalty_logic] over the feasible objects: a row
    is the name, one entry per rule and the total. *)
Fixpoint penalty_table_rows `{SatOracle} `{PyBuiltins}
    (my_table : list string) (rules : list PenaltyLogic) (feasible : list Object)
  : result (list penalty_row * list Object) :=
  match feasible with
  | [] => Return ([], [])
  | obj :: feasible' =>
      '(ps, obj') ← apply_rules rules obj;
      let row := (name obj', ps, get_total_penalty obj') in
      _ ← add_row my_table (1 + length ps + 1);
      '(rows, objs') ← penalty_table_rows my_table rules feasible';
      Return (row :: rows, obj' :: objs')
  end.

(** [apply_penalty_logic]: the rows of the table and the feasible objects
    as updated.  The table is built from its columns before any rule is
    tested. *)
Definition apply_penalty_logic `{SatOracle} `{PyBuiltins}
    (rules : list PenaltyLogic) (feasible : list Object)
  : result (list penalty_row * list Object) :=
  let columns := make_penalty_table_columns rules in
  my_table ← PrettyTable columns;
  penalty_table_rows my_table rules feasible.

(** The finite number stored in place of infinity. *)
Definition stored_value (value : degree) : Z :=
  match value with
  | Infinite => 10000
  | Finite k => k
  end.

(** The loop of [apply_qualitative_choice_logic] over the feasible
    objects: a row is the name and one degree per rule; the vector is
    stored after the row is added. *)
Fixpoint qualitative_table_rows `{SatOracle}
    (my_table : list string) (rules : list QualitativeChoiceLogic) (feasible : list Object)
    (oqv : list (string * list Z))
  : result (list qualitative_row * list (string * list Z)) :=
  match feasible with
  | [] => Return ([], oqv)
  | obj :: feasible' =>
      let vals := map (fun qualitative_logic => QualitativeChoiceLogic_test qualitative_logic obj) rules in
      let qualitative_values := map stored_value vals in
      _ ← add_row my_table (1 + length vals);
      '(rows, oqv') ← qualitative_table_rows my_table rules feasible'
                        (dict_set oqv (name obj) qualitative_values);
      Return ((name obj, vals) :: rows, oqv')
  end.

(** [apply_qualitative_choice_logic]: the rows of the table and the
    dictionary [object_qualitative_values] (empty before the call). *)
Definition apply_qualitative_choice_logic `{SatOracle}
    (rules : list QualitativeChoiceLogic) (feasible : list Object)
    (oqv : list (string * list Z))
  : result (list qualitative_row * list (string * list Z)) :=
  let columns := make_qualitative_table_columns rules in
  my_table ← PrettyTable columns;
  qualitative_table_rows my_table rules feasible oqv.

(** [PreferenceProblem.__init__] *)
Definition new_PreferenceProblem `{SatOracle} `{PyBuiltins}
    (objs : list Object) (hard : formula)
    (pls : list PenaltyLogic) (qcls : list QualitativeChoiceLogic)
  : result PreferenceProblem :=
  let feasible := check_feasibility objs hard in
  '(ptable, feasible') ← apply_penalty_logic pls feasible;
  '(qtable, oqv) ← apply_qualitative_choice_logic qcls feasible' [];
  Return {| hard_constraints := hard; penalty_logics := pls;
            qualitative_logics := qcls; object_qualitative_values := oqv;
            feasible_objects := feasible'; penalty_logic_table := ptable;
            qualitative_choice_table := qtable |}.

(** [random.sample(population, 2)]: [ValueError] when the population has
    fewer than two members, otherwise the members at two different
    positions.  The random source is the pair [draw]: the first number
    picks among the [n] positions, the second among the [n - 1] that
    remain. *)
Definition sample2 {A : Type} (population : list A) (draw : nat * nat) : result (A * A) :=
  let n := length population in
  if (n <? 2)%nat then Raise ValueError
  else
    let i := (fst draw mod n)%nat in
    let j0 := (snd draw mod (n - 1))%nat in
    let j := if (j0 <? i)%nat then j0 else S j0 in
    a ← index population i;
    b ← index population j;
    Return (a, b).

(** The first line that both exemplifications print. *)
Definition sampled_line (object_one object_two : Object) : string :=
  "Two randomly selected feasible objects are " +:+ name object_one
    +:+ " and " +:+ name object_two +:+ ",".

(** [penalty_exemplification]: the lines printed. *)
Definition penalty_exemplification (self : PreferenceProblem) (draw : nat * nat)
  : result (list string) :=
  '(object_one, object_two) ← sample2 (feasible_objects self) draw;
  let object_one_penalty := get_total_penalty object_one in
  let object_two_penalty := get_total_penalty object_two in
  let header := sampled_line object_one object_two in
  if object_two_penalty <? object_one_penalty then
    Return [header; "and " +:+ name object_two +:+ " is strictly preferred over "
                      +:+ name object_one +:+ "."]
  else if object_one_penalty <? object_two_penalty then
    Return [header; "and " +:+ name object_one +:+ " is strictly preferred over "
                      +:+ name object_two +:+ "."]
  else
    Return [header; name object_one +:+ " and " +:+ name object_two +:+ " are equivalent."].

(** The comparison loop shared by [qualitative_exemplification] (lines
    200-207) and [is_optimal_qualitative_object] (lines 271-278): 1 where
    the first vector is lower, 2 where it is higher, 0 where they agree;
    [IndexError] when the second vector is too short. *)
Definition entry (object_one_degree object_two_degree : Z) : Z :=
  if (object_one_degree <=? object_two_degree)
     && (object_one_degree <? object_two_degree) then 1
  else if (object_one_degree >=? object_two_degree)
          && (object_one_degree >? object_two_degree) then 2
  else 0.

Fixpoint satisfaction_comparison_from (one two : list Z) (idx : nat) : result (list Z) :=
  match one with
  | [] => Return []
  | object_one_degree :: one' =>
      object_two_degree ← index two idx;
      rest ← satisfaction_comparison_from one' two (S idx);
      Return (entry object_one_degree object_two_degree :: rest)
  end.

Definition satisfaction_comparison (one two : list Z) : result (list Z) :=
  satisfaction_comparison_from one two 0.

(** [x in xs] for a list of integers. *)
Definition py_inZ (x : Z) (xs : list Z) : bool := existsb (Z.eqb x) xs.

(** The four branches taken on [satisfaction_comparison] (lines 209-220
    and 280-292). *)
Inductive verdict : Type :=
| OneOverTwo      (* the first object is strictly preferred *)
| TwoOverOne      (* the second object is strictly preferred *)
| Incomparable
| Equal.

Definition verdict_of (comparison : list Z) : verdict :=
  if py_inZ 1 comparison then
    if py_inZ 2 comparison then Incomparable else OneOverTwo
  else if py_inZ 2 comparison then
    if py_inZ 1 comparison then Incomparable else TwoOverOne
  else Equal.

Definition compare_degrees (one two : list Z) : result verdict :=
  comparison ← satisfaction_comparison one two;
  Return (verdict_of comparison).

(** The look-up loop of [qualitative_exemplification] (lines 194-198). *)
Fixpoint lookup_degrees (oqv : list (string * list Z)) (name_one name_two : string)
    (acc : list Z * list Z) : list Z * list Z :=
  match oqv with
  | [] => acc
  | (key, v) :: oqv' =>
      lookup_degrees oqv' name_one name_two
        (if String.eqb key name_one then (v, snd acc)
         else if String.eqb key name_two then (fst acc, v)
         else acc)
  end.

(** [qualitative_exemplification]: the verdict reached and the lines
    printed. *)
Definition qualitative_exemplification (self : PreferenceProblem) (draw : nat * nat)
  : result (verdict * list string) :=
  '(object_one, object_two) ← sample2 (feasible_objects self) draw;
  let header := sampled_line object_one object_two in
  let '(object_one_satisfaction_degrees, object_two_satisfaction_degrees) :=
    lookup_degrees (object_qualitative_values self) (name object_one) (name object_two)
      ([], []) in
  v ← compare_degrees object_one_satisfaction_degrees object_two_satisfaction_degrees;
  Return (v, [header;
    match v with
    | Incomparable => "and " +:+ name object_one +:+ " and " +:+ name object_two
                        +:+ " are incomparable."
    | OneOverTwo => "and " +:+ name object_one +:+ " is strictly preferred over "
                        +:+ name object_two +:+ "."
    | TwoOverOne => "and " +:+ name object_two +:+ " is strictly preferred over "
                        +:+ name object_one +:+ "."
    | Equal => "and " +:+ name object_one +:+ " and " +:+ name object_two
                        +:+ " are equal."
    end]).

(** [is_optimal_qualitative_object]: the loop over the dictionary stops
    ([break]) at the first vector that is strictly preferred to [obj1]. *)
Fixpoint is_optimal_qualitative_object (oqv : list (string * list Z)) (obj1 : list Z)
  : result bool :=
  match oqv with
  | [] => Return true
  | (_, obj2) :: oqv' =>
      v ← compare_degrees obj1 obj2;
      match v with
      | TwoOverOne => Return false
      | _ => is_optimal_qualitative_object oqv' obj1
      end
  end.

(** [qualitative_omni_optimization]: the names of the optimal objects. *)
Definition qualitative_omni_optimization (self : PreferenceProblem) : result (list string) :=
  for_each (fun optimal_objects '(key, obj) =>
      b ← is_optimal_qualitative_object (object_qualitative_values self) obj;
      Return (if b : bool then optimal_objects ++ [key] else optimal_objects))
    (object_qualitative_values self) [].

(** [is_optimal_penalty_object] *)
Fixpoint is_optimal_penalty_object (feasible : list Object) (obj1 : Object) : bool :=
  match feasible with
  | [] => true
  | obj2 :: feasible' =>
      if get_total_penalty obj1 =? get_total_penalty obj2 then
        is_optimal_penalty_object feasible' obj1
      else if get_total_penalty obj1 <? get_total_penalty obj2 then
        is_optimal_penalty_object feasible' obj1
      else false
  end.

(** [penalty_omni_optimization]: the names of the optimal objects. *)
Definition penalty_omni_optimization (self : PreferenceProblem) : list string :=
  map name (List.filter (is_optimal_penalty_object (feasible_objects self))
                        (feasible_objects self)).

(** ** [datahandler.py]: the object generator and the file readers *)

(** [format(p, 'b')] for a positive number: its binary digits, the most
    significant first. *)
Fixpoint bin_pos (p : positive) : string :=
  match p with
  | xH => "1"
  | xO q => bin_pos q +:+ "0"
  | xI q => bin_pos q +:+ "1"
  end.

Fixpoint zeros (n : nat) : string :=
  match n with
  | O => ""
  | S n' => String "0" (zeros n')
  end.

(** Padding with zeros on the left up to [width] characters; longer
    texts are kept whole. *)
Definition zero_pad (width : nat) (digits : string) : string :=
  zeros (width - String.length digits) +:+ digits.

(** [encode_string]: [format(integer_value, f'0{num_of_bits}b')]; the
    sign of a negative number comes before the padding. *)
Definition encode_string (integer_value : Z) (num_of_bits : nat) : string :=
  match integer_value with
  | Z0 => zero_pad num_of_bits "0"
  | Zpos p => zero_pad num_of_bits (bin_pos p)
  | Zneg p => String "-" (zero_pad (num_of_bits - 1) (bin_pos p))
  end.

(** [int(item)] for a one-character text: its value for a decimal digit,
    [ValueError] for any other character. *)
Definition int_of_char (item : ascii) : result Z :=
  match Ascii.is_nat item with
  | Some d => Return (Z.of_nat d)
  | None => Raise ValueError
  end.

(** The loop [for index, item in enumerate(encoded_string)] of
    [make_objects], with its counter [integer] and the two lists it
    fills. *)
Fixpoint object_fields (attrs : list (list string)) (encoded_string : string)
    (idx : nat) (integer : Z) (object_values : list string) (object_integers : list Z)
  : result (list string * list Z) :=
  match encoded_string with
  | EmptyString => Return (object_values, object_integers)
  | String item rest =>
      attribute_variable ← index attrs idx;
      bit_value ← int_of_char item;
      let '(target_index, object_integer) :=
        if bit_value =? 0 then (1%nat, - integer) else (0%nat, integer) in
      attribute_value ← index attribute_variable target_index;
      object_fields attrs rest (S idx) (integer + 1)
        (object_values ++ [attribute_value]) (object_integers ++ [object_integer])
  end.

(** [str(n)] for a natural number. *)
Definition str_nat (n : nat) : string := NilZero.string_of_uint (Nat.to_uint n).

(** One iteration of the [while] loop of [make_objects]. *)
Definition make_object (attrs : list (list string)) (integer_value : nat) : result Object :=
  let num_of_bits := length attrs in
  let object_name := "o" +:+ str_nat integer_value in
  let encoded_string := encode_string (Z.of_nat integer_value) num_of_bits in
  '(object_values, object_integers) ← object_fields attrs encoded_string 0 1 [] [];
  Return (new_Object object_name encoded_string object_values object_integers).

(** [make_objects]: [objects] is the list [self.objects] before the call,
    the result is that list afterwards. *)
Definition make_objects (dh : DataHandler) (objects : list Object) : result (list Object) :=
  for_each (fun objs integer_value =>
              new_object ← make_object (attributes dh) integer_value;
              Return (objs ++ [new_object]))
           (seq 0 (2 ^ length (attributes dh))) objects.

(** [read_penalty_logic] and [read_qualitative_logic], on the stripped
    lines of the file, [self.penalty_objects] and
    [self.qualitative_objects] being empty before the call. *)
Definition read_penalty_logic (dh : DataHandler) (lines : list string)
  : result (list PenaltyLogic) :=
  for_each (fun acc line =>
              penalty_logic ← read_penalty_logic_line dh line;
              Return (acc ++ [penalty_logic])) lines [].

Definition read_qualitative_logic (dh : DataHandler) (lines : list string)
  : result (list QualitativeChoiceLogic) :=
  for_each (fun acc line =>
              qualitative_logic ← read_qualitative_logic_line dh line;
              Return (acc ++ [qualitative_logic])) lines [].

(** ** [object.py] and [preferenceproblem.py]: display *)

(** [", ".join(xs)] *)
Fixpoint join (sep : string) (xs : list string) : string :=
  match xs with
  | [] => ""
  | [x] => x
  | x :: xs' => x +:+ sep +:+ join sep xs'
  end.

(** [Object.__str__]: the line printed. *)
Definition Object_str (o : Object) : string :=
  name o +:+ " - " +:+ join ", " (obj_values o).

(** [encoding]: the lines printed, one per object. *)
Definition encoding_lines (objs : list Object) : list string := map Object_str objs.

(** The line [penalty_omni_optimization] and
    [qualitative_omni_optimization] print for a list of names. *)
Definition optimal_line (optimal_objects : list string) : string :=
  "All optimal objects: " +:+ join ", " optimal_objects.

(** ** [main.py]: construction of the problem *)

(** [new_preference_problem], on the stripped lines of the four files
    (in the order the code reads them), the prompts left out. *)
Definition new_preference_problem `{SatOracle} `{PyBuiltins}
    (attributes_file constraints_file penalty_file qualitative_choice_file : list string)
  : result PreferenceProblem :=
  handler ← read_attributes attributes_file new_DataHandler;
  constraints ← read_constraints handler constraints_file;
  objs ← make_objects handler [];
  pls ← read_penalty_logic handler penalty_file;
  qcls ← read_qualitative_logic handler qualitative_choice_file;
  new_PreferenceProblem objs constraints pls qcls.

(** ** Reference collaborators

    An oracle by exhaustive enumeration and a reader of decimal numerals:
    they make the model run on examples.  The properties below hold for
    every oracle and every [int]. *)

Module Reference.

Definition eval_literal (model : list Z) (l : Z) : bool := py_inZ l model.

Definition eval_clause (model : list Z) (c : clause_t) : bool :=
  existsb (eval_literal model) c.

Definition eval_formula (model : list Z) (f : formula) : bool :=
  forallb (eval_clause model) f.

Definition max_var (f : formula) : nat :=
  fold_right (fun c acc => fold_right (fun l acc' => Nat.max (Z.abs_nat l) acc') acc c) 0%nat f.

(** All assignments to the variables [v, v+1, ..., v+n-1], as lists of
    signed variables. *)
Fixpoint assignments (n : nat) (v : Z) : list (list Z) :=
  match n with
  | O => [[]]
  | S n' =>
      let rest := assignments n' (v + 1) in
      map (cons (- v)) rest ++ map (cons v) rest
  end.

Definition models (f : formula) : list (list Z) :=
  List.filter (fun m => eval_formula m f) (assignments (max_var f) 1).

#[export] Instance oracle : SatOracle := {|
  solve := fun f => match models f with [] => false | _ :: _ => true end;
  enum_models := models
|}.

#[export] Instance builtins : PyBuiltins := {|
  int_of_str := fun s =>
    match NilZero.int_of_string s with
    | Some d => Return (Z.of_int d)
    | None => Raise ValueError
    end
|}.

End Reference.

(** ** Example data *)

Definition demo_dh : DataHandler :=
  {| attributes := [["big"; "small"]; ["red"; "blue"]];
     values := <["blue" := 0]> (<["red" := 1]> (<["small" := 0]> (<["big" := 1]> ∅))) |}.

Definition demo_objects : list Object :=
  [ new_Object "o0" "00" ["small"; "blue"] [-1; -2];
    new_Object "o1" "01" ["small"; "red"] [-1; 2];
    new_Object "o2" "10" ["big"; "blue"] [1; -2];
    new_Object "o3" "11" ["big"; "red"] [1; 2] ].

(** ** Notions of the statements

    What the properties below are stated with: the specification's wording
    of the compiler, of the minimum true tier, of the applied penalty, of
    dominance and of the order with +∞, next to descriptions of the
    inputs of the code. *)

(** The compiler in the words of the specification, not of the code:
    "splits on [AND] to get the clauses; splits each on [OR] to get the
    literals within a clause", in input order. *)
Definition compile_by_parts (dh : DataHandler) (line : string) : result formula :=
  map_result (fun part => map_result (literal_integer dh) (PyStr.split " OR " part))
             (PyStr.split " AND " line).

(** [head] put in front of the first piece. *)
Definition prepend (head : string) (pieces : list string) : list string :=
  match pieces with
  | [] => []
  | p :: ps => (head +:+ p) :: ps
  end.

(** The literal texts of a formula text, in input order. *)
Definition literal_texts (line : string) : list string :=
  concat (map (PyStr.split " OR ") (PyStr.split " AND " line)).

(** The token of a literal text that is looked up as its label: the
    second of exactly two tokens, the first token otherwise. *)
Definition label_token (literal : string) : string :=
  match PyStr.split " " literal with
  | [_; value] => value
  | value :: _ => value
  | [] => ""
  end.

Definition unregistered (dh : DataHandler) (literal : string) : option string :=
  match values dh !! label_token literal with
  | Some _ => None
  | None => Some (label_token literal)
  end.

Fixpoint first_some {A B : Type} (f : A -> option B) (xs : list A) : option B :=
  match xs with
  | [] => None
  | x :: xs' =>
      match f x with
      | Some b => Some b
      | None => first_some f xs'
      end
  end.

(** The object's pinning clauses: one singleton clause per literal. *)
Definition pinning (obj : Object) : formula := return_test_integers obj.

(** Tier [k] (1-based) of the rule is true of the object: its clauses
    plus the pinning clauses are satisfiable. *)
Definition tier_true `{SatOracle} (rule : QualitativeChoiceLogic) (obj : Object) (k : Z) : Prop :=
  1 <= k /\
  exists tier, constraints rule !! Z.to_nat (k - 1) = Some tier /\
               solve (tier ++ pinning obj) = true.

(** "The minimum true tier index, or +∞ if no tier is true." *)
Definition min_true_tier `{SatOracle} (rule : QualitativeChoiceLogic) (obj : Object)
    (d : degree) : Prop :=
  match d with
  | Finite k => tier_true rule obj k /\ forall j, tier_true rule obj j -> k <= j
  | Infinite => forall j, ~ tier_true rule obj j
  end.

(** The integer a rule's configured penalty denotes ([int] of it). *)
Definition penalty_value `{PyBuiltins} (rule : PenaltyLogic) : Z :=
  match py_int (penalty rule) with
  | Return z => z
  | Raise _ => 0
  end.

(** "If satisfiable the applied penalty is 0; if unsatisfiable, the applied
    penalty is the rule's configured penalty value." *)
Definition applied_penalty `{SatOracle} `{PyBuiltins} (rule : PenaltyLogic) (obj : Object) : Z :=
  if solve (constraint rule ++ pinning obj) then 0 else penalty_value rule.

(** The sum over the rules of the applied penalty. *)
Definition sum_applied `{SatOracle} `{PyBuiltins} (rules : list PenaltyLogic) (obj : Object) : Z :=
  fold_right (fun rule acc => applied_penalty rule obj + acc) 0 rules.

(** "A's degree is strictly lower at some index." *)
Definition lower_somewhere (a b : list Z) : Prop :=
  exists i x y, a !! i = Some x /\ b !! i = Some y /\ x < y.

(** "Strictly lower at some index and strictly higher at no index." *)
Definition strictly_preferred (a b : list Z) : Prop :=
  lower_somewhere a b /\ ~ lower_somewhere b a.

(** The order on degrees with +∞: every tier index is strictly better
    than +∞, tier indices compare as integers. *)
Definition degree_lt (a b : degree) : bool :=
  match a, b with
  | Finite x, Finite y => x <? y
  | Finite _, Infinite => true
  | Infinite, _ => false
  end.

(** [a] is strictly better than [b] at some index, with +∞. *)
Fixpoint better_somewhere (a b : list degree) : bool :=
  match a, b with
  | x :: a', y :: b' => degree_lt x y || better_somewhere a' b'
  | _, _ => false
  end.

(** The outcome of the dominance comparison under the +∞ semantics. *)
Definition verdict_inf (a b : list degree) : verdict :=
  match better_somewhere a b, better_somewhere b a with
  | true, true => Incomparable
  | true, false => OneOverTwo
  | false, true => TwoOverOne
  | false, false => Equal
  end.

(** A degree that is not a tier index of 10000 or more. *)
Definition below_sentinel (d : degree) : Prop := forall k, d = Finite k -> k < 10000.

(** The scenario of one attribute (big/small) with the hard constraint
    ["big"] and its base clause: one feasible object. *)
Definition one_feasible_problem : result PreferenceProblem :=
  new_PreferenceProblem (H := Reference.oracle) (H0 := Reference.builtins)
    [ new_Object "o0" "0" ["small"] [-1]; new_Object "o1" "1" ["big"] [1] ]
    [[1]; [-1; 1]]
    [ {| pl_name := "big"; constraint := [[1]]; penalty := PyStr "5" |} ]
    [ {| qcl_name := "big BT small IF"; constraints := [[[1]]; [[-1]]];
         condition := None |} ].

(** The degree vectors are recorded as the constructor leaves them when
    the objects have different names: one vector per feasible object,
    under its name, all of one length. *)
Definition degrees_recorded (self : PreferenceProblem) : Prop :=
  NoDup (map name (feasible_objects self)) /\
  exists (vec : Object -> list Z) (n : nat),
    (forall obj, length (vec obj) = n) /\
    object_qualitative_values self
    = map (fun obj => (name obj, vec obj)) (feasible_objects self).

(** The [n] low bits of [k], the most significant first. *)
Fixpoint bit_list (n : nat) (k : Z) : list bool :=
  match n with
  | O => []
  | S n' => bit_list n' (Z.div2 k) ++ [Z.odd k]
  end.

Fixpoint string_of_bits (bs : list bool) : string :=
  match bs with
  | [] => ""
  | b :: bs' => String (if b then "1" else "0")%char (string_of_bits bs')
  end.

(** The literals of a bit vector: position [p] (from 0) gives [start + p]
    for a bit 1 and its negation for a bit 0. *)
Fixpoint signed_literals (bs : list bool) (start : Z) : list Z :=
  match bs with
  | [] => []
  | b :: bs' => (if b then start else - start) :: signed_literals bs' (start + 1)
  end.

(** The labels of a bit vector: the first label of the attribute for a
    bit 1, the second for a bit 0. *)
Fixpoint chosen_labels (attrs : list (list string)) (bs : list bool) : list string :=
  match attrs, bs with
  | item :: attrs', b :: bs' =>
      default "" (item !! (if b then 0%nat else 1%nat)) :: chosen_labels attrs' bs'
  | _, _ => []
  end.

(** The object number [k] over the attributes [attrs]. *)
Definition generated (attrs : list (list string)) (k : nat) : Object :=
  let bs := bit_list (length attrs) (Z.of_nat k) in
  new_Object ("o" +:+ str_nat k) (string_of_bits bs)
             (chosen_labels attrs bs) (signed_literals bs 1).

(** What [read_attributes] keeps true of a [DataHandler]: every attribute
    has its two labels, and every registered label has the code 0 or 1
    and belongs to an attribute. *)
Definition well_formed (dh : DataHandler) : Prop :=
  Forall (fun item => (2 <= length item)%nat) (attributes dh) /\
  forall label bit,
    values dh !! label = Some bit ->
    (bit = 0 \/ bit = 1) /\ exists item, item ∈ attributes dh /\ label ∈ item.

(** The text of an attribute line. *)
Definition attribute_line (category label_true label_false : string) : string :=
  category +:+ ": " +:+ label_true +:+ ", " +:+ label_false.

(** A literal of one of [n] variables. *)
Definition in_range (n : nat) (z : Z) : Prop := z <> 0 /\ - Z.of_nat n <= z <= Z.of_nat n.

(** All literals held during a call of [make_constraints] are such. *)
Definition heap_in_range (n : nat) (h : mc_heap) : Prop :=
  Forall (in_range n) (clause h) /\
  Forall (fun r => match r with Fresh c => Forall (in_range n) c | Shared => True end)
         (clause_list h).

(** What the loop of [apply_penalty_logic] gives when the table takes
    every row. *)
Fixpoint penalty_pass `{SatOracle} `{PyBuiltins}
    (rules : list PenaltyLogic) (feasible : list Object)
  : result (list penalty_row * list Object) :=
  match feasible with
  | [] => Return ([], [])
  | obj :: feasible' =>
      '(ps, obj') ← apply_rules rules obj;
      let row := (name obj', ps, get_total_penalty obj') in
      '(rows, objs') ← penalty_pass rules feasible';
      Return (row :: rows, obj' :: objs')
  end.

(** What the loop of [apply_qualitative_choice_logic] gives when the
    table takes every row. *)
Fixpoint qualitative_pass `{SatOracle}
    (rules : list QualitativeChoiceLogic) (feasible : list Object)
    (oqv : list (string * list Z))
  : list qualitative_row * list (string * list Z) :=
  match feasible with
  | [] => ([], oqv)
  | obj :: feasible' =>
      let vals := map (fun qualitative_logic => QualitativeChoiceLogic_test qualitative_logic obj) rules in
      let qualitative_values := map stored_value vals in
      let '(rows, oqv') :=
        qualitative_pass rules feasible'
          (dict_set oqv (name obj) qualitative_values) in
      ((name obj, vals) :: rows, oqv')
  end.

(** The verdict that the index-wise comparison of [a] with [b] calls
    for. *)
Definition verdict_for (v : verdict) (a b : list Z) : Prop :=
  (v = OneOverTwo <-> strictly_preferred a b) /\
  (v = TwoOverOne <-> strictly_preferred b a) /\
  (v = Incomparable <-> lower_somewhere a b /\ lower_somewhere b a) /\
  (v = Equal <-> a = b).

(** The second line of the qualitative report for a verdict. *)
Definition verdict_line (v : verdict) (object_one object_two : Object) : string :=
  match v with
  | Incomparable => "and " +:+ name object_one +:+ " and " +:+ name object_two
                      +:+ " are incomparable."
  | OneOverTwo => "and " +:+ name object_one +:+ " is strictly preferred over "
                      +:+ name object_two +:+ "."
  | TwoOverOne => "and " +:+ name object_two +:+ " is strictly preferred over "
                      +:+ name object_one +:+ "."
  | Equal => "and " +:+ name object_one +:+ " and " +:+ name object_two
                      +:+ " are equal."
  end.

(** The verdict seen from the other object. *)
Definition swap_verdict (v : verdict) : verdict :=
  match v with
  | OneOverTwo => TwoOverOne
  | TwoOverOne => OneOverTwo
  | Incomparable => Incomparable
  | Equal => Equal
  end.

(** The sum of the degrees of a vector. *)
Definition degree_sum (d : list Z) : Z := fold_right Z.add 0 d.

(** The rule applies to the object: it has no condition, or its
    condition holds under the pinning. *)
Definition applicable `{SatOracle} (rule : QualitativeChoiceLogic) (obj : Object) : bool :=
  match condition rule with
  | Some c => solve (c ++ pinning obj)
  | None => true
  end.

(** The rule with one more tier after its last. *)
Definition with_tier (rule : QualitativeChoiceLogic) (tier : formula)
  : QualitativeChoiceLogic :=
  {| qcl_name := qcl_name rule; constraints := constraints rule ++ [tier];
     condition := condition rule |}.

(** * Properties *)

(** ** Splitting *)

Section Splitting.
Import PyStr.

Lemma append_nil (s : string) : "" +:+ s = s.
Proof. reflexivity. Qed.

Lemma append_cons (c : ascii) (s t : string) : String c s +:+ t = String c (s +:+ t).
Proof. reflexivity. Qed.

Lemma append_empty_r (s : string) : s +:+ "" = s.
Proof. induction s as [|c s IH]; [reflexivity|]. now rewrite append_cons, IH. Qed.

Lemma prefix_cons (a b : ascii) (p s : string) :
  String.prefix (String a p) (String b s)
  = if Ascii.eqb a b then String.prefix p s else false.
Proof.
  cbn. destruct (ascii_dec a b) as [->|Hne].
  - now rewrite Ascii.eqb_refl.
  - apply Ascii.eqb_neq in Hne. now rewrite Hne.
Qed.

Lemma prefix_nil (s : string) : String.prefix "" s = true.
Proof. destruct s; reflexivity. Qed.

Lemma prefix_append (p s : string) : String.prefix p (p +:+ s) = true.
Proof.
  induction p as [|a p IH]; [apply prefix_nil|].
  rewrite append_cons, prefix_cons, Ascii.eqb_refl. exact IH.
Qed.

Lemma prefix_has_char (c : ascii) (p s : string) :
  String.prefix p s = true -> has_char c p = true -> has_char c s = true.
Proof.
  revert s. induction p as [|a p IH]; intros s Hp Hc; [discriminate|].
  destruct s as [|b s]; [discriminate|].
  rewrite prefix_cons in Hp. destruct (Ascii.eqb a b) eqn:Hab; [|discriminate].
  apply Ascii.eqb_eq in Hab as ->.
  cbn in Hc |- *. destruct (Ascii.eqb c b); [reflexivity|]. cbn in *. eauto.
Qed.

(** A separator that contains a character absent from [s] does not
    occur in [s]. *)
Lemma occurs_absent_char (c : ascii) (sep s : string) :
  has_char c sep = true -> has_char c s = false -> occurs sep s = false.
Proof.
  intros Hsep. induction s as [|b s IH]; intros Hs.
  - cbn. destruct sep; [discriminate|reflexivity].
  - cbn [occurs]. cbn in Hs. apply orb_false_iff in Hs as [Hb Hs].
    rewrite (IH Hs), orb_false_r.
    destruct (String.prefix sep (String b s)) eqn:Hp; [|reflexivity].
    pose proof (prefix_has_char c _ _ Hp Hsep) as H. cbn in H.
    rewrite Hb, Hs in H. discriminate.
Qed.

(** [s.split(sep) == [s]] when [sep] does not occur in [s]. *)
Lemma split_no_occurrence (sep s : string) :
  occurs sep s = false -> split sep s = [s].
Proof.
  unfold split. induction s as [|c s IH]; intros H; [reflexivity|].
  cbn [occurs] in H. apply orb_false_iff in H as [Hp Ho].
  cbn [split_from]. unfold fixed_sep at 1. rewrite Hp, (IH Ho). reflexivity.
Qed.

Lemma split_from_skip (m : matcher) (u s : string) :
  split_from m (u +:+ s) (String.length u) = split_from m s 0.
Proof.
  induction u as [|c u IH]; [reflexivity|].
  rewrite append_cons. cbn [String.length split_from]. exact IH.
Qed.

(** Splitting [head +:+ sep +:+ s] when no separator starts inside
    [head]: here for a [head] without the first character of [sep]. *)
Lemma split_head (c : ascii) (sep' head s : string) :
  has_char c head = false ->
  split (String c sep') (head +:+ String c sep' +:+ s)
  = head :: split (String c sep') s.
Proof.
  unfold split. induction head as [|b head IH]; intros Hh.
  - rewrite append_nil.
    assert (Hm : fixed_sep (String c sep') (String c sep' +:+ s)
                 = Some (S (String.length sep'))).
    { unfold fixed_sep. now rewrite prefix_append. }
    rewrite append_cons in Hm |- *. cbn [split_from]. rewrite Hm.
    f_equal. apply split_from_skip.
  - cbn in Hh. apply orb_false_iff in Hh as [Hb Hh].
    rewrite append_cons. cbn [split_from]. unfold fixed_sep at 1.
    rewrite prefix_cons, Hb, (IH Hh). reflexivity.
Qed.

Lemma has_char_append (c : ascii) (s t : string) :
  has_char c (s +:+ t) = has_char c s || has_char c t.
Proof.
  induction s as [|b s IH]; [reflexivity|].
  rewrite append_cons. cbn. rewrite IH. apply orb_assoc.
Qed.

End Splitting.

(** ** The formula compiler on a single literal *)

Section SingleLiteral.
Import PyStr.

Lemma occurs_one_space (sep' marker label : string) :
  has_char " " sep' = true ->
  has_char " " marker = false ->
  has_char " " label = false ->
  occurs (String " " sep') (marker +:+ " " +:+ label) = false.
Proof.
  intros Hsep Hm Hl. induction marker as [|b marker IH].
  - rewrite append_nil. change (" " +:+ label) with (String " " label).
    cbn [occurs]. rewrite prefix_cons, Ascii.eqb_refl.
    rewrite (occurs_absent_char " " (String " " sep') label) by (assumption || reflexivity).
    rewrite orb_false_r.
    destruct (String.prefix sep' label) eqn:Hp; [|reflexivity].
    rewrite (prefix_has_char " " _ _ Hp Hsep) in Hl. discriminate.
  - cbn [has_char] in Hm. apply orb_false_iff in Hm as [Hb Hm].
    rewrite append_cons. cbn [occurs]. rewrite prefix_cons, Hb, (IH Hm). reflexivity.
Qed.

Lemma return_integer_from_first (items : list (list string)) (idx : Z)
    (value : string) (n : nat) (item : list string) :
  items !! n = Some item ->
  value ∈ item ->
  (forall j item', (j < n)%nat -> items !! j = Some item' -> value ∉ item') ->
  return_integer_from items idx value = idx + Z.of_nat n.
Proof.
  revert idx n. induction items as [|it items IH]; intros idx n Hn Hin Hfirst.
  - discriminate.
  - cbn [return_integer_from]. destruct n as [|n].
    + injection Hn as ->. rewrite bool_decide_eq_true_2 by assumption. lia.
    + rewrite bool_decide_eq_false_2 by (apply (Hfirst 0%nat); [lia|reflexivity]).
      rewrite (IH (idx + 1) n Hn Hin).
      * lia.
      * intros j item' Hj. apply (Hfirst (S j)). lia.
Qed.

Variable dh : DataHandler.

Lemma literal_integer_bare (label : string) (bit : Z) :
  has_char " " label = false ->
  values dh !! label = Some bit ->
  literal_integer dh label
  = Return (if bit =? 0 then - return_integer dh label else return_integer dh label).
Proof.
  intros Hl Hb. unfold literal_integer.
  rewrite split_no_occurrence by (apply (occurs_absent_char " "); [reflexivity|assumption]).
  cbn. unfold values_get. rewrite Hb. reflexivity.
Qed.

Lemma literal_integer_negated (marker label : string) (bit : Z) :
  has_char " " marker = false ->
  has_char " " label = false ->
  values dh !! label = Some bit ->
  literal_integer dh (marker +:+ " " +:+ label)
  = Return (if bit =? 1 then - return_integer dh label else return_integer dh label).
Proof.
  intros Hm Hl Hb. unfold literal_integer.
  rewrite (split_head " " "" marker label Hm).
  rewrite split_no_occurrence by (apply (occurs_absent_char " "); [reflexivity|assumption]).
  cbn. unfold values_get. rewrite Hb. reflexivity.
Qed.

(** A formula text without [" AND "] and [" OR "] compiles to the one
    clause of its literal. *)
Lemma make_constraints_single (text : string) (integer : Z) :
  occurs " AND " text = false ->
  occurs " OR " text = false ->
  literal_integer dh text = Return integer ->
  make_constraints dh text = Return [[integer]].
Proof.
  intros Hand Hor Hlit. unfold make_constraints.
  rewrite (split_no_occurrence _ _ Hand). cbn [for_each].
  unfold mc_part at 1. rewrite (split_no_occurrence _ _ Hor).
  cbn [length Nat.eqb for_each]. unfold mc_single at 1. rewrite Hlit.
  reflexivity.
Qed.

(** C7. For a registered label of one token (no space inside), held
    first by the attribute at 1-based position [i]: the bare label
    compiles to [[+i]] when its bit is 1 and to [[-i]] when its bit is 0,
    and the two-token negated form (any marker token, a space, the
    label) compiles to the clause of the opposite sign. *)
Theorem single_literal_sign (label : string) (bit : Z) (n : nat) (item : list string) :
  has_char " " label = false ->
  values dh !! label = Some bit ->
  attributes dh !! n = Some item ->
  label ∈ item ->
  (forall j item', (j < n)%nat -> attributes dh !! j = Some item' -> label ∉ item') ->
  let i := Z.of_nat n + 1 in
  (bit = 1 -> make_constraints dh label = Return [[i]]) /\
  (bit = 0 -> make_constraints dh label = Return [[- i]]) /\
  (forall marker, has_char " " marker = false ->
     (bit = 1 -> make_constraints dh (marker +:+ " " +:+ label) = Return [[- i]]) /\
     (bit = 0 -> make_constraints dh (marker +:+ " " +:+ label) = Return [[i]])).
Proof.
  intros Hl Hb Hn Hin Hfirst i.
  assert (Hi : return_integer dh label = i).
  { unfold return_integer, i.
    rewrite (return_integer_from_first _ 1 label n item Hn Hin Hfirst). lia. }
  assert (Hbare : forall sep', has_char " " sep' = true ->
            occurs (String " " sep') label = false).
  { intros sep' _. apply (occurs_absent_char " "); [reflexivity|assumption]. }
  repeat split.
  - intros ->. apply make_constraints_single; [now apply Hbare..|].
    rewrite (literal_integer_bare label 1 Hl Hb), Hi. reflexivity.
  - intros ->. apply make_constraints_single; [now apply Hbare..|].
    rewrite (literal_integer_bare label 0 Hl Hb), Hi. reflexivity.
  - intros ->. apply make_constraints_single;
      [now apply occurs_one_space..|].
    rewrite (literal_integer_negated marker label 1 H Hl Hb), Hi. reflexivity.
  - intros ->. apply make_constraints_single;
      [now apply occurs_one_space..|].
    rewrite (literal_integer_negated marker label 0 H Hl Hb), Hi. reflexivity.
Qed.

End SingleLiteral.

Lemma single_literal_sign_witness :
  make_constraints demo_dh "red" = Return [[2]] /\
  make_constraints demo_dh "not red" = Return [[-2]].
Proof.
  destruct (single_literal_sign demo_dh "red" 1 1 ["red"; "blue"]) as (H1 & _ & H2).
  - reflexivity.
  - reflexivity.
  - reflexivity.
  - apply (bool_decide_unpack _). reflexivity.
  - intros j item' Hj Hlook. destruct j as [|j]; [|lia].
    injection Hlook as <-. apply (bool_decide_eq_false_1 _). reflexivity.
  - split; [now apply H1|]. now apply (H2 "not").
Defined.

(** ** Qualitative rule lines *)

Section RuleLines.
Import PyStr.

Lemma prefix_shorter (p q s : string) :
  String.prefix (p +:+ q) s = true -> String.prefix p s = true.
Proof.
  revert s. induction p as [|a p IH]; intros s H; [apply prefix_nil|].
  destruct s as [|b s]; [discriminate|].
  rewrite append_cons in H. rewrite prefix_cons in H |- *.
  destruct (Ascii.eqb a b); [now apply IH|discriminate].
Qed.

Lemma re_IF_none (s : string) : String.prefix " IF" s = false -> re_IF s = None.
Proof.
  intros H. unfold re_IF. rewrite H.
  destruct (String.prefix " IF " s) eqn:Hp; [|reflexivity].
  rewrite (prefix_shorter " IF" " " s Hp) in H. discriminate.
Qed.

(** No separator starts inside a text without [" IF"], whatever
    follows it after a further [" IF"]. *)
Lemma prefix_IF_straddle (c : ascii) (l tail : string) :
  String.prefix " IF" (String c l) = false ->
  String.prefix " IF" (String c (l +:+ " IF" +:+ tail)) = false.
Proof.
  intros H. rewrite prefix_cons in H |- *.
  destruct (Ascii.eqb " " c); [|reflexivity].
  destruct l as [|b l]; [reflexivity|].
  rewrite append_cons. rewrite prefix_cons in H |- *.
  destruct (Ascii.eqb "I" b); [|reflexivity].
  destruct l as [|d l]; [reflexivity|].
  rewrite append_cons. rewrite prefix_cons in H |- *.
  destruct (Ascii.eqb "F" d); [|reflexivity].
  rewrite prefix_nil in H. discriminate.
Qed.

Lemma split_from_nonempty (m : matcher) (s : string) (k : nat) :
  split_from m s k <> [].
Proof.
  revert k. induction s as [|c s IH]; intros k; [discriminate|].
  cbn [split_from]. destruct k; [|apply IH].
  destruct (m (String c s)) as [[|j]|]; try discriminate;
    (specialize (IH 0%nat); destruct (split_from m s 0); [congruence|discriminate]).
Qed.

Lemma re_split_head (logic tail : string) :
  occurs " IF" logic = false ->
  split_from re_IF (logic +:+ " IF" +:+ tail) 0
  = prepend logic (split_from re_IF (" IF" +:+ tail) 0).
Proof.
  induction logic as [|c l IH]; intros H.
  - rewrite append_nil.
    destruct (split_from re_IF (" IF" +:+ tail) 0) eqn:E; reflexivity.
  - cbn [occurs] in H. apply orb_false_iff in H as [Hp Ho].
    rewrite append_cons. cbn [split_from].
    rewrite (re_IF_none _ (prefix_IF_straddle c l tail Hp)), (IH Ho).
    pose proof (split_from_nonempty re_IF (" IF" +:+ tail) 0) as Hne.
    destruct (split_from re_IF (" IF" +:+ tail) 0); [congruence|reflexivity].
Qed.

Lemma re_split_no_IF (s : string) :
  occurs " IF" s = false -> re_split_IF s = [s].
Proof.
  unfold re_split_IF. induction s as [|c s IH]; intros H; [reflexivity|].
  cbn [occurs] in H. apply orb_false_iff in H as [Hp Ho].
  cbn [split_from]. rewrite (re_IF_none _ Hp), (IH Ho). reflexivity.
Qed.

Lemma re_split_bare_IF (logic : string) :
  occurs " IF" logic = false -> re_split_IF (logic +:+ " IF") = [logic; ""].
Proof.
  intros H. unfold re_split_IF.
  change (logic +:+ " IF") with (logic +:+ " IF" +:+ "").
  rewrite (re_split_head logic "" H).
  change (split_from re_IF (" IF" +:+ "") 0) with [""; ""].
  unfold prepend. now rewrite append_empty_r.
Qed.

Lemma re_split_IF_condition (logic cond : string) :
  occurs " IF" logic = false ->
  occurs " IF" cond = false ->
  re_split_IF (logic +:+ " IF " +:+ cond) = [logic; cond].
Proof.
  intros Hl Hc. unfold re_split_IF.
  change (logic +:+ " IF " +:+ cond) with (logic +:+ " IF" +:+ String " " cond).
  rewrite (re_split_head logic _ Hl).
  change (" IF" +:+ String " " cond) with (" IF " +:+ cond).
  assert (Hm : re_IF (" IF " +:+ cond) = Some 4%nat).
  { unfold re_IF. now rewrite prefix_append. }
  change (" IF " +:+ cond) with (String " " ("IF " +:+ cond)) in Hm |- *.
  cbn [split_from]. rewrite Hm.
  change (split_from re_IF ("IF " +:+ cond) 3)
    with (split_from re_IF ("IF " +:+ cond) (String.length "IF ")).
  rewrite (split_from_skip re_IF "IF " cond).
  fold (re_split_IF cond). rewrite (re_split_no_IF cond Hc).
  unfold prepend. now rewrite append_empty_r.
Qed.

End RuleLines.

Section QualitativeLines.
Import PyStr.

Lemma bind_Return {A B : Type} (a : A) (k : A -> result B) :
  (Return a ≫= k) = k a.
Proof. reflexivity. Qed.

Lemma for_each_collect {A B : Type} (f : A -> result B) (xs : list A) (acc : list B) :
  for_each (fun acc x => y ← f x; Return (acc ++ [y])) xs acc
  = (ys ← map_result f xs; Return (acc ++ ys)).
Proof.
  revert acc. induction xs as [|x xs IH]; intros acc; cbn [for_each map_result].
  - cbn. now rewrite app_nil_r.
  - destruct (f x) as [y|e]; [|reflexivity]. cbn. rewrite IH.
    destruct (map_result f xs) as [ys|e]; [|reflexivity]. cbn.
    now rewrite <- app_assoc.
Qed.

Variable dh : DataHandler.

(** C3, as the code has it.  For a text [logic] of tiers without
    [" IF"] whose [" BT "]-separated formulas compile, in input order, to
    [tiers]: the line [logic] alone is rejected with an index error; the
    line [logic IF] (the keyword with nothing after it) yields the rule
    with these tiers and no condition; the line [logic IF cond] yields
    the rule with these tiers and the compiled condition. *)
Theorem qualitative_line_needs_IF (logic : string) (tiers : list formula) :
  occurs " IF" logic = false ->
  map_result (make_constraints dh) (split " BT " logic) = Return tiers ->
  read_qualitative_logic_line dh logic = Raise IndexError /\
  read_qualitative_logic_line dh (logic +:+ " IF")
  = Return {| qcl_name := logic +:+ " IF"; constraints := tiers; condition := None |} /\
  (forall (cond : string) (c : formula),
     cond <> "" ->
     occurs " IF" cond = false ->
     make_constraints dh cond = Return c ->
     read_qualitative_logic_line dh (logic +:+ " IF " +:+ cond)
     = Return {| qcl_name := logic +:+ " IF " +:+ cond; constraints := tiers;
                 condition := Some c |}).
Proof.
  intros Hl Ht. repeat split.
  - unfold read_qualitative_logic_line. rewrite (re_split_no_IF logic Hl). reflexivity.
  - unfold read_qualitative_logic_line. rewrite (re_split_bare_IF logic Hl).
    cbn [index lookup list_lookup]. rewrite !bind_Return.
    cbn [String.eqb pop1 length Nat.eqb]. rewrite bind_Return.
    rewrite for_each_collect, Ht. reflexivity.
  - intros cond c Hne Hc Hcc. unfold read_qualitative_logic_line.
    rewrite (re_split_IF_condition logic cond Hl Hc).
    cbn [index lookup list_lookup]. rewrite !bind_Return.
    apply String.eqb_neq in Hne. rewrite Hne.
    cbn [length Nat.eqb index lookup list_lookup]. rewrite bind_Return, Hcc.
    cbn. rewrite for_each_collect, Ht. reflexivity.
Qed.

End QualitativeLines.

Lemma qualitative_line_needs_IF_witness :
  read_qualitative_logic_line demo_dh "big BT small IF"
  = Return {| qcl_name := "big BT small IF"; constraints := [[[1]]; [[-1]]];
              condition := None |} /\
  read_qualitative_logic_line demo_dh "big BT small IF red"
  = Return {| qcl_name := "big BT small IF red"; constraints := [[[1]]; [[-1]]];
              condition := Some [[2]] |}.
Proof.
  destruct (qualitative_line_needs_IF demo_dh "big BT small" [[[1]]; [[-1]]])
    as (_ & H1 & H2).
  - reflexivity.
  - reflexivity.
  - split; [exact H1|].
    apply (H2 "red" [[2]]); [discriminate|reflexivity|reflexivity].
Defined.

(** C3, as stated, fails: a rule line without the [IF] keyword is not
    parsed, the look-up of the condition part raises an index error. *)
Lemma qualitative_line_without_IF_rejected :
  read_qualitative_logic_line demo_dh "big BT small" = Raise IndexError.
Proof. reflexivity. Qed.

(** ** Errors of the formula compiler *)

Section CompilerErrors.
Import PyStr.

Lemma first_some_app {A B : Type} (f : A -> option B) (xs ys : list A) :
  first_some f (xs ++ ys)
  = match first_some f xs with Some b => Some b | None => first_some f ys end.
Proof.
  induction xs as [|x xs IH]; [reflexivity|].
  cbn. destruct (f x); [reflexivity|exact IH].
Qed.

Lemma first_some_concat {A B : Type} (f : A -> option B) (xss : list (list A)) :
  first_some f (concat xss) = first_some (first_some f) xss.
Proof.
  induction xss as [|xs xss IH]; [reflexivity|].
  cbn [concat first_some]. rewrite first_some_app, IH. reflexivity.
Qed.

Lemma first_some_map {A B C : Type} (g : A -> B) (f : B -> option C) (xs : list A) :
  first_some f (map g xs) = first_some (fun x => f (g x)) xs.
Proof.
  induction xs as [|x xs IH]; [reflexivity|].
  cbn. destruct (f (g x)); [reflexivity|exact IH].
Qed.

(** A loop whose body fails exactly on the elements that [bad] marks
    fails on the first of them, with its exception. *)
Lemma for_each_first_failure {A S : Type} (bad : A -> option string)
    (body : S -> A -> result S) :
  (forall acc x,
      match bad x with
      | Some k => body acc x = Raise (KeyError k)
      | None => exists acc', body acc x = Return acc'
      end) ->
  forall xs acc,
    match first_some bad xs with
    | Some k => for_each body xs acc = Raise (KeyError k)
    | None => exists acc', for_each body xs acc = Return acc'
    end.
Proof.
  intros Hbody. induction xs as [|x xs IH]; intros acc; cbn [first_some for_each].
  - eauto.
  - specialize (Hbody acc x). destruct (bad x) as [k|].
    + now rewrite Hbody.
    + destruct Hbody as [acc' ->]. rewrite bind_Return. apply IH.
Qed.

(** The pieces of a split on one character do not contain it. *)
Lemma split_pieces_clean (c : ascii) (s : string) (k : nat) :
  Forall (fun p => has_char c p = false) (split_from (fixed_sep (String c "")) s k).
Proof.
  revert k. induction s as [|ch s IH]; intros k; cbn [split_from].
  - repeat constructor.
  - destruct k as [|k]; [|apply IH].
    unfold fixed_sep at 1. rewrite prefix_cons, prefix_nil.
    destruct (Ascii.eqb c ch) eqn:Hc; cbn [String.length].
    + constructor; [reflexivity|apply IH].
    + specialize (IH 0%nat).
      destruct (split_from (fixed_sep (String c "")) s 0) as [|p ps]; cbn [cons_head].
      * repeat constructor. cbn. now rewrite Hc.
      * inversion IH as [|? ? Hp Hps]; subst. constructor; [|assumption].
        cbn. now rewrite Hc, Hp.
Qed.

Variable dh : DataHandler.

Lemma literal_integer_outcome (literal : string) :
  match unregistered dh literal with
  | Some k => literal_integer dh literal = Raise (KeyError k)
  | None => exists z, literal_integer dh literal = Return z
  end.
Proof.
  unfold unregistered, label_token, literal_integer, split.
  pose proof (split_from_nonempty (fixed_sep " ") literal 0) as Hne.
  destruct (split_from (fixed_sep " ") literal 0) as [|a [|b [|c r]]];
    [congruence| | |];
    cbn [length Nat.eqb index lookup list_lookup]; rewrite bind_Return;
    unfold values_get;
    match goal with |- context [values dh !! ?v] => destruct (values dh !! v) end;
    cbn; eauto.
Qed.

(** A literal text of more than two tokens is compiled as the bare
    literal of its first token. *)
Lemma literal_integer_long (literal t1 t2 t3 : string) (rest : list string) :
  split " " literal = t1 :: t2 :: t3 :: rest ->
  literal_integer dh literal = literal_integer dh t1.
Proof.
  intros Hs.
  assert (Ht1 : has_char " " t1 = false).
  { pose proof (split_pieces_clean " " literal 0) as Hall.
    unfold split in Hs. rewrite Hs in Hall. now inversion Hall. }
  unfold literal_integer at 1 2. rewrite Hs.
  rewrite (split_no_occurrence " " t1)
    by (apply (occurs_absent_char " "); [reflexivity|assumption]).
  reflexivity.
Qed.

Lemma mc_part_outcome (h : mc_heap) (a_clause : string) :
  match first_some (unregistered dh) (split " OR " a_clause) with
  | Some k => mc_part dh h a_clause = Raise (KeyError k)
  | None => exists h', mc_part dh h a_clause = Return h'
  end.
Proof.
  unfold mc_part.
  set (h0 := {| clause := []; clause_list := clause_list h |}).
  assert (Hsingle := for_each_first_failure (unregistered dh) (mc_single dh)).
  assert (Hseveral := for_each_first_failure (unregistered dh) (mc_several dh)).
  specialize (Hsingle ltac:(intros acc x; unfold mc_single;
    pose proof (literal_integer_outcome x) as Hx;
    destruct (unregistered dh x); [now rewrite Hx|destruct Hx as [z ->]; cbn; eauto])
    (split " OR " a_clause) h0).
  specialize (Hseveral ltac:(intros acc x; unfold mc_several;
    pose proof (literal_integer_outcome x) as Hx;
    destruct (unregistered dh x); [now rewrite Hx|destruct Hx as [z ->]; cbn; eauto])
    (split " OR " a_clause) h0).
  destruct (length (split " OR " a_clause) =? 1)%nat;
    destruct (first_some (unregistered dh) (split " OR " a_clause)).
  - now rewrite Hsingle.
  - destruct Hsingle as [h' ->]. cbn. eauto.
  - now rewrite Hseveral.
  - destruct Hseveral as [h' ->]. cbn. eauto.
Qed.

(** C9, as the code has it.  Compiling a formula text fails exactly when
    the label token of one of its literals (the second of two tokens,
    the first token otherwise) is not registered: the key error of the
    first such token, in input order, reaches the caller and no formula
    is returned.  A literal of more than two tokens is no error: it is
    compiled as the bare literal of its first token. *)
Theorem compile_fails_on_unregistered_only (line : string) :
  match first_some (unregistered dh) (literal_texts line) with
  | Some k => make_constraints dh line = Raise (KeyError k)
  | None => exists f, make_constraints dh line = Return f
  end /\
  (forall literal t1 t2 t3 rest,
      split " " literal = t1 :: t2 :: t3 :: rest ->
      literal_integer dh literal = literal_integer dh t1).
Proof.
  split; [|apply literal_integer_long].
  unfold literal_texts, make_constraints.
  rewrite first_some_concat, first_some_map.
  pose proof (for_each_first_failure
                (fun part => first_some (unregistered dh) (split " OR " part))
                (mc_part dh) mc_part_outcome (split " AND " line)
                {| clause := []; clause_list := [] |}) as H.
  destruct (first_some _ (split " AND " line)).
  - now rewrite H.
  - destruct H as [h' ->]. cbn. eauto.
Qed.

End CompilerErrors.

(** C9, as stated, fails: a literal of three space-separated parts is
    compiled, nothing is raised. *)
Lemma three_part_literal_compiles :
  make_constraints demo_dh "big x y" = Return [[1]].
Proof. reflexivity. Qed.

Example unknown_label_raises :
  make_constraints demo_dh "big AND huge OR red" = Raise (KeyError "huge").
Proof. reflexivity. Qed.

(** ** The shared clause buffer *)

(** Where every [AND]-part is a single literal no clause is shared, and
    the code does what the specification says. *)
Lemma mc_part_one_literal (dh : DataHandler) (h : mc_heap) (part : string) :
  length (PyStr.split " OR " part) = 1%nat ->
  mc_part dh h part
  = (c ← map_result (literal_integer dh) (PyStr.split " OR " part);
     Return {| clause := []; clause_list := clause_list h ++ [Fresh c] |}).
Proof.
  intros Hone. unfold mc_part. cbv zeta. rewrite Hone.
  destruct (PyStr.split " OR " part) as [|lit [|? ?]]; try discriminate.
  cbn [Nat.eqb for_each map_result]. unfold mc_single.
  destruct (literal_integer dh lit) as [i|e]; reflexivity.
Qed.

Lemma single_literal_parts (dh : DataHandler) (parts : list string) (h : mc_heap) :
  Forall (fun part => length (PyStr.split " OR " part) = 1%nat) parts ->
  for_each (mc_part dh) parts h
  = (cs ← map_result (fun part => map_result (literal_integer dh) (PyStr.split " OR " part))
                     parts;
     Return {| clause := match parts with [] => clause h | _ :: _ => [] end;
               clause_list := clause_list h ++ map Fresh cs |}).
Proof.
  intros Hall. revert h. induction Hall as [|part parts Hone _ IH]; intros h.
  - cbn. rewrite app_nil_r. now destruct h.
  - cbn [for_each map_result]. rewrite (mc_part_one_literal dh h part Hone).
    destruct (map_result (literal_integer dh) (PyStr.split " OR " part)) as [c|e];
      [|reflexivity].
    rewrite !bind_Return, IH. cbn [clause clause_list].
    destruct (map_result _ parts) as [cs|e]; [|reflexivity].
    cbn. rewrite <- app_assoc. destruct parts; reflexivity.
Qed.

Lemma make_constraints_single_literal_parts (dh : DataHandler) (line : string) :
  Forall (fun part => length (PyStr.split " OR " part) = 1%nat) (PyStr.split " AND " line) ->
  make_constraints dh line = compile_by_parts dh line.
Proof.
  intros Hall. unfold make_constraints, compile_by_parts.
  rewrite (single_literal_parts dh _ _ Hall).
  destruct (map_result _ (PyStr.split " AND " line)) as [cs|e]; [|reflexivity].
  cbn. f_equal. rewrite map_map. cbn. apply map_id.
Qed.

(** C1 fails on the code.  With two attributes (big/small, red/blue):
    in ["big OR red AND small OR blue"] both parts come out with the
    literals of the last one, and in ["big OR red AND small"] the first
    part comes out as the empty clause; splitting on [AND] and then on
    [OR] gives [[1; 2]; [-1; -2]] and [[1; 2]; [-1]]. *)
Theorem make_constraints_shares_clause :
  make_constraints demo_dh "big OR red AND small OR blue" = Return [[-1; -2]; [-1; -2]] /\
  compile_by_parts demo_dh "big OR red AND small OR blue" = Return [[1; 2]; [-1; -2]] /\
  make_constraints demo_dh "big OR red AND small" = Return [[]; [-1]] /\
  compile_by_parts demo_dh "big OR red AND small" = Return [[1; 2]; [-1]].
Proof. repeat split; reflexivity. Qed.

(** ** The qualitative scorer *)

Section QualitativeScorer.
Context `{SatOracle}.

Lemma py_min_spec (x : Z) (xs : list Z) :
  In (py_min x xs) (x :: xs) /\ forall y, In y (x :: xs) -> py_min x xs <= y.
Proof.
  unfold py_min. revert x. induction xs as [|a xs IH]; intros x; cbn [fold_left].
  - split; [now left|]. intros y [->|[]]. lia.
  - destruct (IH (Z.min x a)) as [Hin Hle]. split.
    + destruct Hin as [Heq|Hin]; [|right; now right].
      rewrite <- Heq. destruct (Z.min_spec x a) as [[_ ->]|[_ ->]];
        [now left|right; now left].
    + intros y [->|[->|Hy]].
      * specialize (Hle (Z.min y a) (or_introl eq_refl)). lia.
      * specialize (Hle (Z.min x y) (or_introl eq_refl)). lia.
      * apply Hle. now right.
Qed.

(** The keys collected in [true_logics]. *)
Lemma true_logics_spec (fs : list formula) (pins : formula) (start k : Z) :
  In k (map fst (List.filter (fun kv => snd kv)
          (map (fun '(idx, pysat_formula) => (idx, solve pysat_formula))
               (enumerate (map (fun logic => logic ++ pins) fs) start))))
  <-> start <= k /\
      exists tier, fs !! Z.to_nat (k - start) = Some tier /\
                   solve (tier ++ pins) = true.
Proof.
  revert start. induction fs as [|f fs IH]; intros start.
  - cbn. split; [tauto|]. intros (_ & tier & Hl & _). discriminate.
  - cbn [map enumerate List.filter snd].
    assert (Hrest := IH (start + 1)). clear IH.
    split.
    + intros Hin.
      assert (Hcase : (solve (f ++ pins) = true /\ k = start) \/
                      In k (map fst (List.filter (fun kv => snd kv)
                        (map (fun '(idx, pysat_formula) => (idx, solve pysat_formula))
                             (enumerate (map (fun logic => logic ++ pins) fs) (start + 1)))))).
      { destruct (solve (f ++ pins)); [|now right].
        destruct Hin as [Heq|Hin]; [left; split; [reflexivity|now rewrite <- Heq]|now right]. }
      destruct Hcase as [[Hs ->]|Hin'].
      * split; [lia|]. exists f. now rewrite Z.sub_diag.
      * apply Hrest in Hin' as (Hle & tier & Hl & Hs).
        split; [lia|]. exists tier. split; [|assumption].
        replace (Z.to_nat (k - start)) with (S (Z.to_nat (k - (start + 1)))) by lia.
        exact Hl.
    + intros (Hle & tier & Hl & Hs).
      destruct (Z.eq_dec k start) as [->|Hne].
      * rewrite Z.sub_diag in Hl. injection Hl as ->. rewrite Hs. now left.
      * assert (Hin : In k (map fst (List.filter (fun kv => snd kv)
                        (map (fun '(idx, pysat_formula) => (idx, solve pysat_formula))
                             (enumerate (map (fun logic => logic ++ pins) fs) (start + 1)))))).
        { apply Hrest. split; [lia|]. exists tier. split; [|assumption].
          replace (Z.to_nat (k - start)) with (S (Z.to_nat (k - (start + 1)))) in Hl by lia.
          exact Hl. }
        destruct (solve (f ++ pins)); [now right|assumption].
Qed.

Lemma min_or_inf_spec (rule : QualitativeChoiceLogic) (obj : Object) (ks : list Z) :
  (forall k, In k ks <-> tier_true rule obj k) ->
  min_true_tier rule obj (min_or_inf ks).
Proof.
  intros Hks. destruct ks as [|k ks]; cbn [min_or_inf min_true_tier].
  - intros j Hj. now apply Hks in Hj.
  - destruct (py_min_spec k ks) as [Hin Hle]. split.
    + now apply Hks.
    + intros j Hj. apply Hle. now apply Hks.
Qed.

(** The degree is determined by the property [min_true_tier]. *)
Lemma min_true_tier_unique (rule : QualitativeChoiceLogic) (obj : Object) (d1 d2 : degree) :
  min_true_tier rule obj d1 -> min_true_tier rule obj d2 -> d1 = d2.
Proof.
  destruct d1 as [k1|], d2 as [k2|]; cbn; intros H1 H2.
  - destruct H1 as [T1 L1], H2 as [T2 L2].
    f_equal. specialize (L1 _ T2). specialize (L2 _ T1). lia.
  - destruct H1 as [T1 _]. now apply H2 in T1.
  - destruct H2 as [T2 _]. now apply H1 in T2.
  - reflexivity.
Qed.

Lemma test_applicable (rule : QualitativeChoiceLogic) (obj : Object) :
  match condition rule with
  | Some c => solve (c ++ pinning obj) = true
  | None => True
  end ->
  min_true_tier rule obj (QualitativeChoiceLogic_test rule obj).
Proof.
  unfold QualitativeChoiceLogic_test, pinning.
  pose proof (min_or_inf_spec rule obj _
    (fun k => true_logics_spec (constraints rule) (return_test_integers obj) 1 k)) as Hmin.
  destruct (condition rule) as [c|]; [|intros _; exact Hmin].
  intros ->. exact Hmin.
Qed.

Lemma test_inapplicable (rule : QualitativeChoiceLogic) (obj : Object) (c : formula) :
  condition rule = Some c ->
  solve (c ++ pinning obj) = false ->
  QualitativeChoiceLogic_test rule obj = Infinite.
Proof.
  unfold QualitativeChoiceLogic_test, pinning. intros -> ->. reflexivity.
Qed.

(** C2. With a condition that holds under the pinning, and without a
    condition, the degree is the minimum true tier index, +∞ when no
    tier is true; with a condition that does not hold it is +∞. *)
Theorem qualitative_degree (rule : QualitativeChoiceLogic) (obj : Object) :
  match condition rule with
  | Some c =>
      if solve (c ++ pinning obj)
      then min_true_tier rule obj (QualitativeChoiceLogic_test rule obj)
      else QualitativeChoiceLogic_test rule obj = Infinite
  | None => min_true_tier rule obj (QualitativeChoiceLogic_test rule obj)
  end.
Proof.
  pose proof (test_applicable rule obj) as Hyes.
  pose proof (test_inapplicable rule obj) as Hno.
  destruct (condition rule) as [c|]; [|now apply Hyes].
  destruct (solve (c ++ pinning obj)) eqn:Hs.
  - apply Hyes. reflexivity.
  - apply (Hno c eq_refl Hs).
Qed.

(** A finite degree is the index of one of the rule's tiers. *)
Lemma test_range (rule : QualitativeChoiceLogic) (obj : Object) (k : Z) :
  QualitativeChoiceLogic_test rule obj = Finite k ->
  1 <= k <= Z.of_nat (length (constraints rule)).
Proof.
  intros Ht.
  assert (Hk : min_true_tier rule obj (Finite k)).
  { rewrite <- Ht. apply test_applicable.
    destruct (condition rule) as [c|] eqn:Hc; [|exact I].
    destruct (solve (c ++ pinning obj)) eqn:Hs; [reflexivity|].
    rewrite (test_inapplicable rule obj c Hc Hs) in Ht. discriminate. }
  destruct Hk as [(Hk & tier & Hl & _) _].
  apply lookup_lt_Some in Hl. unfold formula, clause_t in *. lia.
Qed.

End QualitativeScorer.

(** ** Feasibility *)

Section Feasibility.
Context `{SatOracle}.

Lemma py_in_spec (x : list Z) (xs : list (list Z)) :
  py_in x xs = true <-> In x xs.
Proof.
  unfold py_in. rewrite existsb_exists. split.
  - intros (m & Hin & Heq). apply bool_decide_eq_true in Heq. now subst.
  - intros Hin. exists x. split; [assumption|]. now apply bool_decide_eq_true.
Qed.

(** C4. An object is in the feasible set exactly when it is one of the
    objects and some enumerated model has its length and its element at
    every position; when the oracle enumerates no model the feasible
    set is empty and the report is the line "No feasible objects.". *)
Theorem feasible_iff_model (objs : list Object) (hard : formula) :
  (forall obj,
      In obj (check_feasibility objs hard) <->
      In obj objs /\
      exists m, In m (enum_models hard) /\
                length (integers obj) = length m /\
                forall i, integers obj !! i = m !! i) /\
  (enum_models hard = [] ->
     check_feasibility objs hard = [] /\
     return_feasibility (check_feasibility objs hard) = "No feasible objects.").
Proof.
  split.
  - intros obj. unfold check_feasibility, return_integer_values.
    rewrite filter_In, py_in_spec. split.
    + intros [Ho Hm]. split; [assumption|]. now exists (integers obj).
    + intros [Ho (m & Hm & _ & Heq)]. split; [assumption|].
      now rewrite (list_eq _ _ Heq).
  - intros Hnone. unfold check_feasibility. rewrite Hnone.
    assert (Hnil : List.filter
              (fun obj => py_in (return_integer_values obj) []) objs = []).
    { clear. induction objs as [|o objs IH]; [reflexivity|exact IH]. }
    rewrite Hnil. split; reflexivity.
Qed.

End Feasibility.

Lemma feasible_iff_model_witness :
  check_feasibility (H := Reference.oracle) demo_objects [[1]; [-1]] = [] /\
  return_feasibility (check_feasibility (H := Reference.oracle) demo_objects [[1]; [-1]])
  = "No feasible objects.".
Proof.
  apply (feasible_iff_model (H := Reference.oracle) demo_objects [[1]; [-1]]).
  reflexivity.
Defined.

(** ** The penalty scorer *)

Section PenaltyScorer.
Context `{SatOracle} `{PyBuiltins}.

Lemma pinning_set_total (o : Object) (t : Z) :
  pinning (set_total_penalty o t) = pinning o.
Proof. reflexivity. Qed.

(** One invocation: the value returned and the update of the
    accumulator. *)
Lemma test_outcome (rule : PenaltyLogic) (obj : Object) :
  py_int (penalty rule) = Return (penalty_value rule) ->
  PenaltyLogic_test rule obj
  = Return (if solve (constraint rule ++ pinning obj) then PyInt 0 else penalty rule,
            set_total_penalty obj (total_penalty obj + applied_penalty rule obj)).
Proof.
  intros Hp. unfold PenaltyLogic_test, applied_penalty, pinning.
  destruct (solve (constraint rule ++ return_test_integers obj)).
  - reflexivity.
  - unfold add_penalty. rewrite Hp. reflexivity.
Qed.

Lemma apply_rules_outcome (rules : list PenaltyLogic) (obj : Object) :
  Forall (fun rule => py_int (penalty rule) = Return (penalty_value rule)) rules ->
  apply_rules rules obj
  = Return (map (fun rule => if solve (constraint rule ++ pinning obj)
                             then PyInt 0 else penalty rule) rules,
            set_total_penalty obj (total_penalty obj + sum_applied rules obj)).
Proof.
  intros Hall. revert obj. induction Hall as [|rule rules Hp _ IH]; intros obj.
  - cbn. unfold set_total_penalty. rewrite Z.add_0_r. now destruct obj.
  - cbn [apply_rules]. rewrite (test_outcome rule obj Hp). rewrite bind_Return.
    rewrite IH. cbn. rewrite Z.add_assoc. reflexivity.
Qed.

Lemma penalty_pass_outcome (rules : list PenaltyLogic) (feasible : list Object) :
  Forall (fun rule => py_int (penalty rule) = Return (penalty_value rule)) rules ->
  penalty_pass rules feasible
  = Return (map (fun obj =>
                   (name obj,
                    map (fun rule => if solve (constraint rule ++ pinning obj)
                                     then PyInt 0 else penalty rule) rules,
                    total_penalty obj + sum_applied rules obj)) feasible,
            map (fun obj =>
                   set_total_penalty obj (total_penalty obj + sum_applied rules obj))
                feasible).
Proof.
  intros Hall. induction feasible as [|obj feasible IH]; [reflexivity|].
  cbn [penalty_pass]. rewrite (apply_rules_outcome rules obj Hall).
  rewrite bind_Return. cbn beta iota. rewrite IH. reflexivity.
Qed.

Lemma test_frame (rule : PenaltyLogic) (obj obj' : Object) (p : pyval) :
  PenaltyLogic_test rule obj = Return (p, obj') ->
  (exists t, obj' = set_total_penalty obj t) /\ (p = PyInt 0 \/ p = penalty rule).
Proof.
  unfold PenaltyLogic_test, add_penalty. destruct (solve _).
  - cbn. intros Hr. injection Hr as <- <-. split; [eauto|now left].
  - destruct (py_int (penalty rule)) as [v|e]; [|discriminate]. cbn.
    intros Hr. injection Hr as <- <-. split; [eauto|now right].
Qed.

Lemma apply_rules_frame (rules : list PenaltyLogic) (obj obj' : Object) (ps : list pyval) :
  apply_rules rules obj = Return (ps, obj') ->
  (exists t, obj' = set_total_penalty obj t) /\
  Forall2 (fun rule p => p = PyInt 0 \/ p = penalty rule) rules ps.
Proof.
  revert obj ps. induction rules as [|rule rules IH]; intros obj ps Hr.
  - injection Hr as <- <-. split; [|constructor].
    exists (total_penalty obj). now destruct obj.
  - cbn [apply_rules] in Hr.
    destruct (PenaltyLogic_test rule obj) as [[p o1]|e] eqn:E; [|discriminate].
    rewrite bind_Return in Hr. cbn beta iota in Hr.
    destruct (apply_rules rules o1) as [[ps' o2]|e] eqn:E'; [|discriminate].
    rewrite bind_Return in Hr. cbn beta iota in Hr. injection Hr as <- <-.
    destruct (test_frame _ _ _ _ E) as [[t ->] Hp].
    destruct (IH _ _ E') as [[t' ->] Hps].
    split; [now exists t'|now constructor].
Qed.

(** A row of one entry per rule is taken by the table. *)
Lemma add_row_penalty (rules : list PenaltyLogic) (ps : list pyval) :
  length ps = length rules ->
  add_row (make_penalty_table_columns rules) (1 + length ps + 1) = Return tt.
Proof.
  intros Hlen. unfold add_row, make_penalty_table_columns. cbn [app length].
  rewrite length_app, length_map, Hlen. cbn [length].
  replace (1 + length rules + 1 =? S (length rules + 1))%nat with true; [reflexivity|].
  symmetry. apply Nat.eqb_eq. lia.
Qed.

Lemma penalty_table_rows_pass (rules : list PenaltyLogic) (feasible : list Object) :
  penalty_table_rows (make_penalty_table_columns rules) rules feasible
  = penalty_pass rules feasible.
Proof.
  induction feasible as [|obj feasible IH]; [reflexivity|].
  cbn [penalty_table_rows penalty_pass].
  destruct (apply_rules rules obj) as [[ps obj']|e] eqn:E; [|reflexivity].
  rewrite !bind_Return. cbn beta iota zeta.
  rewrite add_row_penalty.
  - rewrite bind_Return, IH. reflexivity.
  - apply apply_rules_frame in E as [_ Hps]. symmetry. exact (Forall2_length _ _ _ Hps).
Qed.

(** The table is built first: with two equal column names nothing is
    tested; otherwise every row is taken. *)
Lemma apply_penalty_logic_unfold (rules : list PenaltyLogic) (feasible : list Object) :
  apply_penalty_logic rules feasible
  = if bool_decide (NoDup (make_penalty_table_columns rules))
    then penalty_pass rules feasible else Raise ValueError.
Proof.
  unfold apply_penalty_logic, PrettyTable. cbv zeta.
  destruct (bool_decide _); [|reflexivity].
  rewrite bind_Return. apply penalty_table_rows_pass.
Qed.

Lemma penalty_value_spec (rule : PenaltyLogic) :
  (exists v, py_int (penalty rule) = Return v) ->
  py_int (penalty rule) = Return (penalty_value rule).
Proof. intros [v Hv]. unfold penalty_value. now rewrite Hv. Qed.

(** C5. For rules whose configured penalties are integers ([int] of
    them succeeds): an invocation returns 0 when the rule's clauses with
    the pinning clauses are satisfiable and the configured penalty when
    they are not, and adds the integer of the returned value to the
    accumulator.  When the columns of the table (["encoding"], the names
    of the rules, ["total penalty"]) are pairwise different, the pass
    over all rules leaves every feasible object, whose accumulator starts
    at 0, with the sum of the applied penalties, which is also the total
    of its table row; when two columns are equal the table is refused
    with [ValueError] before any rule is tested.  A second invocation on
    the same rule and object adds the applied penalty a second time. *)
Theorem penalty_accumulates (rules : list PenaltyLogic) (feasible : list Object) :
  Forall (fun rule => exists v, py_int (penalty rule) = Return v) rules ->
  Forall (fun obj => total_penalty obj = 0) feasible ->
  (forall rule obj, In rule rules ->
      exists p v obj',
        PenaltyLogic_test rule obj = Return (p, obj') /\
        (solve (constraint rule ++ pinning obj) = true -> p = PyInt 0) /\
        (solve (constraint rule ++ pinning obj) = false -> p = penalty rule) /\
        py_int p = Return v /\
        v = applied_penalty rule obj /\
        total_penalty obj' = total_penalty obj + v) /\
  (NoDup (make_penalty_table_columns rules) ->
   exists table feasible',
      apply_penalty_logic rules feasible = Return (table, feasible') /\
      Forall2 (fun obj obj' =>
                 obj' = set_total_penalty obj (sum_applied rules obj)) feasible feasible' /\
      Forall2 (fun obj row => row.2 = sum_applied rules obj) feasible table) /\
  (~ NoDup (make_penalty_table_columns rules) ->
   apply_penalty_logic rules feasible = Raise ValueError) /\
  (forall rule obj, In rule rules ->
      exists p obj1 obj2,
        PenaltyLogic_test rule obj = Return (p, obj1) /\
        PenaltyLogic_test rule obj1 = Return (p, obj2) /\
        total_penalty obj2 = total_penalty obj + 2 * applied_penalty rule obj).
Proof.
  intros Hint Hzero.
  assert (Hall : Forall (fun rule => py_int (penalty rule) = Return (penalty_value rule))
                        rules).
  { apply List.Forall_forall. intros rule Hin. apply penalty_value_spec.
    exact (proj1 (List.Forall_forall _ _) Hint rule Hin). }
  assert (Hrule : forall rule, In rule rules ->
            py_int (penalty rule) = Return (penalty_value rule)).
  { intros rule Hin. exact (proj1 (List.Forall_forall _ _) Hall rule Hin). }
  split; [|split; [|split]].
  - intros rule obj Hin. specialize (Hrule rule Hin).
    exists (if solve (constraint rule ++ pinning obj) then PyInt 0 else penalty rule),
           (applied_penalty rule obj),
           (set_total_penalty obj (total_penalty obj + applied_penalty rule obj)).
    split; [now apply test_outcome|].
    unfold applied_penalty.
    destruct (solve (constraint rule ++ pinning obj));
      repeat split; try discriminate; try reflexivity; exact Hrule.
  - intros Hcols. rewrite apply_penalty_logic_unfold.
    rewrite (bool_decide_eq_true_2 _ Hcols).
    rewrite (penalty_pass_outcome rules feasible Hall). do 2 eexists.
    split; [reflexivity|]. clear Hrule Hcols.
    induction Hzero as [|obj feasible Hobj _ IH]; cbn [map].
    + split; constructor.
    + destruct IH as [IH1 IH2]. split; constructor; try assumption.
      * now rewrite Hobj, Z.add_0_l.
      * cbn. now rewrite Hobj, Z.add_0_l.
  - intros Hcols. rewrite apply_penalty_logic_unfold.
    now rewrite (bool_decide_eq_false_2 _ Hcols).
  - intros rule obj Hin. do 3 eexists.
    split; [apply test_outcome; auto|].
    split; [rewrite test_outcome by auto; rewrite pinning_set_total; reflexivity|].
    unfold applied_penalty. rewrite pinning_set_total. cbn. lia.
Qed.

End PenaltyScorer.

Lemma penalty_accumulates_witness :
  exists table feasible',
    apply_penalty_logic (H := Reference.oracle) (H0 := Reference.builtins)
      [ {| pl_name := "big"; constraint := [[1]]; penalty := PyStr "5" |};
        {| pl_name := "red"; constraint := [[2]]; penalty := PyStr "3" |} ]
      demo_objects
    = Return (table, feasible') /\
    map total_penalty feasible' = [8; 5; 3; 0].
Proof.
  destruct (penalty_accumulates (H := Reference.oracle) (H0 := Reference.builtins)
      [ {| pl_name := "big"; constraint := [[1]]; penalty := PyStr "5" |};
        {| pl_name := "red"; constraint := [[2]]; penalty := PyStr "3" |} ]
      demo_objects) as (_ & Hpass & _).
  - repeat constructor; eexists; reflexivity.
  - repeat constructor.
  - destruct Hpass as (table & feasible' & Hrun & Hobjs & _).
    { apply (bool_decide_unpack _). reflexivity. }
    exists table, feasible'. split; [exact Hrun|].
    repeat match goal with
           | Hf : Forall2 _ _ _ |- _ => inversion Hf; clear Hf; subst
           end.
    reflexivity.
Defined.

(** ** Qualitative dominance *)

Section Dominance.

Lemma entry_1 (x y : Z) : entry x y = 1 <-> x < y.
Proof.
  unfold entry.
  destruct (Z.leb_spec x y), (Z.ltb_spec x y), (Z.geb_spec x y), (Z.gtb_spec x y);
    cbn; split; intros; try lia; try discriminate.
Qed.

Lemma entry_2 (x y : Z) : entry x y = 2 <-> y < x.
Proof.
  unfold entry.
  destruct (Z.leb_spec x y), (Z.ltb_spec x y), (Z.geb_spec x y), (Z.gtb_spec x y);
    cbn; split; intros; try lia; try discriminate.
Qed.

Lemma satisfaction_comparison_from_zip (one pre two : list Z) :
  length one = length two ->
  satisfaction_comparison_from one (pre ++ two) (length pre)
  = Return (zip_with entry one two).
Proof.
  revert pre two. induction one as [|x one IH]; intros pre two Hlen.
  - now destruct two.
  - destruct two as [|y two]; [discriminate|].
    cbn [satisfaction_comparison_from]. unfold index.
    rewrite lookup_app_r by lia. rewrite Nat.sub_diag. cbn [lookup list_lookup].
    rewrite bind_Return.
    replace (pre ++ y :: two) with ((pre ++ [y]) ++ two) by now rewrite <- app_assoc.
    replace (S (length pre)) with (length (pre ++ [y]))
      by (rewrite length_app; cbn; lia).
    rewrite IH by (cbn in Hlen; lia). reflexivity.
Qed.

Lemma satisfaction_comparison_zip (one two : list Z) :
  length one = length two ->
  satisfaction_comparison one two = Return (zip_with entry one two).
Proof. apply (satisfaction_comparison_from_zip one [] two). Qed.

Lemma lower_somewhere_nil_l (b : list Z) : ~ lower_somewhere [] b.
Proof. intros (i & x & y & Hx & _). discriminate. Qed.

Lemma lower_somewhere_nil_r (a : list Z) : ~ lower_somewhere a [].
Proof. intros (i & x & y & _ & Hy & _). discriminate. Qed.

Lemma lower_somewhere_cons (x y : Z) (a b : list Z) :
  lower_somewhere (x :: a) (y :: b) <-> x < y \/ lower_somewhere a b.
Proof.
  split.
  - intros (i & u & v & Hu & Hv & Hlt). destruct i as [|i].
    + injection Hu as ->. injection Hv as ->. now left.
    + right. now exists i, u, v.
  - intros [Hlt|(i & u & v & Hu & Hv & Hlt)].
    + now exists 0%nat, x, y.
    + now exists (S i), u, v.
Qed.

Lemma in_1_zip (a b : list Z) :
  py_inZ 1 (zip_with entry a b) = true <-> lower_somewhere a b.
Proof.
  revert b. induction a as [|x a IH]; intros b.
  - cbn. split; [discriminate|]. intros Hl. now apply lower_somewhere_nil_l in Hl.
  - destruct b as [|y b].
    + cbn. split; [discriminate|]. intros Hl. now apply lower_somewhere_nil_r in Hl.
    + cbn [zip_with]. unfold py_inZ in *. cbn [existsb].
      rewrite orb_true_iff, IH, lower_somewhere_cons, Z.eqb_eq, <- entry_1.
      intuition congruence.
Qed.

Lemma in_2_zip (a b : list Z) :
  py_inZ 2 (zip_with entry a b) = true <-> lower_somewhere b a.
Proof.
  revert b. induction a as [|x a IH]; intros b.
  - cbn. split; [discriminate|]. intros Hl. now apply lower_somewhere_nil_r in Hl.
  - destruct b as [|y b].
    + cbn. split; [discriminate|]. intros Hl. now apply lower_somewhere_nil_l in Hl.
    + cbn [zip_with]. unfold py_inZ in *. cbn [existsb].
      rewrite orb_true_iff, IH, lower_somewhere_cons, Z.eqb_eq, <- entry_2.
      intuition congruence.
Qed.

Lemma same_iff_nowhere_lower (a b : list Z) :
  length a = length b ->
  a = b <-> ~ lower_somewhere a b /\ ~ lower_somewhere b a.
Proof.
  revert b. induction a as [|x a IH]; intros b Hlen; destruct b as [|y b];
    try discriminate.
  - split; [|reflexivity]. intros _. split; apply lower_somewhere_nil_l.
  - rewrite !lower_somewhere_cons. cbn in Hlen.
    specialize (IH b ltac:(lia)). split.
    + intros Heq. injection Heq as -> ->.
      destruct (proj1 IH eq_refl) as [H1 H2].
      split; intros [Hlt|Hl]; (lia || tauto).
    + intros [H1 H2]. f_equal; [lia|]. apply IH. tauto.
Qed.

Lemma compare_degrees_verdict (a b : list Z) :
  length a = length b ->
  exists v,
    compare_degrees a b = Return v /\
    (v = OneOverTwo <-> strictly_preferred a b) /\
    (v = TwoOverOne <-> strictly_preferred b a) /\
    (v = Incomparable <-> lower_somewhere a b /\ lower_somewhere b a) /\
    (v = Equal <-> a = b).
Proof.
  intros Hlen. unfold compare_degrees.
  rewrite (satisfaction_comparison_zip a b Hlen), bind_Return.
  eexists. split; [reflexivity|].
  rewrite (same_iff_nowhere_lower a b Hlen).
  unfold verdict_of, strictly_preferred.
  rewrite <- (in_1_zip a b), <- (in_2_zip a b).
  destruct (py_inZ 1 (zip_with entry a b)), (py_inZ 2 (zip_with entry a b));
    repeat split; intros; try discriminate; try reflexivity;
    intuition discriminate.
Qed.

Lemma is_optimal_spec (oqv : list (string * list Z)) (d : list Z) :
  (forall key d2, In (key, d2) oqv -> length d2 = length d) ->
  exists b,
    is_optimal_qualitative_object oqv d = Return b /\
    (b = true <-> forall key d2, In (key, d2) oqv -> ~ strictly_preferred d2 d).
Proof.
  induction oqv as [|[key0 d0] oqv IH]; intros Hlen.
  - exists true. split; [reflexivity|]. split; [intros _ ? ? []|reflexivity].
  - cbn [is_optimal_qualitative_object].
    destruct (compare_degrees_verdict d d0) as (v & -> & _ & Htwo & _).
    { symmetry. apply (Hlen key0). now left. }
    rewrite bind_Return.
    destruct IH as (b & Hb & Hiff).
    { intros key d2 Hin. apply (Hlen key). now right. }
    assert (Hdec : v = TwoOverOne \/ v <> TwoOverOne)
      by (destruct v; (now left) || (right; discriminate)).
    destruct Hdec as [->|Hne].
    + exists false. split; [reflexivity|]. split; [discriminate|].
      intros Hall. exfalso. apply (Hall key0 d0); [now left|]. now apply Htwo.
    + exists b. split; [destruct v; congruence|].
      rewrite Hiff. split.
      * intros Hall key d2 [Heq|Hin]; [|now apply (Hall key)].
        injection Heq as <- <-. intros Hp. now apply Htwo in Hp.
      * intros Hall key d2 Hin. apply (Hall key). now right.
Qed.

End Dominance.

(** ** The stored degree vectors *)

Section StoredDegrees.
Context `{SatOracle}.

Lemma dict_set_In {V : Type} (d : list (string * V)) (k key : string) (v value : V) :
  In (k, v) (dict_set d key value) -> (k = key /\ v = value) \/ In (k, v) d.
Proof.
  induction d as [|[k0 v0] d IH]; cbn [dict_set].
  - intros [Heq|[]]. injection Heq as <- <-. now left.
  - destruct (String.eqb_spec k0 key) as [->|Hne].
    + intros [Heq|Hin]; [injection Heq as <- <-; now left|right; now right].
    + intros [Heq|Hin]; [right; now left|].
      destruct (IH Hin) as [Hnew|Hold]; [now left|right; now right].
Qed.

Lemma stored_entries (rules : list QualitativeChoiceLogic) (feasible : list Object)
    (oqv0 : list (string * list Z)) (key : string) (vec : list Z) :
  In (key, vec) (qualitative_pass rules feasible oqv0).2 ->
  In (key, vec) oqv0 \/
  exists obj, In obj feasible /\ key = name obj /\
              vec = map (fun rule => stored_value (QualitativeChoiceLogic_test rule obj)) rules.
Proof.
  revert oqv0. induction feasible as [|obj feasible IH]; intros oqv0.
  - cbn. now left.
  - cbn [qualitative_pass].
    destruct (qualitative_pass rules feasible _) as [rows oqv'] eqn:E.
    cbn [snd]. intros Hin.
    specialize (IH (dict_set oqv0 (name obj)
                      (map stored_value
                         (map (fun qualitative_logic =>
                                 QualitativeChoiceLogic_test qualitative_logic obj) rules)))).
    rewrite E in IH. destruct (IH Hin) as [Hset|(o & Ho & Hk & Hv)].
    + apply dict_set_In in Hset as [[-> ->]|Hold]; [|now left].
      right. exists obj. split; [now left|]. split; [reflexivity|].
      now rewrite map_map.
    + right. exists o. split; [now right|]. now split.
Qed.

Lemma stored_value_range (rule : QualitativeChoiceLogic) (obj : Object) :
  let v := stored_value (QualitativeChoiceLogic_test rule obj) in
  (1 <= v <= Z.of_nat (length (constraints rule)) /\
   QualitativeChoiceLogic_test rule obj = Finite v) \/
  (v = 10000 /\ QualitativeChoiceLogic_test rule obj = Infinite).
Proof.
  cbv zeta. destruct (QualitativeChoiceLogic_test rule obj) as [k|] eqn:Ht;
    cbn [stored_value].
  - left. split; [exact (test_range rule obj k Ht)|reflexivity].
  - now right.
Qed.

(** Below the sentinel, the stored integers are ordered as the degrees. *)
Lemma stored_value_lt (x y : degree) :
  (forall k, x = Finite k -> k < 10000) ->
  (forall k, y = Finite k -> k < 10000) ->
  (stored_value x <? stored_value y) = degree_lt x y.
Proof.
  intros Hx Hy. destruct x as [a|], y as [b|]; cbn.
  - reflexivity.
  - specialize (Hx a eq_refl). now apply Z.ltb_lt.
  - specialize (Hy b eq_refl). apply Z.ltb_ge. lia.
  - reflexivity.
Qed.

Lemma entry_cases (x y : Z) :
  (1 =? entry x y) = (x <? y) /\ (2 =? entry x y) = (y <? x).
Proof.
  unfold entry.
  destruct (Z.leb_spec x y), (Z.ltb_spec x y), (Z.geb_spec x y), (Z.gtb_spec x y),
    (Z.ltb_spec y x); cbn; split; try reflexivity; lia.
Qed.

Lemma stored_comparison (a b : list degree) :
  Forall below_sentinel a -> Forall below_sentinel b ->
  py_inZ 1 (zip_with entry (map stored_value a) (map stored_value b)) = better_somewhere a b /\
  py_inZ 2 (zip_with entry (map stored_value a) (map stored_value b)) = better_somewhere b a.
Proof.
  intros Ha. revert b. induction Ha as [|x a Hx _ IH]; intros b Hb.
  - destruct b; split; reflexivity.
  - destruct Hb as [|y b Hy Hb]; [split; reflexivity|].
    destruct (IH b Hb) as [IH1 IH2]. unfold py_inZ in *.
    cbn [map zip_with existsb better_somewhere].
    destruct (entry_cases (stored_value x) (stored_value y)) as [-> ->].
    rewrite IH1, IH2, (stored_value_lt x y Hx Hy), (stored_value_lt y x Hy Hx).
    split; reflexivity.
Qed.

(** A row of one degree per rule is taken by the table. *)
Lemma add_row_qualitative (rules : list QualitativeChoiceLogic) (vals : list degree) :
  length vals = length rules ->
  add_row (make_qualitative_table_columns rules) (1 + length vals) = Return tt.
Proof.
  intros Hlen. unfold add_row, make_qualitative_table_columns. cbn [length].
  rewrite length_map, Hlen. cbn [Nat.add]. now rewrite Nat.eqb_refl.
Qed.

Lemma qualitative_table_rows_pass (rules : list QualitativeChoiceLogic)
    (feasible : list Object) (oqv : list (string * list Z)) :
  qualitative_table_rows (make_qualitative_table_columns rules) rules feasible oqv
  = Return (qualitative_pass rules feasible oqv).
Proof.
  revert oqv. induction feasible as [|obj feasible IH]; intros oqv; [reflexivity|].
  cbn [qualitative_table_rows qualitative_pass]. cbv zeta.
  rewrite add_row_qualitative by apply length_map.
  rewrite bind_Return, IH, bind_Return.
  now destruct (qualitative_pass rules feasible _).
Qed.

(** The table is built first: with two equal column names no degree is
    computed or stored; otherwise every row is taken. *)
Lemma apply_qualitative_choice_logic_unfold (rules : list QualitativeChoiceLogic)
    (feasible : list Object) (oqv : list (string * list Z)) :
  apply_qualitative_choice_logic rules feasible oqv
  = if bool_decide (NoDup (make_qualitative_table_columns rules))
    then Return (qualitative_pass rules feasible oqv) else Raise ValueError.
Proof.
  unfold apply_qualitative_choice_logic, PrettyTable. cbv zeta.
  destruct (bool_decide _); [|reflexivity].
  rewrite bind_Return. apply qualitative_table_rows_pass.
Qed.

(** C8. The degrees are stored when the columns of the table
    (["encoding"] and the names of the rules) are pairwise different; with
    two equal columns the table is refused and nothing is stored.  Every
    entry of every stored vector is the stored form of the
    degree of its rule for a feasible object: a tier index between 1 and
    the rule's number of tiers, or 10000 in place of +∞.  When every
    rule has fewer than 10000 tiers, 10000 is strictly greater than
    every degree a rule can return, and comparing two stored vectors
    gives the outcome of comparing the degrees with +∞ as the worst
    value. *)
Theorem sentinel_stands_for_infinity
    (rules : list QualitativeChoiceLogic) (feasible : list Object) :
  ((exists out, apply_qualitative_choice_logic rules feasible [] = Return out) <->
   NoDup (make_qualitative_table_columns rules)) /\
  (forall table oqv key vec,
      apply_qualitative_choice_logic rules feasible [] = Return (table, oqv) ->
      In (key, vec) oqv ->
      exists obj,
        In obj feasible /\ key = name obj /\
        Forall2 (fun rule v =>
                   v = stored_value (QualitativeChoiceLogic_test rule obj) /\
                   ((1 <= v <= Z.of_nat (length (constraints rule)) /\
                     QualitativeChoiceLogic_test rule obj = Finite v) \/
                    (v = 10000 /\ QualitativeChoiceLogic_test rule obj = Infinite)))
                rules vec) /\
  (Forall (fun rule => Z.of_nat (length (constraints rule)) < 10000) rules ->
   (forall rule obj k,
       In rule rules -> QualitativeChoiceLogic_test rule obj = Finite k ->
       k < stored_value Infinite) /\
   (forall obj1 obj2,
       compare_degrees
         (map (fun rule => stored_value (QualitativeChoiceLogic_test rule obj1)) rules)
         (map (fun rule => stored_value (QualitativeChoiceLogic_test rule obj2)) rules)
       = Return (verdict_inf
                   (map (fun rule => QualitativeChoiceLogic_test rule obj1) rules)
                   (map (fun rule => QualitativeChoiceLogic_test rule obj2) rules)))).
Proof.
  split; [|split].
  - rewrite apply_qualitative_choice_logic_unfold.
    destruct (bool_decide_reflect (NoDup (make_qualitative_table_columns rules)))
      as [Hcols|Hcols].
    + split; [intros _; exact Hcols|intros _; eexists; reflexivity].
    + split; [intros [out Hout]; discriminate|intros Hyes; now apply Hcols in Hyes].
  - intros table oqv key vec Hrun Hin.
    rewrite apply_qualitative_choice_logic_unfold in Hrun.
    destruct (bool_decide _); [|discriminate].
    assert (Hin' : In (key, vec) (qualitative_pass rules feasible []).2).
    { injection Hrun as Hrun. now rewrite Hrun. }
    destruct (stored_entries rules feasible [] key vec Hin') as [[]|(obj & Ho & Hk & ->)].
    exists obj. split; [assumption|]. split; [assumption|].
    clear. induction rules as [|rule rules IH]; cbn [map]; constructor; [|exact IH].
    split; [reflexivity|]. apply stored_value_range.
  - intros Hsmall.
    assert (Hbelow : forall rule obj, In rule rules ->
              below_sentinel (QualitativeChoiceLogic_test rule obj)).
    { intros rule obj Hin k Hk. apply test_range in Hk.
      pose proof (proj1 (List.Forall_forall _ _) Hsmall rule Hin). cbn in *. lia. }
    split; [intros rule obj k Hin Hk; now apply (Hbelow rule obj Hin)|].
    intros obj1 obj2. unfold compare_degrees.
    rewrite satisfaction_comparison_zip by now rewrite !length_map.
    rewrite bind_Return. f_equal.
    assert (Hall : forall obj, Forall below_sentinel
              (map (fun rule => QualitativeChoiceLogic_test rule obj) rules)).
    { intros obj. apply List.Forall_forall. intros d Hd.
      apply in_map_iff in Hd as (rule & <- & Hin). now apply Hbelow. }
    destruct (stored_comparison _ _ (Hall obj1) (Hall obj2)) as [H1 H2].
    rewrite !map_map in H1, H2.
    unfold verdict_of, verdict_inf. rewrite H1, H2.
    destruct (better_somewhere _ _), (better_somewhere _ _); reflexivity.
Qed.

End StoredDegrees.

Lemma sentinel_stands_for_infinity_witness :
  compare_degrees
    (map (fun rule => stored_value
                        (QualitativeChoiceLogic_test (H := Reference.oracle) rule
                           (new_Object "o1" "01" ["small"; "red"] [-1; 2])))
         [ {| qcl_name := "big BT small IF red"; constraints := [[[1]]; [[-1]]];
              condition := Some [[2]] |} ])
    (map (fun rule => stored_value
                        (QualitativeChoiceLogic_test (H := Reference.oracle) rule
                           (new_Object "o2" "10" ["big"; "blue"] [1; -2])))
         [ {| qcl_name := "big BT small IF red"; constraints := [[[1]]; [[-1]]];
              condition := Some [[2]] |} ])
  = Return OneOverTwo.
Proof.
  destruct (sentinel_stands_for_infinity (H := Reference.oracle)
              [ {| qcl_name := "big BT small IF red"; constraints := [[[1]]; [[-1]]];
                   condition := Some [[2]] |} ] demo_objects) as (_ & _ & Hsmall).
  destruct Hsmall as [_ Hcmp].
  - constructor; [cbn; lia|constructor].
  - rewrite Hcmp. reflexivity.
Defined.

(** ** Pairwise exemplification *)

Section Exemplification.

Lemma sample2_few {A : Type} (population : list A) (draw : nat * nat) :
  (length population < 2)%nat -> sample2 population draw = Raise ValueError.
Proof.
  intros Hlen. unfold sample2.
  destruct (Nat.ltb_spec (length population) 2); [reflexivity|lia].
Qed.

Lemma sample2_distinct {A : Type} (population : list A) (draw : nat * nat) :
  (2 <= length population)%nat ->
  exists i j a b,
    i <> j /\ population !! i = Some a /\ population !! j = Some b /\
    sample2 population draw = Return (a, b).
Proof.
  intros Hlen. unfold sample2.
  destruct (Nat.ltb_spec (length population) 2); [lia|].
  set (n := length population) in *.
  set (i := (draw.1 mod n)%nat).
  set (j0 := (draw.2 mod (n - 1))%nat).
  set (j := if (j0 <? i)%nat then j0 else S j0).
  assert (Hi : (i < n)%nat) by (apply Nat.mod_upper_bound; lia).
  assert (Hj0 : (j0 < n - 1)%nat) by (apply Nat.mod_upper_bound; lia).
  assert (Hj : (j < n)%nat /\ i <> j).
  { unfold j. destruct (Nat.ltb_spec j0 i); lia. }
  destruct (lookup_lt_is_Some_2 population i Hi) as [a Ha].
  destruct (lookup_lt_is_Some_2 population j (proj1 Hj)) as [b Hb].
  exists i, j, a, b. unfold index. rewrite Ha, Hb. tauto.
Qed.

Lemma lookup_degrees_absent (vec : Object -> list Z) (l : list Object)
    (n1 n2 : string) (acc : list Z * list Z) :
  n1 ∉ map name l -> n2 ∉ map name l ->
  lookup_degrees (map (fun obj => (name obj, vec obj)) l) n1 n2 acc = acc.
Proof.
  revert acc. induction l as [|o l IH]; intros acc H1 H2; [reflexivity|].
  cbn [map] in H1, H2. apply not_elem_of_cons in H1 as [H1 H1'].
  apply not_elem_of_cons in H2 as [H2 H2'].
  cbn [map lookup_degrees].
  destruct (String.eqb_spec (name o) n1); [congruence|].
  destruct (String.eqb_spec (name o) n2); [congruence|]. now apply IH.
Qed.

Lemma lookup_degrees_second (vec : Object -> list Z) (l : list Object)
    (n1 : string) (o2 : Object) (acc : list Z * list Z) :
  NoDup (map name l) -> n1 ∉ map name l -> o2 ∈ l ->
  lookup_degrees (map (fun obj => (name obj, vec obj)) l) n1 (name o2) acc
  = (acc.1, vec o2).
Proof.
  revert acc. induction l as [|o l IH]; intros acc Hnd H1 Hin.
  - now apply elem_of_nil in Hin.
  - cbn [map] in Hnd, H1. apply NoDup_cons in Hnd as [Hfresh Hnd].
    apply not_elem_of_cons in H1 as [H1 H1'].
    cbn [map lookup_degrees].
    destruct (String.eqb_spec (name o) n1); [congruence|].
    apply elem_of_cons in Hin as [->|Hin].
    + rewrite String.eqb_refl. now rewrite lookup_degrees_absent.
    + destruct (String.eqb_spec (name o) (name o2)) as [Heq|Hne].
      * exfalso. apply Hfresh. rewrite Heq. now apply list_elem_of_fmap_2.
      * now apply IH.
Qed.

Lemma lookup_degrees_first (vec : Object -> list Z) (l : list Object)
    (o1 : Object) (n2 : string) (acc : list Z * list Z) :
  NoDup (map name l) -> n2 ∉ map name l -> o1 ∈ l ->
  lookup_degrees (map (fun obj => (name obj, vec obj)) l) (name o1) n2 acc
  = (vec o1, acc.2).
Proof.
  revert acc. induction l as [|o l IH]; intros acc Hnd H2 Hin.
  - now apply elem_of_nil in Hin.
  - cbn [map] in Hnd, H2. apply NoDup_cons in Hnd as [Hfresh Hnd].
    apply not_elem_of_cons in H2 as [H2 H2'].
    cbn [map lookup_degrees].
    apply elem_of_cons in Hin as [->|Hin].
    + rewrite String.eqb_refl. now rewrite lookup_degrees_absent.
    + destruct (String.eqb_spec (name o) (name o1)) as [Heq|Hne].
      * exfalso. apply Hfresh. rewrite Heq. now apply list_elem_of_fmap_2.
      * destruct (String.eqb_spec (name o) n2); [congruence|]. now apply IH.
Qed.

Lemma lookup_degrees_both (vec : Object -> list Z) (l : list Object)
    (o1 o2 : Object) (acc : list Z * list Z) :
  NoDup (map name l) -> o1 ∈ l -> o2 ∈ l -> name o1 <> name o2 ->
  lookup_degrees (map (fun obj => (name obj, vec obj)) l) (name o1) (name o2) acc
  = (vec o1, vec o2).
Proof.
  revert acc. induction l as [|o l IH]; intros acc Hnd Hin1 Hin2 Hne.
  - now apply elem_of_nil in Hin1.
  - cbn [map] in Hnd. apply NoDup_cons in Hnd as [Hfresh Hnd].
    assert (Habs : forall o', o' ∈ l -> name o <> name o').
    { intros o' Ho' Heq. apply Hfresh. rewrite Heq. now apply list_elem_of_fmap_2. }
    cbn [map lookup_degrees].
    apply elem_of_cons in Hin1 as [E1|Hin1]; apply elem_of_cons in Hin2 as [E2|Hin2].
    + congruence.
    + subst o1. rewrite String.eqb_refl. now rewrite lookup_degrees_second.
    + subst o2. destruct (String.eqb_spec (name o) (name o1)); [congruence|].
      rewrite String.eqb_refl. now rewrite lookup_degrees_first.
    + destruct (String.eqb_spec (name o) (name o1)) as [Heq|_];
        [now apply Habs in Heq|].
      destruct (String.eqb_spec (name o) (name o2)) as [Heq|_];
        [now apply Habs in Heq|].
      now apply IH.
Qed.

(** C10, as the code has it.  With fewer than two feasible objects both
    exemplifications raise the sampler's [ValueError] and print nothing;
    with at least two, the objects compared are the members at two
    different positions of the feasible list: the penalty
    exemplification prints its two lines about them, and the qualitative
    one either prints its two lines about them or stops on a missing
    degree. *)
Theorem exemplification_samples_two (self : PreferenceProblem) (draw : nat * nat) :
  ((length (feasible_objects self) < 2)%nat ->
     penalty_exemplification self draw = Raise ValueError /\
     qualitative_exemplification self draw = Raise ValueError) /\
  ((2 <= length (feasible_objects self))%nat ->
     exists i j object_one object_two,
       i <> j /\
       feasible_objects self !! i = Some object_one /\
       feasible_objects self !! j = Some object_two /\
       (exists line,
           penalty_exemplification self draw
           = Return [sampled_line object_one object_two; line]) /\
       (qualitative_exemplification self draw = Raise IndexError \/
        exists v line,
           qualitative_exemplification self draw
           = Return (v, [sampled_line object_one object_two; line])) /\
       (degrees_recorded self ->
        exists v line,
           qualitative_exemplification self draw
           = Return (v, [sampled_line object_one object_two; line]))).
Proof.
  split.
  - intros Hlen. unfold penalty_exemplification, qualitative_exemplification.
    rewrite (sample2_few _ draw Hlen). split; reflexivity.
  - intros Hlen.
    destruct (sample2_distinct (feasible_objects self) draw Hlen)
      as (i & j & a & b & Hij & Ha & Hb & Hs).
    exists i, j, a, b. repeat split; try assumption.
    + unfold penalty_exemplification. rewrite Hs, bind_Return. cbn beta iota zeta.
      destruct (get_total_penalty b <? get_total_penalty a); [eauto|].
      destruct (get_total_penalty a <? get_total_penalty b); eauto.
    + unfold qualitative_exemplification. rewrite Hs, bind_Return. cbn beta iota zeta.
      destruct (lookup_degrees _ _ _ _) as [d1 d2].
      unfold compare_degrees.
      destruct (satisfaction_comparison d1 d2) as [cmp|e] eqn:Hc.
      * right. rewrite !bind_Return. eauto.
      * left. cbn. f_equal.
        clear -Hc. unfold satisfaction_comparison in Hc.
        revert Hc. generalize 0%nat. induction d1 as [|x d1 IH]; intros k Hc;
          [discriminate|].
        cbn [satisfaction_comparison_from] in Hc. unfold index in Hc.
        destruct (d2 !! k); [|now injection Hc].
        rewrite bind_Return in Hc.
        destruct (satisfaction_comparison_from d1 d2 (S k)) as [r|e0] eqn:Hr;
          [discriminate|].
        change (Raise (A := list Z) e0 = Raise e) in Hc. injection Hc as ->.
        exact (IH (S k) Hr).
    + intros (Hnd & vec & n & Hvec & Hoqv).
      unfold qualitative_exemplification. rewrite Hs, bind_Return. cbn beta iota zeta.
      rewrite Hoqv.
      assert (Hne : name a <> name b).
      { intros Heq. apply Hij.
        apply (NoDup_lookup (map name (feasible_objects self)) i j (name a) Hnd).
        - change (map name (feasible_objects self)) with (name <$> feasible_objects self).
          now rewrite list_lookup_fmap, Ha.
        - change (map name (feasible_objects self)) with (name <$> feasible_objects self).
          now rewrite list_lookup_fmap, Hb, Heq. }
      rewrite (lookup_degrees_both vec _ a b ([], []) Hnd
                 (list_elem_of_lookup_2 _ _ _ Ha) (list_elem_of_lookup_2 _ _ _ Hb) Hne).
      destruct (compare_degrees_verdict (vec a) (vec b)) as (v & -> & _).
      { now rewrite !Hvec. }
      rewrite bind_Return. eauto.
Qed.

(** The constructor records the degrees that way when the objects have
    different names. *)
Lemma dict_set_fresh {V : Type} (d : list (string * V)) (key : string) (value : V) :
  key ∉ map fst d -> dict_set d key value = d ++ [(key, value)].
Proof.
  induction d as [|[k v] d IH]; intros Hfresh; [reflexivity|].
  cbn [map fst] in Hfresh. apply not_elem_of_cons in Hfresh as [Hne Hfresh].
  cbn [dict_set]. destruct (String.eqb_spec k key); [congruence|].
  now rewrite IH.
Qed.

Lemma stored_in_order `{SatOracle} (rules : list QualitativeChoiceLogic)
    (feasible : list Object) (oqv0 : list (string * list Z)) :
  NoDup (map name feasible) ->
  (forall obj, obj ∈ feasible -> name obj ∉ map fst oqv0) ->
  (qualitative_pass rules feasible oqv0).2
  = oqv0 ++ map (fun obj =>
                   (name obj,
                    map (fun rule => stored_value (QualitativeChoiceLogic_test rule obj))
                        rules)) feasible.
Proof.
  revert oqv0. induction feasible as [|obj feasible IH]; intros oqv0 Hnd Hfresh.
  - cbn. now rewrite app_nil_r.
  - cbn [map] in Hnd. apply NoDup_cons in Hnd as [Hobj Hnd].
    cbn [qualitative_pass].
    destruct (qualitative_pass rules feasible _) as [rows oqv'] eqn:E.
    cbn [snd]. change oqv' with (rows, oqv').2. rewrite <- E.
    rewrite dict_set_fresh by (apply Hfresh; now left).
    rewrite IH.
    + rewrite <- app_assoc. cbn [map app]. now rewrite map_map.
    + exact Hnd.
    + intros o Ho. rewrite map_app. cbn [map fst]. intros Hin.
      apply elem_of_app in Hin as [Hin|Hin].
      * revert Hin. apply Hfresh. now right.
      * apply list_elem_of_singleton in Hin. apply Hobj. rewrite <- Hin.
        now apply list_elem_of_fmap_2.
Qed.

Lemma apply_rules_name `{SatOracle} `{PyBuiltins} (rules : list PenaltyLogic)
    (obj obj' : Object) (ps : list pyval) :
  apply_rules rules obj = Return (ps, obj') -> name obj' = name obj.
Proof.
  revert obj ps. induction rules as [|rule rules IH]; intros obj ps Hr.
  - now injection Hr as _ <-.
  - cbn [apply_rules] in Hr. unfold PenaltyLogic_test, add_penalty in Hr.
    destruct (solve _); cbn in Hr.
    + destruct (apply_rules rules _) as [[ps' o']|e] eqn:E; [|discriminate].
      injection Hr as _ <-. now rewrite (IH _ _ E).
    + destruct (py_int (penalty rule)) as [v|e]; [|discriminate]. cbn in Hr.
      destruct (apply_rules rules _) as [[ps' o']|e] eqn:E; [|discriminate].
      injection Hr as _ <-. now rewrite (IH _ _ E).
Qed.

Lemma penalty_pass_names `{SatOracle} `{PyBuiltins} (rules : list PenaltyLogic)
    (feasible feasible' : list Object) (table : list penalty_row) :
  penalty_pass rules feasible = Return (table, feasible') ->
  map name feasible' = map name feasible.
Proof.
  revert feasible' table. induction feasible as [|obj feasible IH];
    intros feasible' table Hr.
  - now injection Hr as _ <-.
  - cbn [penalty_pass] in Hr.
    destruct (apply_rules rules obj) as [[ps obj']|e] eqn:E; [|discriminate].
    rewrite bind_Return in Hr. cbn beta iota in Hr.
    destruct (penalty_pass rules feasible) as [[rows objs']|e] eqn:E';
      [|discriminate].
    injection Hr as _ <-. cbn [map].
    now rewrite (apply_rules_name _ _ _ _ E), (IH _ _ eq_refl).
Qed.

Lemma apply_penalty_logic_names `{SatOracle} `{PyBuiltins} (rules : list PenaltyLogic)
    (feasible feasible' : list Object) (table : list penalty_row) :
  apply_penalty_logic rules feasible = Return (table, feasible') ->
  map name feasible' = map name feasible.
Proof.
  rewrite apply_penalty_logic_unfold. destruct (bool_decide _); [|discriminate].
  apply penalty_pass_names.
Qed.

Lemma constructor_stores `{SatOracle} `{PyBuiltins}
    (objs : list Object) (hard : formula)
    (pls : list PenaltyLogic) (qcls : list QualitativeChoiceLogic)
    (self : PreferenceProblem) :
  new_PreferenceProblem objs hard pls qcls = Return self ->
  exists ptable,
    apply_penalty_logic pls (check_feasibility objs hard)
    = Return (ptable, feasible_objects self) /\
    penalty_logics self = pls /\ qualitative_logics self = qcls /\
    object_qualitative_values self
    = (qualitative_pass qcls (feasible_objects self) []).2.
Proof.
  intros Hnew. unfold new_PreferenceProblem in Hnew.
  destruct (apply_penalty_logic pls (check_feasibility objs hard))
    as [[ptable feasible']|e] eqn:E; [|discriminate].
  rewrite bind_Return in Hnew. cbn beta iota in Hnew.
  rewrite apply_qualitative_choice_logic_unfold in Hnew.
  destruct (bool_decide _); [|discriminate].
  rewrite bind_Return in Hnew.
  destruct (qualitative_pass qcls feasible' []) as [qtable oqv] eqn:Eq.
  injection Hnew as <-. exists ptable.
  cbn [feasible_objects penalty_logics qualitative_logics object_qualitative_values].
  rewrite Eq. auto.
Qed.

Lemma filter_names_NoDup (f : Object -> bool) (l : list Object) :
  NoDup (map name l) -> NoDup (map name (List.filter f l)).
Proof.
  induction l as [|o l IH]; intros Hnd; [exact Hnd|].
  cbn [map] in Hnd. apply NoDup_cons in Hnd as [Ho Hnd].
  cbn [List.filter]. destruct (f o); [|now apply IH].
  cbn [map]. apply NoDup_cons. split; [|now apply IH].
  intros Hin. apply Ho. apply list_elem_of_fmap in Hin as (o' & -> & Hin).
  apply list_elem_of_fmap_2. apply list_elem_of_In in Hin.
  apply filter_In in Hin as [Hin _]. now apply list_elem_of_In.
Qed.

Lemma constructor_records_degrees `{SatOracle} `{PyBuiltins}
    (objs : list Object) (hard : formula)
    (pls : list PenaltyLogic) (qcls : list QualitativeChoiceLogic)
    (self : PreferenceProblem) :
  NoDup (map name objs) ->
  new_PreferenceProblem objs hard pls qcls = Return self ->
  degrees_recorded self.
Proof.
  intros Hnd Hnew.
  destruct (constructor_stores _ _ _ _ _ Hnew) as (ptable & E & _ & _ & Hstored).
  assert (Hnames : NoDup (map name (feasible_objects self))).
  { rewrite (apply_penalty_logic_names _ _ _ _ E). now apply filter_names_NoDup. }
  split; [exact Hnames|].
  exists (fun obj => map (fun rule => stored_value (QualitativeChoiceLogic_test rule obj)) qcls),
         (length qcls).
  split; [intros obj; apply length_map|].
  rewrite Hstored. apply (stored_in_order qcls _ [] Hnames).
  intros obj _ Hin. now apply elem_of_nil in Hin.
Qed.

(** Every two positions of the population are the outcome of some
    draw. *)
Lemma sample2_reaches {A : Type} (population : list A) (i j : nat) (a b : A) :
  i <> j -> population !! i = Some a -> population !! j = Some b ->
  exists draw, sample2 population draw = Return (a, b).
Proof.
  intros Hij Ha Hb.
  pose proof (lookup_lt_Some _ _ _ Ha) as Hi. pose proof (lookup_lt_Some _ _ _ Hb) as Hj.
  exists (i, if (j <? i)%nat then j else (j - 1)%nat). unfold sample2. cbn [fst snd].
  destruct (Nat.ltb_spec (length population) 2); [lia|].
  rewrite (Nat.mod_small i) by lia.
  destruct (Nat.ltb_spec j i) as [Hlt|Hge].
  - rewrite (Nat.mod_small j) by lia. destruct (Nat.ltb_spec j i); [|lia].
    unfold index. rewrite Ha, Hb. reflexivity.
  - rewrite (Nat.mod_small (j - 1)) by lia. destruct (Nat.ltb_spec (j - 1) i); [lia|].
    replace (S (j - 1)) with j by lia. unfold index. rewrite Ha, Hb. reflexivity.
Qed.

(** The report on two sampled objects whose vectors are recorded. *)
Lemma sampled_verdict (self : PreferenceProblem) (vec : Object -> list Z) (n : nat)
    (draw : nat * nat) (i j : nat) (a b : Object) :
  NoDup (map name (feasible_objects self)) ->
  object_qualitative_values self
  = map (fun obj => (name obj, vec obj)) (feasible_objects self) ->
  Forall (fun obj => length (vec obj) = n) (feasible_objects self) ->
  i <> j ->
  feasible_objects self !! i = Some a ->
  feasible_objects self !! j = Some b ->
  sample2 (feasible_objects self) draw = Return (a, b) ->
  exists v,
    qualitative_exemplification self draw
    = Return (v, [sampled_line a b; verdict_line v a b]) /\
    verdict_for v (vec a) (vec b).
Proof.
  intros Hnd Hoqv Hvec Hij Ha Hb Hs.
  unfold qualitative_exemplification. rewrite Hs, bind_Return. cbn beta iota zeta.
  rewrite Hoqv.
  assert (Hne : name a <> name b).
  { intros Heq. apply Hij.
    apply (NoDup_lookup (map name (feasible_objects self)) i j (name a) Hnd).
    - change (map name (feasible_objects self)) with (name <$> feasible_objects self).
      now rewrite list_lookup_fmap, Ha.
    - change (map name (feasible_objects self)) with (name <$> feasible_objects self).
      now rewrite list_lookup_fmap, Hb, Heq. }
  rewrite (lookup_degrees_both vec _ a b ([], []) Hnd
             (list_elem_of_lookup_2 _ _ _ Ha) (list_elem_of_lookup_2 _ _ _ Hb) Hne).
  destruct (compare_degrees_verdict (vec a) (vec b)) as (v & Hv & Hfor).
  { rewrite (Forall_lookup_1 _ _ _ _ Hvec Ha), (Forall_lookup_1 _ _ _ _ Hvec Hb).
    reflexivity. }
  rewrite Hv, bind_Return. exists v. split; [|exact Hfor].
  destruct v; reflexivity.
Qed.

(** C6. For degree vectors of equal length the comparison returns; the
    first object is strictly preferred exactly when its degree is
    strictly lower at some index and strictly higher at none, the pair
    is incomparable exactly when each is strictly lower somewhere, and
    equal exactly when no index differs; [1; 3] against [3; 1] is
    incomparable.  Over stored vectors of that length, a vector is
    optimal exactly when no stored vector is strictly preferred to it.
    In a problem whose feasible objects have different names and whose
    dictionary holds their vectors [vec], all of one length: whatever
    the draw, the qualitative exemplification reports on the feasible
    objects at two different positions, and its verdict and its second
    line are those that the comparison of their two vectors calls for;
    and every two feasible objects at different positions are reported
    on in that way for some draw. *)
Theorem qualitative_dominance (a b : list Z) (oqv : list (string * list Z))
    (self : PreferenceProblem) (vec : Object -> list Z) (n : nat) :
  length a = length b ->
  (forall key d2, In (key, d2) oqv -> length d2 = length a) ->
  (exists v,
      compare_degrees a b = Return v /\
      (v = OneOverTwo <-> strictly_preferred a b) /\
      (v = TwoOverOne <-> strictly_preferred b a) /\
      (v = Incomparable <-> lower_somewhere a b /\ lower_somewhere b a) /\
      (v = Equal <-> a = b)) /\
  compare_degrees [1; 3] [3; 1] = Return Incomparable /\
  (exists opt,
      is_optimal_qualitative_object oqv a = Return opt /\
      (opt = true <-> forall key d2, In (key, d2) oqv -> ~ strictly_preferred d2 a)) /\
  (NoDup (map name (feasible_objects self)) ->
   object_qualitative_values self
   = map (fun obj => (name obj, vec obj)) (feasible_objects self) ->
   Forall (fun obj => length (vec obj) = n) (feasible_objects self) ->
   (forall draw,
       (2 <= length (feasible_objects self))%nat ->
       exists i j object_one object_two v,
         i <> j /\
         feasible_objects self !! i = Some object_one /\
         feasible_objects self !! j = Some object_two /\
         qualitative_exemplification self draw
         = Return (v, [sampled_line object_one object_two;
                       verdict_line v object_one object_two]) /\
         verdict_for v (vec object_one) (vec object_two)) /\
   (forall i j object_one object_two,
       i <> j ->
       feasible_objects self !! i = Some object_one ->
       feasible_objects self !! j = Some object_two ->
       exists draw v,
         qualitative_exemplification self draw
         = Return (v, [sampled_line object_one object_two;
                       verdict_line v object_one object_two]) /\
         verdict_for v (vec object_one) (vec object_two))).
Proof.
  intros Hlen Hoqv. split; [now apply compare_degrees_verdict|].
  split; [reflexivity|]. split; [now apply is_optimal_spec|].
  intros Hnd Hstored Hvec. split.
  - intros draw Htwo.
    destruct (sample2_distinct (feasible_objects self) draw Htwo)
      as (i & j & o1 & o2 & Hij & H1 & H2 & Hs).
    destruct (sampled_verdict self vec n draw i j o1 o2 Hnd Hstored Hvec Hij H1 H2 Hs)
      as (v & Hrun & Hfor).
    now exists i, j, o1, o2, v.
  - intros i j o1 o2 Hij H1 H2.
    destruct (sample2_reaches (feasible_objects self) i j o1 o2 Hij H1 H2) as [draw Hs].
    destruct (sampled_verdict self vec n draw i j o1 o2 Hnd Hstored Hvec Hij H1 H2 Hs)
      as (v & Hrun & Hfor).
    now exists draw, v.
Qed.

End Exemplification.

Lemma qualitative_dominance_witness :
  (exists v, compare_degrees [1; 2] [1; 3] = Return v /\
             (v = OneOverTwo <-> strictly_preferred [1; 2] [1; 3])) /\
  (exists opt,
      is_optimal_qualitative_object [("o1", [1; 2]); ("o2", [2; 1]); ("o3", [2; 2])] [1; 2]
      = Return opt) /\
  (exists i j object_one object_two v,
      i <> j /\
      demo_objects !! i = Some object_one /\
      demo_objects !! j = Some object_two /\
      qualitative_exemplification
        {| hard_constraints := []; penalty_logics := []; qualitative_logics := [];
           object_qualitative_values :=
             map (fun obj => (name obj, integers obj)) demo_objects;
           feasible_objects := demo_objects;
           penalty_logic_table := []; qualitative_choice_table := [] |} (1, 5)%nat
      = Return (v, [sampled_line object_one object_two;
                    verdict_line v object_one object_two]) /\
      verdict_for v (integers object_one) (integers object_two)).
Proof.
  destruct (qualitative_dominance [1; 2] [1; 3]
              [("o1", [1; 2]); ("o2", [2; 1]); ("o3", [2; 2])]
              {| hard_constraints := []; penalty_logics := []; qualitative_logics := [];
                 object_qualitative_values :=
                   map (fun obj => (name obj, integers obj)) demo_objects;
                 feasible_objects := demo_objects;
                 penalty_logic_table := []; qualitative_choice_table := [] |}
              integers 2)
    as ((v & Hv & Hone & _) & _ & (opt & Hopt & _) & Hsampled).
  - reflexivity.
  - intros key d2 [Heq|[Heq|[Heq|[]]]]; injection Heq as <- <-; reflexivity.
  - split; [exists v; now split|]. split; [now exists opt|].
    destruct Hsampled as [Hdraw _].
    + apply (bool_decide_unpack _). reflexivity.
    + reflexivity.
    + repeat constructor.
    + apply (Hdraw (1, 5)%nat). cbn. lia.
Defined.

Lemma exemplification_samples_two_witness :
  exists i j object_one object_two line,
    i <> j /\
    demo_objects !! i = Some object_one /\
    demo_objects !! j = Some object_two /\
    penalty_exemplification
      {| hard_constraints := []; penalty_logics := []; qualitative_logics := [];
         object_qualitative_values := []; feasible_objects := demo_objects;
         penalty_logic_table := []; qualitative_choice_table := [] |} (1, 5)%nat
    = Return [sampled_line object_one object_two; line].
Proof.
  destruct (exemplification_samples_two
      {| hard_constraints := []; penalty_logics := []; qualitative_logics := [];
         object_qualitative_values := []; feasible_objects := demo_objects;
         penalty_logic_table := []; qualitative_choice_table := [] |} (1, 5)%nat)
    as [_ Htwo].
  destruct Htwo as (i & j & o1 & o2 & Hij & Hi & Hj & (line & Hline) & _).
  - cbn. lia.
  - now exists i, j, o1, o2, line.
Defined.

(** C10, as stated, fails: with one feasible object both exemplifications
    end in the sampler's [ValueError], not in a report. *)
Lemma exemplification_raises_on_one_object :
  (self ← one_feasible_problem; Return (map name (feasible_objects self))) = Return ["o1"] /\
  (self ← one_feasible_problem; penalty_exemplification self (0, 0)%nat) = Raise ValueError /\
  (self ← one_feasible_problem; qualitative_exemplification self (0, 0)%nat) = Raise ValueError.
Proof. repeat split; reflexivity. Qed.

(** ** The scenarios of the specification *)

Section Scenarios.
Import Reference.

(** Rule ["A BT B IF C"]: an object with B and C but not A has degree 2;
    without C it has degree +∞, whatever holds of A and B. *)
Example degree_of_second_tier :
  (rule ← read_qualitative_logic_line demo_dh "big BT small IF red";
   Return (map (QualitativeChoiceLogic_test rule) demo_objects))
  = Return [Infinite; Finite 2; Infinite; Finite 1].
Proof. reflexivity. Qed.

(** An unconditional rule no tier of which is true gives +∞, stored as
    10000. *)
Example degree_of_no_tier :
  QualitativeChoiceLogic_test
    {| qcl_name := "big AND small IF"; constraints := [[[1]; [-1]]]; condition := None |}
    (new_Object "o3" "11" ["big"; "red"] [1; 2]) = Infinite /\
  stored_value Infinite = 10000.
Proof. split; reflexivity. Qed.

(** One attribute, hard constraint ["big"], penalty rule ["big", 5]: the
    table has the one row of the object [big], with penalty 0. *)
Example one_feasible_table :
  (self ← one_feasible_problem; Return (penalty_logic_table self))
  = Return [("o1", [PyInt 0], 0)].
Proof. reflexivity. Qed.

(** The hard constraints as read from a file: the compiled lines and one
    clause [[-i; i]] per attribute. *)
Example hard_constraints_with_base :
  read_constraints demo_dh ["big OR red"] = Return [[1; 2]; [-1; 1]; [-2; 2]].
Proof. reflexivity. Qed.

(** A label registered with a space inside is not a token of the formula
    language: its text is read as a marker followed by a label. *)
Example label_with_space :
  (dh ← read_attributes ["Size: very big, small"] new_DataHandler;
   make_constraints dh "very big") = Raise (KeyError "big").
Proof. reflexivity. Qed.

(** Two penalty lines with one formula text, and a penalty rule whose
    formula text is a column of the table: the table is refused and no
    problem is built. *)
Example equal_rule_names_refused :
  new_preference_problem ["size: big, small"] ["big"] ["big, 5"; "big, 3"]
                         ["big BT small IF"] = Raise ValueError /\
  new_preference_problem ["kind: encoding, plain"] ["plain"] ["encoding, 2"]
                         ["plain BT encoding IF"] = Raise ValueError.
Proof. split; vm_compute; reflexivity. Qed.

(** Two equal qualitative lines: the second table is refused. *)
Example equal_qualitative_lines_refused :
  new_preference_problem ["size: big, small"] ["big"] ["big, 5"]
                         ["big BT small IF"; "big BT small IF"] = Raise ValueError.
Proof. vm_compute. reflexivity. Qed.

End Scenarios.

(** ** The object generator *)

Section Generator.

Lemma string_append_length (s t : string) :
  String.length (s +:+ t) = (String.length s + String.length t)%nat.
Proof.
  induction s as [|c s IH]; [reflexivity|].
  rewrite append_cons. cbn [String.length]. now rewrite IH.
Qed.

Lemma string_append_assoc (s t u : string) : (s +:+ t) +:+ u = s +:+ t +:+ u.
Proof.
  induction s as [|c s IH]; [reflexivity|].
  rewrite !append_cons. now rewrite IH.
Qed.

Lemma zeros_snoc (n : nat) : zeros n +:+ "0" = zeros (S n).
Proof.
  induction n as [|n IH]; [reflexivity|].
  cbn [zeros]. rewrite append_cons, IH. reflexivity.
Qed.

Lemma zero_pad_snoc (n : nat) (s : string) (c : ascii) :
  zero_pad (S n) (s +:+ String c "") = zero_pad n s +:+ String c "".
Proof.
  unfold zero_pad. rewrite string_append_length. cbn [String.length].
  replace (S n - (String.length s + 1))%nat with (n - String.length s)%nat by lia.
  now rewrite string_append_assoc.
Qed.

Lemma string_of_bits_snoc (bs : list bool) (b : bool) :
  string_of_bits (bs ++ [b])
  = string_of_bits bs +:+ String (if b then "1" else "0")%char "".
Proof.
  induction bs as [|a bs IH]; [reflexivity|].
  cbn [app string_of_bits]. now rewrite IH, append_cons.
Qed.

Lemma string_of_bits_zero (n : nat) : string_of_bits (bit_list n 0) = zeros n.
Proof.
  induction n as [|n IH]; [reflexivity|].
  cbn [bit_list]. change (Z.div2 0) with 0. change (Z.odd 0) with false.
  now rewrite string_of_bits_snoc, IH, zeros_snoc.
Qed.

Lemma zero_pad_bin_pos (p : positive) (n : nat) :
  Zpos p < 2 ^ Z.of_nat n ->
  zero_pad n (bin_pos p) = string_of_bits (bit_list n (Zpos p)).
Proof.
  revert n. induction p as [q IH|q IH|]; intros n Hlt;
    (destruct n as [|m]; [cbn in Hlt; lia|]);
    rewrite Nat2Z.inj_succ, Z.pow_succ_r in Hlt by lia.
  - cbn [bin_pos bit_list]. rewrite zero_pad_snoc, string_of_bits_snoc.
    change (Z.div2 (Zpos q~1)) with (Zpos q). change (Z.odd (Zpos q~1)) with true.
    rewrite IH by lia. reflexivity.
  - cbn [bin_pos bit_list]. rewrite zero_pad_snoc, string_of_bits_snoc.
    change (Z.div2 (Zpos q~0)) with (Zpos q). change (Z.odd (Zpos q~0)) with false.
    rewrite IH by lia. reflexivity.
  - cbn [bin_pos bit_list]. change (Z.div2 1) with 0. change (Z.odd 1) with true.
    rewrite string_of_bits_snoc, string_of_bits_zero.
    unfold zero_pad. cbn [String.length].
    replace (S m - 1)%nat with m by lia. reflexivity.
Qed.

(** Within its width, the encoding is the text of the bits. *)
Lemma encode_string_bits (k : Z) (n : nat) :
  (1 <= n)%nat -> 0 <= k < 2 ^ Z.of_nat n ->
  encode_string k n = string_of_bits (bit_list n k).
Proof.
  intros Hn [H0 Hlt]. destruct k as [|p|p]; [| |lia].
  - cbn [encode_string]. rewrite string_of_bits_zero.
    destruct n as [|m]; [lia|]. unfold zero_pad. cbn [String.length].
    replace (S m - 1)%nat with m by lia. apply zeros_snoc.
  - now apply zero_pad_bin_pos.
Qed.

Lemma bit_list_length (n : nat) (k : Z) : length (bit_list n k) = n.
Proof.
  revert k. induction n as [|n IH]; intros k; [reflexivity|].
  cbn [bit_list]. rewrite length_app, IH. cbn. lia.
Qed.

Lemma bit_list_testbit (n : nat) (k : Z) (p : nat) :
  (p < n)%nat ->
  bit_list n k !! p = Some (Z.testbit k (Z.of_nat (n - 1 - p))).
Proof.
  revert k p. induction n as [|n IH]; intros k p Hp; [lia|].
  cbn [bit_list]. destruct (decide (p < n)%nat) as [Hlt|Hge].
  - rewrite lookup_app_l by now rewrite bit_list_length.
    rewrite IH by assumption. f_equal.
    replace (Z.of_nat (S n - 1 - p)) with (Z.succ (Z.of_nat (n - 1 - p))) by lia.
    rewrite Z.div2_spec, Z.shiftr_spec by lia. now rewrite Z.add_1_r.
  - assert (p = n) as -> by lia.
    rewrite lookup_app_r by (rewrite bit_list_length; lia).
    rewrite bit_list_length, Nat.sub_diag. cbn [lookup list_lookup].
    replace (S n - 1 - n)%nat with 0%nat by lia. now rewrite Z.bit0_odd.
Qed.

Lemma bit_list_inj (n : nat) (k1 k2 : Z) :
  0 <= k1 < 2 ^ Z.of_nat n -> 0 <= k2 < 2 ^ Z.of_nat n ->
  bit_list n k1 = bit_list n k2 -> k1 = k2.
Proof.
  revert k1 k2. induction n as [|n IH]; intros k1 k2 H1 H2 Heq.
  - cbn in H1, H2. lia.
  - rewrite Nat2Z.inj_succ, Z.pow_succ_r in H1, H2 by lia.
    cbn [bit_list] in Heq. apply app_inj_tail in Heq as [Hhi Hlo].
    pose proof (Z.div2_odd k1) as E1. pose proof (Z.div2_odd k2) as E2.
    assert (Hd : Z.div2 k1 = Z.div2 k2).
    { apply IH; [| |exact Hhi]; rewrite Z.div2_div;
        (split; [apply Z.div_pos; lia|apply Z.div_lt_upper_bound; lia]). }
    rewrite E1, E2, Hd, Hlo. reflexivity.
Qed.

Lemma signed_literals_lookup (bs : list bool) (start : Z) (p : nat) :
  signed_literals bs start !! p
  = (fun b : bool => if b then start + Z.of_nat p else - (start + Z.of_nat p)) <$> bs !! p.
Proof.
  revert start p. induction bs as [|b bs IH]; intros start p; [reflexivity|].
  destruct p as [|p]; cbn [signed_literals lookup list_lookup].
  - cbn. now rewrite Z.add_0_r.
  - rewrite IH. destruct (bs !! p) as [c|]; [|reflexivity]. cbn.
    replace (start + 1 + Z.of_nat p) with (start + Z.of_nat (S p)) by lia. reflexivity.
Qed.

Lemma signed_literals_length (bs : list bool) (start : Z) :
  length (signed_literals bs start) = length bs.
Proof.
  revert start. induction bs as [|b bs IH]; intros start; [reflexivity|].
  cbn. now rewrite IH.
Qed.

Lemma signed_literals_inj (bs1 bs2 : list bool) (start : Z) :
  1 <= start -> length bs1 = length bs2 ->
  signed_literals bs1 start = signed_literals bs2 start -> bs1 = bs2.
Proof.
  revert bs2 start. induction bs1 as [|a bs1 IH]; intros bs2 start Hs Hlen Heq;
    destruct bs2 as [|b bs2]; try discriminate; [reflexivity|].
  cbn in Heq, Hlen. injection Heq as Hhd Htl. f_equal.
  - destruct a, b; try reflexivity; lia.
  - apply (IH bs2 (start + 1)); [lia|lia|exact Htl].
Qed.

Lemma string_of_bits_length (bs : list bool) :
  String.length (string_of_bits bs) = length bs.
Proof. induction bs as [|b bs IH]; [reflexivity|]. cbn. now rewrite IH. Qed.

Lemma string_of_bits_get (bs : list bool) (p : nat) :
  String.get p (string_of_bits bs)
  = (fun b : bool => if b then "1" else "0")%char <$> bs !! p.
Proof.
  revert p. induction bs as [|b bs IH]; intros p; [now destruct p|].
  destruct p as [|p]; [reflexivity|]. cbn [string_of_bits String.get]. apply IH.
Qed.

Lemma chosen_labels_length (attrs : list (list string)) (bs : list bool) :
  length attrs = length bs -> length (chosen_labels attrs bs) = length bs.
Proof.
  revert bs. induction attrs as [|item attrs IH]; intros bs Hlen;
    destruct bs as [|b bs]; try discriminate; [reflexivity|].
  cbn in *. rewrite IH; lia.
Qed.

Lemma chosen_labels_lookup (attrs : list (list string)) (bs : list bool)
    (p : nat) (item : list string) (b : bool) :
  attrs !! p = Some item -> bs !! p = Some b ->
  chosen_labels attrs bs !! p = Some (default "" (item !! (if b then 0%nat else 1%nat))).
Proof.
  revert bs p. induction attrs as [|it attrs IH]; intros bs p Hi Hb; [discriminate|].
  destruct bs as [|c bs]; [discriminate|]. destruct p as [|p].
  - injection Hi as ->. injection Hb as ->. reflexivity.
  - cbn [chosen_labels lookup list_lookup]. now apply IH.
Qed.

Lemma index_Some {A : Type} (xs : list A) (i : nat) (x : A) :
  xs !! i = Some x -> index xs i = Return x.
Proof. intros Hx. unfold index. now rewrite Hx. Qed.

(** The loop over the characters of the encoding, for a text of bits
    that does not run past the attributes. *)
Lemma object_fields_bits (attrs : list (list string)) (bs : list bool)
    (idx : nat) (integer : Z) (vals : list string) (ints : list Z) :
  Forall (fun item => (2 <= length item)%nat) attrs ->
  (idx + length bs <= length attrs)%nat ->
  object_fields attrs (string_of_bits bs) idx integer vals ints
  = Return (vals ++ chosen_labels (drop idx attrs) bs,
            ints ++ signed_literals bs integer).
Proof.
  intros Htwo. revert idx integer vals ints.
  induction bs as [|b bs IH]; intros idx integer vals ints Hlen.
  - cbn [string_of_bits object_fields signed_literals].
    destruct (drop idx attrs); cbn [chosen_labels]; now rewrite !app_nil_r.
  - cbn [length] in Hlen. cbn [string_of_bits object_fields].
    destruct (lookup_lt_is_Some_2 attrs idx ltac:(lia)) as [item Hitem].
    rewrite (index_Some _ _ _ Hitem), bind_Return.
    pose proof (proj1 (List.Forall_forall _ _) Htwo item
                  (proj1 (list_elem_of_In _ _) (list_elem_of_lookup_2 _ _ _ Hitem)))
      as Hitem2.
    destruct item as [|l1 [|l0 rest]]; cbn in Hitem2; try lia.
    rewrite (drop_S _ _ _ Hitem). cbn [chosen_labels signed_literals].
    destruct b.
    + change (int_of_char "1") with (Return (A := Z) 1). rewrite bind_Return.
      change (1 =? 0) with false. cbv beta iota zeta.
      change (index (l1 :: l0 :: rest) 0) with (Return l1).
      rewrite bind_Return, IH by lia. rewrite <- !app_assoc. reflexivity.
    + change (int_of_char "0") with (Return (A := Z) 0). rewrite bind_Return.
      change (0 =? 0) with true. cbv beta iota zeta.
      change (index (l1 :: l0 :: rest) 1) with (Return l0).
      rewrite bind_Return, IH by lia. rewrite <- !app_assoc. reflexivity.
Qed.

Lemma make_object_generated (attrs : list (list string)) (k : nat) :
  attrs <> [] ->
  Forall (fun item => (2 <= length item)%nat) attrs ->
  (k < 2 ^ length attrs)%nat ->
  make_object attrs k = Return (generated attrs k).
Proof.
  intros Hne Htwo Hk. unfold make_object, generated. cbv zeta.
  rewrite encode_string_bits.
  - rewrite object_fields_bits by (rewrite ?bit_list_length; cbn; (assumption || lia)).
    reflexivity.
  - destruct attrs; [congruence|cbn; lia].
  - split; [lia|]. rewrite <- (Nat2Z.inj_pow 2). lia.
Qed.

Lemma map_result_total {A B : Type} (f : A -> result B) (g : A -> B) (xs : list A) :
  (forall x, In x xs -> f x = Return (g x)) ->
  map_result f xs = Return (map g xs).
Proof.
  induction xs as [|x xs IH]; intros Hf; [reflexivity|].
  cbn [map_result map]. rewrite (Hf x) by now left.
  rewrite bind_Return, IH by (intros y Hy; apply Hf; now right). reflexivity.
Qed.

Lemma make_objects_generated (dh : DataHandler) (objects : list Object) :
  attributes dh <> [] ->
  Forall (fun item => (2 <= length item)%nat) (attributes dh) ->
  make_objects dh objects
  = Return (objects ++ map (generated (attributes dh))
                           (seq 0 (2 ^ length (attributes dh)))).
Proof.
  intros Hne Htwo. unfold make_objects. rewrite for_each_collect.
  rewrite (map_result_total _ (generated (attributes dh))); [reflexivity|].
  intros k Hk. apply make_object_generated; try assumption.
  apply in_seq in Hk. lia.
Qed.

Lemma str_nat_inj (a b : nat) : str_nat a = str_nat b -> a = b.
Proof.
  unfold str_nat. intros Heq.
  assert (Hnn : forall n, Nat.to_uint n <> Decimal.Nil).
  { intros n. rewrite <- (DecimalNat.Unsigned.of_to n) at 1.
    rewrite DecimalNat.Unsigned.to_of. apply DecimalFacts.unorm_nonnil. }
  pose proof (NilZero.usu _ (Hnn a)) as Ha. pose proof (NilZero.usu _ (Hnn b)) as Hb.
  rewrite Heq, Hb in Ha. injection Ha as Ha.
  now apply DecimalNat.Unsigned.to_uint_inj.
Qed.

(** X1. With at least one attribute, each of at least two labels,
    [make_objects] appends 2^N objects to the list it is given.  The
    object at position [k] is named [o] followed by [k], starts with
    penalty 0 and has N characters, N literals and N labels; at position
    [p] the character is the bit N-1-p of [k], the literal is [p+1] for a
    bit 1 and [-(p+1)] for a bit 0, and the label is the first label of
    attribute [p] for a bit 1 and its second label for a bit 0. *)
Theorem make_objects_enumerates (dh : DataHandler) (objects : list Object) :
  attributes dh <> [] ->
  Forall (fun item => (2 <= length item)%nat) (attributes dh) ->
  let n := length (attributes dh) in
  exists objs,
    make_objects dh objects = Return (objects ++ objs) /\
    length objs = (2 ^ n)%nat /\
    forall k, (k < 2 ^ n)%nat ->
      exists o,
        objs !! k = Some o /\
        name o = "o" +:+ str_nat k /\
        total_penalty o = 0 /\
        String.length (encoding o) = n /\
        length (integers o) = n /\
        length (obj_values o) = n /\
        forall p item,
          attributes dh !! p = Some item ->
          let bit := Z.testbit (Z.of_nat k) (Z.of_nat (n - 1 - p)) in
          String.get p (encoding o) = Some (if bit then "1" else "0")%char /\
          integers o !! p = Some (if bit then Z.of_nat p + 1 else - (Z.of_nat p + 1)) /\
          obj_values o !! p = item !! (if bit then 0 else 1)%nat.
Proof.
  intros Hne Htwo n.
  exists (map (generated (attributes dh)) (seq 0 (2 ^ n))).
  split; [now apply make_objects_generated|].
  split; [now rewrite length_map, length_seq|].
  intros k Hk. exists (generated (attributes dh) k). split.
  - change (map (generated (attributes dh)) (seq 0 (2 ^ n)))
      with (generated (attributes dh) <$> seq 0 (2 ^ n)).
    now rewrite list_lookup_fmap, lookup_seq_lt.
  - unfold generated. cbv zeta. fold n. cbn [name total_penalty encoding integers
                                             obj_values new_Object].
    split; [reflexivity|]. split; [reflexivity|].
    split; [now rewrite string_of_bits_length, bit_list_length|].
    split; [now rewrite signed_literals_length, bit_list_length|].
    split; [rewrite chosen_labels_length; now rewrite bit_list_length|].
    intros p item Hitem.
    assert (Hp : (p < n)%nat) by (apply lookup_lt_Some in Hitem; exact Hitem).
    pose proof (bit_list_testbit n (Z.of_nat k) p Hp) as Hbit.
    split; [|split].
    + now rewrite string_of_bits_get, Hbit.
    + rewrite signed_literals_lookup, Hbit. cbn.
      replace (1 + Z.of_nat p) with (Z.of_nat p + 1) by lia. reflexivity.
    + rewrite (chosen_labels_lookup _ _ p item _ Hitem Hbit).
      pose proof (proj1 (List.Forall_forall _ _) Htwo item
                    (proj1 (list_elem_of_In _ _) (list_elem_of_lookup_2 _ _ _ Hitem)))
        as Hitem2.
      destruct item as [|l1 [|l0 rest]]; cbn in Hitem2; try lia.
      now destruct (Z.testbit _ _).
Qed.

(** X2. Without attributes [make_objects] fails: the encoding of 0 in
    width 0 still has one character, and looking up its attribute raises
    an index error. *)
Theorem make_objects_without_attributes (dh : DataHandler) (objects : list Object) :
  attributes dh = [] -> make_objects dh objects = Raise IndexError.
Proof. intros Hnone. unfold make_objects. rewrite Hnone. reflexivity. Qed.

(** X3. The objects generated into an empty list have pairwise different
    literal vectors, pairwise different encodings and pairwise different
    names. *)
Theorem make_objects_distinct (dh : DataHandler) (objs : list Object) :
  attributes dh <> [] ->
  Forall (fun item => (2 <= length item)%nat) (attributes dh) ->
  make_objects dh [] = Return objs ->
  NoDup (map integers objs) /\ NoDup (map encoding objs) /\ NoDup (map name objs).
Proof.
  intros Hne Htwo Hrun.
  rewrite (make_objects_generated dh [] Hne Htwo) in Hrun. injection Hrun as <-.
  cbn [app]. set (n := length (attributes dh)).
  assert (Hbits : forall a b, a ∈ seq 0 (2 ^ n) -> b ∈ seq 0 (2 ^ n) ->
            bit_list n (Z.of_nat a) = bit_list n (Z.of_nat b) -> a = b).
  { intros a b Ha Hb Heq. apply elem_of_seq in Ha, Hb.
    apply Nat2Z.inj. apply (bit_list_inj n); [| |exact Heq];
      (split; [lia|]); rewrite <- (Nat2Z.inj_pow 2); lia. }
  rewrite !map_map. split; [|split].
  - apply (NoDup_fmap_2_strong (fun k => integers (generated (attributes dh) k)));
      [|apply NoDup_seq].
    intros a b Ha Hb Heq. apply Hbits; try assumption.
    unfold generated in Heq. cbn in Heq. fold n in Heq.
    apply (signed_literals_inj _ _ 1); [lia|now rewrite !bit_list_length|exact Heq].
  - apply (NoDup_fmap_2_strong (fun k => encoding (generated (attributes dh) k)));
      [|apply NoDup_seq].
    intros a b Ha Hb Heq. apply Hbits; try assumption.
    unfold generated in Heq. cbn in Heq. fold n in Heq.
    clear -Heq. revert Heq. generalize (bit_list n (Z.of_nat a)) as u.
    generalize (bit_list n (Z.of_nat b)) as v.
    intros v u. revert v. induction u as [|x u IH]; intros [|y v] Heq;
      try discriminate; [reflexivity|].
    cbn in Heq. injection Heq as Hc Hrest. f_equal; [|now apply IH].
    destruct x, y; (reflexivity || discriminate).
  - apply (NoDup_fmap_2_strong (fun k => name (generated (attributes dh) k)));
      [|apply NoDup_seq].
    intros a b _ _ Heq. unfold generated in Heq. cbn in Heq.
    apply str_nat_inj. now injection Heq.
Qed.

End Generator.

Lemma make_objects_enumerates_witness :
  exists objs,
    make_objects demo_dh [] = Return ([] ++ objs) /\ length objs = (2 ^ 2)%nat.
Proof.
  destruct (make_objects_enumerates demo_dh []) as (objs & Hrun & Hlen & _).
  - discriminate.
  - repeat constructor.
  - now exists objs.
Defined.

Lemma make_objects_without_attributes_witness :
  make_objects new_DataHandler [] = Raise IndexError.
Proof. apply make_objects_without_attributes. reflexivity. Defined.

Lemma make_objects_distinct_witness :
  NoDup (map integers demo_objects) /\ NoDup (map encoding demo_objects)
  /\ NoDup (map name demo_objects).
Proof.
  apply (make_objects_distinct demo_dh demo_objects).
  - discriminate.
  - repeat constructor.
  - reflexivity.
Defined.

(** ** Registration of the attributes *)

Section Registration.
Import PyStr.

Lemma for_each_invariant {A S : Type} (Q : S -> Prop) (body : S -> A -> result S) :
  (forall acc x acc', Q acc -> body acc x = Return acc' -> Q acc') ->
  forall xs acc acc', Q acc -> for_each body xs acc = Return acc' -> Q acc'.
Proof.
  intros Hbody. induction xs as [|x xs IH]; intros acc acc' Hq Hrun.
  - now injection Hrun as <-.
  - cbn [for_each] in Hrun. destruct (body acc x) as [acc1|e] eqn:E; [|discriminate].
    rewrite bind_Return in Hrun. apply (IH acc1); [|exact Hrun].
    now apply (Hbody acc x).
Qed.

Lemma read_attributes_line_Return (dh dh' : DataHandler) (line : string) :
  read_attributes_line dh line = Return dh' ->
  exists vals v0 v1,
    vals !! 0%nat = Some v0 /\ vals !! 1%nat = Some v1 /\
    dh' = {| attributes := attributes dh ++ [vals];
             values := <[v1 := 0]> (<[v0 := 1]> (values dh)) |}.
Proof.
  unfold read_attributes_line, index. intros Hrun.
  destruct (split ": " line !! 1%nat) as [field|]; [|discriminate].
  rewrite bind_Return in Hrun.
  destruct (split ", " field !! 0%nat) as [v0|] eqn:E0; [|discriminate].
  rewrite bind_Return in Hrun.
  destruct (split ", " field !! 1%nat) as [v1|] eqn:E1; [|discriminate].
  rewrite bind_Return in Hrun. injection Hrun as <-.
  now exists (split ", " field), v0, v1.
Qed.

Lemma read_attributes_line_well_formed (dh dh' : DataHandler) (line : string) :
  well_formed dh -> read_attributes_line dh line = Return dh' ->
  well_formed dh' /\ length (attributes dh') = S (length (attributes dh)).
Proof.
  intros [Htwo Hreg] Hrun.
  apply read_attributes_line_Return in Hrun as (vals & v0 & v1 & H0 & H1 & ->).
  unfold well_formed. cbn [attributes values]. split; [split|].
  - apply Forall_app. split; [exact Htwo|]. constructor; [|constructor].
    apply lookup_lt_Some in H1. lia.
  - intros label bit Hl.
    assert (Hnew : forall i, vals !! i = Some label ->
              exists item, item ∈ attributes dh ++ [vals] /\ label ∈ item).
    { intros i Hi. exists vals. split; [apply elem_of_app; right; now left|].
      now apply (list_elem_of_lookup_2 _ i). }
    destruct (decide (v1 = label)) as [->|Hne1].
    + rewrite lookup_insert_eq in Hl. injection Hl as <-. split; [now left|].
      now apply (Hnew 1%nat).
    + rewrite lookup_insert_ne in Hl by assumption.
      destruct (decide (v0 = label)) as [->|Hne0].
      * rewrite lookup_insert_eq in Hl. injection Hl as <-. split; [now right|].
        now apply (Hnew 0%nat).
      * rewrite lookup_insert_ne in Hl by assumption.
        destruct (Hreg label bit Hl) as [Hbit (item & Hitem & Hin)].
        split; [exact Hbit|]. exists item. split; [|exact Hin].
        apply elem_of_app. now left.
  - rewrite length_app. cbn. lia.
Qed.

Lemma read_attributes_keeps_well_formed (lines : list string) (dh0 dh : DataHandler) :
  well_formed dh0 -> read_attributes lines dh0 = Return dh ->
  well_formed dh /\
  length (attributes dh) = (length (attributes dh0) + length lines)%nat.
Proof.
  revert dh0 dh. induction lines as [|l ls IH]; intros dh0 dh1 Hwf Hr.
  - injection Hr as <-. split; [exact Hwf|cbn; lia].
  - unfold read_attributes in Hr. cbn [for_each] in Hr.
    destruct (read_attributes_line dh0 l) as [dh2|e] eqn:E; [|discriminate].
    rewrite bind_Return in Hr.
    destruct (read_attributes_line_well_formed dh0 dh2 l Hwf E) as [Hwf2 Hlen2].
    destruct (IH dh2 dh1 Hwf2 Hr) as [Hwf1 Hlen1].
    split; [exact Hwf1|]. rewrite Hlen1, Hlen2. cbn. lia.
Qed.

Lemma new_DataHandler_well_formed : well_formed new_DataHandler.
Proof.
  split; [constructor|]. intros label bit Hl. cbn in Hl.
  now rewrite lookup_empty in Hl.
Qed.

(** X4. A [DataHandler] that [read_attributes] has filled from the empty
    one holds one attribute per line, each with at least two labels,
    and every registered label has the code 0 or 1 and belongs to an
    attribute. *)
Theorem read_attributes_well_formed (lines : list string) (dh : DataHandler) :
  read_attributes lines new_DataHandler = Return dh ->
  length (attributes dh) = length lines /\
  Forall (fun item => (2 <= length item)%nat) (attributes dh) /\
  (forall label bit,
      values dh !! label = Some bit ->
      (bit = 0 \/ bit = 1) /\ exists item, item ∈ attributes dh /\ label ∈ item).
Proof.
  intros Hrun.
  destruct (read_attributes_keeps_well_formed lines new_DataHandler dh
              new_DataHandler_well_formed Hrun) as [[Htwo Hreg] Hlen].
  split; [exact Hlen|]. split; [exact Htwo|exact Hreg].
Qed.

Lemma split_attribute_line (category label_true label_false : string) :
  has_char ":" category = false ->
  has_char ":" label_true = false -> has_char ":" label_false = false ->
  has_char "," label_true = false -> has_char "," label_false = false ->
  split ": " (attribute_line category label_true label_false)
  = [category; label_true +:+ ", " +:+ label_false] /\
  split ", " (label_true +:+ ", " +:+ label_false) = [label_true; label_false].
Proof.
  intros Hc Ht Hf Hct Hcf. unfold attribute_line. split.
  - rewrite (split_head ":" " " category _ Hc). f_equal.
    apply split_no_occurrence. apply (occurs_absent_char ":"); [reflexivity|].
    rewrite has_char_append, Ht. change (", " +:+ label_false) with (String "," (String " " label_false)).
    cbn [has_char]. now rewrite Hf.
  - rewrite (split_head "," " " label_true _ Hct). f_equal.
    apply split_no_occurrence. now apply (occurs_absent_char ",").
Qed.

Lemma read_attributes_line_parsed (dh : DataHandler)
    (category label_true label_false : string) :
  has_char ":" category = false ->
  has_char ":" label_true = false -> has_char ":" label_false = false ->
  has_char "," label_true = false -> has_char "," label_false = false ->
  read_attributes_line dh (attribute_line category label_true label_false)
  = Return {| attributes := attributes dh ++ [[label_true; label_false]];
              values := <[label_false := 0]> (<[label_true := 1]> (values dh)) |}.
Proof.
  intros Hc Ht Hf Hct Hcf.
  destruct (split_attribute_line category label_true label_false Hc Ht Hf Hct Hcf)
    as [H1 H2].
  unfold read_attributes_line. rewrite H1. cbn [index lookup list_lookup].
  rewrite bind_Return, H2. reflexivity.
Qed.

Lemma return_integer_app_new (attrs : list (list string)) (item : list string)
    (idx : Z) (label : string) :
  (forall it, it ∈ attrs -> label ∉ it) -> label ∈ item ->
  return_integer_from (attrs ++ [item]) idx label = idx + Z.of_nat (length attrs).
Proof.
  intros Hfresh Hin.
  apply (return_integer_from_first _ idx label (length attrs) item).
  - rewrite lookup_app_r by lia. now rewrite Nat.sub_diag.
  - exact Hin.
  - intros j it Hj Hlook. rewrite lookup_app_l in Hlook by lia.
    apply Hfresh. now apply (list_elem_of_lookup_2 _ j).
Qed.

(** X5. Registration then compilation.  After the line
    [category: label_true, label_false] (no colon or comma inside the
    three texts, no space inside the labels, two different labels that no
    earlier attribute holds) the new attribute has the index N+1, N the
    number of attributes before: [label_true] compiles to [[N+1]],
    [label_false] to [[-(N+1)]], and a marker token before either label
    gives the opposite sign. *)
Theorem register_then_compile (dh : DataHandler)
    (category label_true label_false : string) :
  has_char ":" category = false ->
  has_char ":" label_true = false -> has_char ":" label_false = false ->
  has_char "," label_true = false -> has_char "," label_false = false ->
  has_char " " label_true = false -> has_char " " label_false = false ->
  label_true <> label_false ->
  (forall item, item ∈ attributes dh -> (label_true ∉ item) /\ (label_false ∉ item)) ->
  exists dh',
    read_attributes_line dh (attribute_line category label_true label_false) = Return dh' /\
    (let i := Z.of_nat (length (attributes dh)) + 1 in
     make_constraints dh' label_true = Return [[i]] /\
     make_constraints dh' label_false = Return [[- i]] /\
     forall marker, has_char " " marker = false ->
       make_constraints dh' (marker +:+ " " +:+ label_true) = Return [[- i]] /\
       make_constraints dh' (marker +:+ " " +:+ label_false) = Return [[i]]).
Proof.
  intros Hc Ht Hf Hct Hcf Hst Hsf Hne Hfresh.
  eexists. split; [now apply read_attributes_line_parsed|].
  set (dh' := {| attributes := attributes dh ++ [[label_true; label_false]];
                 values := <[label_false := 0]> (<[label_true := 1]> (values dh)) |}).
  assert (Hvt : values dh' !! label_true = Some 1).
  { cbn. rewrite lookup_insert_ne by congruence. apply lookup_insert_eq. }
  assert (Hvf : values dh' !! label_false = Some 0).
  { cbn. apply lookup_insert_eq. }
  assert (Hit : return_integer dh' label_true = 1 + Z.of_nat (length (attributes dh))).
  { unfold return_integer. cbn [attributes dh'].
    apply return_integer_app_new; [intros it Hi; now apply Hfresh|now left]. }
  assert (Hif : return_integer dh' label_false = 1 + Z.of_nat (length (attributes dh))).
  { unfold return_integer. cbn [attributes dh'].
    apply return_integer_app_new; [intros it Hi; now apply Hfresh|right; now left]. }
  assert (Hbare : forall label sep', has_char " " label = false ->
            occurs (String " " sep') label = false).
  { intros label sep' Hl. now apply (occurs_absent_char " "). }
  cbv zeta. replace (Z.of_nat (length (attributes dh)) + 1)
    with (1 + Z.of_nat (length (attributes dh))) by lia.
  split; [|split].
  - apply make_constraints_single; [now apply Hbare..|].
    now rewrite (literal_integer_bare dh' label_true 1 Hst Hvt), Hit.
  - apply make_constraints_single; [now apply Hbare..|].
    now rewrite (literal_integer_bare dh' label_false 0 Hsf Hvf), Hif.
  - intros marker Hm. split.
    + apply make_constraints_single; [now apply occurs_one_space..|].
      now rewrite (literal_integer_negated dh' marker label_true 1 Hm Hst Hvt), Hit.
    + apply make_constraints_single; [now apply occurs_one_space..|].
      now rewrite (literal_integer_negated dh' marker label_false 0 Hm Hsf Hvf), Hif.
Qed.

End Registration.

Lemma read_attributes_well_formed_witness :
  exists dh,
    read_attributes ["Size: big, small"; "Color: red, blue"] new_DataHandler = Return dh /\
    length (attributes dh) = 2%nat /\
    Forall (fun item => (2 <= length item)%nat) (attributes dh).
Proof.
  eexists. split; [reflexivity|].
  destruct (read_attributes_well_formed ["Size: big, small"; "Color: red, blue"] _ eq_refl)
    as (Hlen & Htwo & _).
  split; [exact Hlen|exact Htwo].
Defined.

Lemma register_then_compile_witness :
  exists dh',
    read_attributes_line demo_dh "Taste: sweet, sour" = Return dh' /\
    make_constraints dh' "sweet" = Return [[3]] /\
    make_constraints dh' "not sour" = Return [[3]].
Proof.
  destruct (register_then_compile demo_dh "Taste" "sweet" "sour")
    as (dh' & Hread & Ht & _ & Hneg); try reflexivity.
  - discriminate.
  - intros item Hitem. cbn in Hitem.
    apply elem_of_cons in Hitem as [->|Hitem];
      [|apply elem_of_cons in Hitem as [->|Hitem]; [|now apply elem_of_nil in Hitem]];
      split; apply (bool_decide_eq_false_1 _); reflexivity.
  - exists dh'. split; [exact Hread|]. split; [exact Ht|].
    now apply (Hneg "not").
Defined.

(** ** The range of the compiled literals *)

Section LiteralRange.
Import PyStr.

Lemma return_integer_from_range (items : list (list string)) (idx : Z) (value : string) :
  (exists item, item ∈ items /\ value ∈ item) ->
  idx <= return_integer_from items idx value < idx + Z.of_nat (length items).
Proof.
  revert idx. induction items as [|it items IH]; intros idx (item & Hitem & Hin).
  - now apply elem_of_nil in Hitem.
  - cbn [return_integer_from length]. destruct (decide (value ∈ it)) as [Hit|Hnot].
    + rewrite bool_decide_eq_true_2 by assumption. lia.
    + rewrite bool_decide_eq_false_2 by assumption.
      apply elem_of_cons in Hitem as [->|Hitem]; [contradiction|].
      specialize (IH (idx + 1) (ex_intro _ item (conj Hitem Hin))). lia.
Qed.

Lemma literal_integer_inv (dh : DataHandler) (literal : string) (z : Z) :
  literal_integer dh literal = Return z ->
  exists value bit,
    values dh !! value = Some bit /\
    (z = return_integer dh value \/ z = - return_integer dh value).
Proof.
  unfold literal_integer, index, values_get. intros Hrun.
  destruct (length (split " " literal) =? 2)%nat.
  - destruct (split " " literal !! 1%nat) as [value|]; [|discriminate].
    rewrite bind_Return in Hrun.
    destruct (values dh !! value) as [bit|] eqn:Hv; [|discriminate].
    rewrite bind_Return in Hrun. injection Hrun as <-.
    exists value, bit. split; [exact Hv|]. destruct (bit =? 1); tauto.
  - destruct (split " " literal !! 0%nat) as [value|]; [|discriminate].
    rewrite bind_Return in Hrun.
    destruct (values dh !! value) as [bit|] eqn:Hv; [|discriminate].
    rewrite bind_Return in Hrun. injection Hrun as <-.
    exists value, bit. split; [exact Hv|]. destruct (bit =? 0); tauto.
Qed.

Lemma literal_integer_in_range (dh : DataHandler) (literal : string) (z : Z) :
  well_formed dh -> literal_integer dh literal = Return z ->
  in_range (length (attributes dh)) z.
Proof.
  intros [_ Hreg] Hrun.
  apply literal_integer_inv in Hrun as (value & bit & Hv & Hz).
  destruct (Hreg value bit Hv) as [_ Hitem].
  pose proof (return_integer_from_range (attributes dh) 1 value Hitem) as Hr.
  fold (return_integer dh value) in Hr. unfold in_range. lia.
Qed.

Lemma mc_single_in_range (dh : DataHandler) (h h' : mc_heap) (literal : string) :
  well_formed dh ->
  heap_in_range (length (attributes dh)) h ->
  mc_single dh h literal = Return h' ->
  heap_in_range (length (attributes dh)) h'.
Proof.
  intros Hwf [Hc Hl] Hrun. unfold mc_single in Hrun.
  destruct (literal_integer dh literal) as [z|e] eqn:E; [|discriminate].
  rewrite bind_Return in Hrun. injection Hrun as <-.
  pose proof (literal_integer_in_range dh literal z Hwf E) as Hz.
  split; cbn [clause clause_list]; [exact Hc|].
  apply Forall_app. split; [exact Hl|].
  constructor; [|constructor]. constructor; [exact Hz|constructor].
Qed.

Lemma mc_several_in_range (dh : DataHandler) (h h' : mc_heap) (literal : string) :
  well_formed dh ->
  heap_in_range (length (attributes dh)) h ->
  mc_several dh h literal = Return h' ->
  heap_in_range (length (attributes dh)) h'.
Proof.
  intros Hwf [Hc Hl] Hrun. unfold mc_several in Hrun.
  destruct (literal_integer dh literal) as [z|e] eqn:E; [|discriminate].
  rewrite bind_Return in Hrun. injection Hrun as <-.
  pose proof (literal_integer_in_range dh literal z Hwf E) as Hz.
  split; cbn [clause clause_list]; [|exact Hl].
  apply Forall_app. split; [exact Hc|]. constructor; [exact Hz|constructor].
Qed.

Lemma mc_part_in_range (dh : DataHandler) (h h' : mc_heap) (a_clause : string) :
  well_formed dh ->
  heap_in_range (length (attributes dh)) h ->
  mc_part dh h a_clause = Return h' ->
  heap_in_range (length (attributes dh)) h'.
Proof.
  intros Hwf [_ Hlist] Hrun. unfold mc_part in Hrun. cbv zeta in Hrun.
  set (n := length (attributes dh)) in *.
  assert (H0 : heap_in_range n {| clause := []; clause_list := clause_list h |}).
  { split; [constructor|exact Hlist]. }
  assert (Hh1 : forall h1,
            (if (length (split " OR " a_clause) =? 1)%nat
             then for_each (mc_single dh) (split " OR " a_clause)
                           {| clause := []; clause_list := clause_list h |}
             else for_each (mc_several dh) (split " OR " a_clause)
                           {| clause := []; clause_list := clause_list h |}) = Return h1 ->
            heap_in_range n h1).
  { intros h1 E. destruct (length (split " OR " a_clause) =? 1)%nat.
    - apply (for_each_invariant (heap_in_range n) (mc_single dh)
               (fun acc x acc' => mc_single_in_range dh acc acc' x Hwf) _ _ _ H0 E).
    - apply (for_each_invariant (heap_in_range n) (mc_several dh)
               (fun acc x acc' => mc_several_in_range dh acc acc' x Hwf) _ _ _ H0 E). }
  destruct (if (length (split " OR " a_clause) =? 1)%nat then _ else _) as [h1|e];
    [|discriminate].
  rewrite bind_Return in Hrun. injection Hrun as <-.
  pose proof (Hh1 h1 eq_refl) as Hboth. destruct (clause h1) eqn:Ec; [exact Hboth|].
  destruct Hboth as [Hc Hl]. rewrite Ec in Hc.
  split; cbn [clause clause_list]; [exact Hc|].
  apply Forall_app. split; [exact Hl|]. repeat constructor.
Qed.

(** X6. With the attributes read by [read_attributes], no compiled
    clause holds the literal 0 or a literal beyond the number of
    attributes: every literal of a compiled formula is a variable of
    some attribute or its negation. *)
Theorem compiled_literals_in_range (lines : list string) (dh : DataHandler)
    (line : string) (f : formula) :
  read_attributes lines new_DataHandler = Return dh ->
  make_constraints dh line = Return f ->
  forall c l, In c f -> In l c ->
    l <> 0 /\ - Z.of_nat (length lines) <= l <= Z.of_nat (length lines).
Proof.
  intros Hread Hrun.
  destruct (read_attributes_keeps_well_formed lines new_DataHandler dh
              new_DataHandler_well_formed Hread) as [Hwf Hlen].
  cbn in Hlen. rewrite <- Hlen. unfold make_constraints in Hrun.
  destruct (for_each (mc_part dh) _ _) as [h|e] eqn:E; [|discriminate].
  rewrite bind_Return in Hrun. injection Hrun as <-.
  assert (Hh : heap_in_range (length (attributes dh)) h).
  { assert (Hstart : heap_in_range (length (attributes dh))
                                    {| clause := []; clause_list := [] |}).
    { split; constructor. }
    exact (for_each_invariant (heap_in_range (length (attributes dh))) (mc_part dh)
             (fun acc x acc' => mc_part_in_range dh acc acc' x Hwf) _ _ _ Hstart E). }
  destruct Hh as [Hc Hl]. intros c l Hin Hlit.
  apply in_map_iff in Hin as (r & <- & Hr).
  pose proof (proj1 (List.Forall_forall _ _) Hl r Hr) as Hr'.
  destruct r as [c|]; cbn [deref] in Hlit.
  - exact (proj1 (List.Forall_forall _ _) Hr' l Hlit).
  - exact (proj1 (List.Forall_forall _ _) Hc l Hlit).
Qed.

End LiteralRange.

Lemma compiled_literals_in_range_witness :
  Forall (Forall (fun l => l <> 0 /\ - 2 <= l <= 2)) [[1]; [-2; 2]].
Proof.
  assert (Hread : exists dh,
            read_attributes ["Size: big, small"; "Color: red, blue"] new_DataHandler
            = Return dh /\ make_constraints dh "big AND blue OR red" = Return [[1]; [-2; 2]]).
  { eexists. split; reflexivity. }
  destruct Hread as (dh & Hread & Hrun).
  apply List.Forall_forall. intros c Hc. apply List.Forall_forall. intros l Hl.
  exact (compiled_literals_in_range _ dh _ _ Hread Hrun c l Hc Hl).
Defined.

(** ** Edge cases of the readers *)

Section Readers.
Import PyStr.

(** X7. A label may be registered again: nothing rejects it.  After a
    later line that lists, as its first or as its second label, a label
    that attribute [n+1] is the first to hold, the label keeps the index
    [n+1] and takes the code of the new line: it compiles to [[-(n+1)]]
    when the new line lists it second (also when it lists it twice) and
    to [[n+1]] when the new line lists it first only, whatever it
    compiled to before, which was [[-(n+1)]] for the code 0 and
    [[n+1]] for any other code. *)
Theorem registered_again (dh : DataHandler)
    (category label_true label_false label : string)
    (n : nat) (item : list string) :
  has_char ":" category = false ->
  has_char ":" label_true = false -> has_char ":" label_false = false ->
  has_char "," label_true = false -> has_char "," label_false = false ->
  has_char " " label = false ->
  label = label_true \/ label = label_false ->
  attributes dh !! n = Some item ->
  label ∈ item ->
  (forall j item', (j < n)%nat -> attributes dh !! j = Some item' -> label ∉ item') ->
  exists dh',
    read_attributes_line dh (attribute_line category label_true label_false) = Return dh' /\
    make_constraints dh' label
    = Return [[if String.eqb label label_false
               then - (Z.of_nat n + 1) else Z.of_nat n + 1]] /\
    (forall bit, values dh !! label = Some bit ->
       make_constraints dh label
       = Return [[if bit =? 0 then - (Z.of_nat n + 1) else Z.of_nat n + 1]]).
Proof.
  intros Hc Ht Hf Hct Hcf Hs Hlabel Hn Hin Hfirst.
  eexists. split; [now apply read_attributes_line_parsed|].
  assert (Hbare : forall sep', occurs (String " " sep') label = false).
  { intros sep'. now apply (occurs_absent_char " "). }
  assert (Hidx : forall attrs',
            return_integer_from (attributes dh ++ attrs') 1 label = Z.of_nat n + 1).
  { intros attrs'. rewrite (return_integer_from_first _ 1 label n item).
    - lia.
    - rewrite lookup_app_l by (apply lookup_lt_Some in Hn; exact Hn). exact Hn.
    - exact Hin.
    - intros j item' Hj Hlook. apply (Hfirst j item' Hj).
      rewrite lookup_app_l in Hlook; [exact Hlook|].
      apply lookup_lt_Some in Hn. lia. }
  split.
  - apply make_constraints_single; [apply Hbare..|].
    destruct (String.eqb_spec label label_false) as [->|Hne].
    + rewrite (literal_integer_bare _ label_false 0 Hs) by (cbn; apply lookup_insert_eq).
      unfold return_integer. cbn [attributes Z.eqb]. now rewrite Hidx.
    + destruct Hlabel as [->|Heq]; [|congruence].
      rewrite (literal_integer_bare _ label_true 1 Hs).
      * unfold return_integer. cbn [attributes Z.eqb]. now rewrite Hidx.
      * cbn [values]. rewrite lookup_insert_ne by congruence. apply lookup_insert_eq.
  - intros bit Hbit. apply make_constraints_single; [apply Hbare..|].
    rewrite (literal_integer_bare dh label bit Hs Hbit).
    unfold return_integer. specialize (Hidx []). rewrite app_nil_r in Hidx.
    now rewrite Hidx.
Qed.

(** X8. An attribute line without [": "] and an attribute line whose
    part after [": "] has no [", "] are rejected with an index error. *)
Theorem attribute_line_rejected (dh : DataHandler) (line category field : string) :
  (occurs ": " line = false -> read_attributes_line dh line = Raise IndexError) /\
  (has_char ":" category = false -> occurs ": " field = false ->
   occurs ", " field = false ->
   read_attributes_line dh (category +:+ ": " +:+ field) = Raise IndexError).
Proof.
  split.
  - intros Hno. unfold read_attributes_line. now rewrite (split_no_occurrence _ _ Hno).
  - intros Hc Hf Hcomma. unfold read_attributes_line.
    rewrite (split_head ":" " " category field Hc), (split_no_occurrence _ _ Hf).
    cbn [index lookup list_lookup]. rewrite bind_Return.
    now rewrite (split_no_occurrence _ _ Hcomma).
Qed.

Lemma base_constraints_lookup {A : Type} (items : list A) (idx : Z) (i : nat) :
  (i < length items)%nat ->
  base_constraints_from items idx !! i = Some [- (idx + Z.of_nat i); idx + Z.of_nat i].
Proof.
  revert idx i. induction items as [|x items IH]; intros idx i Hi; [cbn in Hi; lia|].
  destruct i as [|i]; cbn [base_constraints_from lookup list_lookup].
  - now rewrite Z.add_0_r.
  - rewrite IH by (cbn in Hi; lia).
    replace (idx + 1 + Z.of_nat i) with (idx + Z.of_nat (S i)) by lia. reflexivity.
Qed.

Lemma base_constraints_length {A : Type} (items : list A) (idx : Z) :
  length (base_constraints_from items idx) = length items.
Proof.
  revert idx. induction items as [|x items IH]; intros idx; [reflexivity|].
  cbn. now rewrite IH.
Qed.

Lemma for_each_concat {A B : Type} (f : A -> result (list B)) (xs : list A) (acc : list B) :
  for_each (fun acc x => ys ← f x; Return (acc ++ ys)) xs acc
  = (yss ← map_result f xs; Return (acc ++ concat yss)).
Proof.
  revert acc. induction xs as [|x xs IH]; intros acc; cbn [for_each map_result].
  - cbn. now rewrite app_nil_r.
  - destruct (f x) as [ys|e]; [|reflexivity]. rewrite !bind_Return, IH.
    destruct (map_result f xs) as [yss|e]; [|reflexivity]. cbn.
    now rewrite app_assoc.
Qed.

(** X9. The hard constraints that [read_constraints] returns are the
    clauses of the lines, in order, followed by one clause [[-i; i]] for
    each attribute [i] from 1 to N; an error of a line is the error of the
    whole reading. *)
Theorem hard_constraints_end_with_base (dh : DataHandler) (lines : list string) :
  let n := length (attributes dh) in
  match map_result (make_constraints dh) lines with
  | Return fs =>
      exists f,
        read_constraints dh lines = Return f /\
        length f = (length (concat fs) + n)%nat /\
        (forall i c, concat fs !! i = Some c -> f !! i = Some c) /\
        (forall i, (i < n)%nat ->
           f !! (length (concat fs) + i)%nat
           = Some [- (Z.of_nat i + 1); Z.of_nat i + 1])
  | Raise e => read_constraints dh lines = Raise e
  end.
Proof.
  intros n. unfold read_constraints, add_base_constraints.
  rewrite (for_each_concat (make_constraints dh)). unfold formula, clause_t.
  destruct (map_result (B := list (list Z)) (make_constraints dh) lines) as [fs|e];
    [|reflexivity].
  rewrite !bind_Return. cbn [app]. eexists. split; [reflexivity|].
  split; [|split].
  - now rewrite length_app, base_constraints_length.
  - intros i c Hi. rewrite lookup_app_l; [exact Hi|]. now apply lookup_lt_Some in Hi.
  - intros i Hi. rewrite lookup_app_r by lia.
    replace (length (concat fs) + i - length (concat fs))%nat with i by lia.
    rewrite base_constraints_lookup by exact Hi.
    now replace (1 + Z.of_nat i) with (Z.of_nat i + 1) by lia.
Qed.

(** X10. A penalty line without [", "] is rejected with an index error,
    before its formula is looked at.  A line [formula, penalty] (no comma
    in the formula, no [", "] in the penalty) gives the rule named by the
    formula text, with the compiled formula and the text of the penalty,
    or the error of compiling the formula. *)
Theorem penalty_line_parsed (dh : DataHandler) (line formula_text penalty_text : string) :
  (occurs ", " line = false -> read_penalty_logic_line dh line = Raise IndexError) /\
  (has_char "," formula_text = false -> occurs ", " penalty_text = false ->
   read_penalty_logic_line dh (formula_text +:+ ", " +:+ penalty_text)
   = match make_constraints dh formula_text with
     | Return c => Return {| pl_name := formula_text; constraint := c;
                             penalty := PyStr penalty_text |}
     | Raise e => Raise e
     end).
Proof.
  split.
  - intros Hno. unfold read_penalty_logic_line.
    now rewrite (split_no_occurrence _ _ Hno).
  - intros Hf Hp. unfold read_penalty_logic_line.
    rewrite (split_head "," " " formula_text penalty_text Hf),
      (split_no_occurrence _ _ Hp).
    cbn [index lookup list_lookup]. rewrite !bind_Return.
    now destruct (make_constraints dh formula_text).
Qed.

Lemma re_split_two_IF (logic cond1 cond2 : string) :
  occurs " IF" logic = false -> occurs " IF" cond1 = false ->
  occurs " IF" cond2 = false ->
  re_split_IF (logic +:+ " IF " +:+ cond1 +:+ " IF " +:+ cond2) = [logic; cond1; cond2].
Proof.
  intros Hl H1 H2. unfold re_split_IF.
  change (logic +:+ " IF " +:+ cond1 +:+ " IF " +:+ cond2)
    with (logic +:+ " IF" +:+ String " " (cond1 +:+ " IF " +:+ cond2)).
  rewrite (re_split_head logic _ Hl).
  change (" IF" +:+ String " " (cond1 +:+ " IF " +:+ cond2))
    with (" IF " +:+ cond1 +:+ " IF " +:+ cond2).
  assert (Hm : re_IF (" IF " +:+ cond1 +:+ " IF " +:+ cond2) = Some 4%nat).
  { unfold re_IF. now rewrite prefix_append. }
  change (" IF " +:+ cond1 +:+ " IF " +:+ cond2)
    with (String " " ("IF " +:+ cond1 +:+ " IF " +:+ cond2)) in Hm |- *.
  cbn [split_from]. rewrite Hm.
  change (split_from re_IF ("IF " +:+ cond1 +:+ " IF " +:+ cond2) 3)
    with (split_from re_IF ("IF " +:+ cond1 +:+ " IF " +:+ cond2) (String.length "IF ")).
  rewrite (split_from_skip re_IF "IF " (cond1 +:+ " IF " +:+ cond2)).
  fold (re_split_IF (cond1 +:+ " IF " +:+ cond2)).
  rewrite (re_split_IF_condition cond1 cond2 H1 H2).
  unfold prepend. now rewrite append_empty_r.
Qed.

(** X11. A rule line with two [IF] keywords loses its condition: for
    tiers that compile, the line [logic IF cond1 IF cond2] yields the rule
    with these tiers and no condition, and neither condition text is
    compiled (an unregistered label in them raises nothing). *)
Theorem second_IF_drops_condition (dh : DataHandler) (logic cond1 cond2 : string)
    (tiers : list formula) :
  occurs " IF" logic = false -> occurs " IF" cond1 = false ->
  occurs " IF" cond2 = false -> cond1 <> "" ->
  map_result (make_constraints dh) (split " BT " logic) = Return tiers ->
  read_qualitative_logic_line dh (logic +:+ " IF " +:+ cond1 +:+ " IF " +:+ cond2)
  = Return {| qcl_name := logic +:+ " IF " +:+ cond1 +:+ " IF " +:+ cond2;
              constraints := tiers; condition := None |}.
Proof.
  intros Hl H1 H2 Hne Ht. unfold read_qualitative_logic_line.
  rewrite (re_split_two_IF logic cond1 cond2 Hl H1 H2).
  cbn [index lookup list_lookup]. rewrite !bind_Return.
  apply String.eqb_neq in Hne. rewrite Hne.
  cbn [length Nat.eqb]. rewrite bind_Return, for_each_collect, Ht. reflexivity.
Qed.

End Readers.

Lemma registered_again_witness :
  (exists dh',
     read_attributes_line demo_dh "Mood: calm, big" = Return dh' /\
     make_constraints dh' "big" = Return [[-1]] /\
     make_constraints demo_dh "big" = Return [[1]]) /\
  (exists dh',
     read_attributes_line demo_dh "Mood: small, calm" = Return dh' /\
     make_constraints dh' "small" = Return [[1]] /\
     make_constraints demo_dh "small" = Return [[-1]]).
Proof.
  split.
  - destruct (registered_again demo_dh "Mood" "calm" "big" "big" 0 ["big"; "small"])
      as (dh' & Hread & Hafter & Hbefore); try reflexivity.
    + now right.
    + apply (bool_decide_unpack _). reflexivity.
    + intros j item' Hj. lia.
    + exists dh'. split; [exact Hread|]. split; [exact Hafter|].
      now apply (Hbefore 1).
  - destruct (registered_again demo_dh "Mood" "small" "calm" "small" 0 ["big"; "small"])
      as (dh' & Hread & Hafter & Hbefore); try reflexivity.
    + now left.
    + apply (bool_decide_unpack _). reflexivity.
    + intros j item' Hj. lia.
    + exists dh'. split; [exact Hread|]. split; [exact Hafter|].
      now apply (Hbefore 0).
Defined.

Lemma attribute_line_rejected_witness :
  read_attributes_line demo_dh "Size big small" = Raise IndexError /\
  read_attributes_line demo_dh "Size: big" = Raise IndexError.
Proof.
  destruct (attribute_line_rejected demo_dh "Size big small" "Size" "big") as [H1 H2].
  split; [now apply H1|now apply H2].
Defined.

Lemma penalty_line_parsed_witness :
  read_penalty_logic_line demo_dh "big AND red" = Raise IndexError /\
  read_penalty_logic_line demo_dh "big AND red, 5"
  = Return {| pl_name := "big AND red"; constraint := [[1]; [2]]; penalty := PyStr "5" |}.
Proof.
  destruct (penalty_line_parsed demo_dh "big AND red" "big AND red" "5") as [H1 H2].
  split; [now apply H1|]. exact (H2 eq_refl eq_refl).
Defined.

Lemma second_IF_drops_condition_witness :
  read_qualitative_logic_line demo_dh "big BT small IF red IF huge"
  = Return {| qcl_name := "big BT small IF red IF huge";
              constraints := [[[1]]; [[-1]]]; condition := None |}.
Proof.
  apply (second_IF_drops_condition demo_dh "big BT small" "red" "huge");
    (reflexivity || discriminate).
Defined.

(** ** The two preference orders *)

Section Orders.

(** X12. An object is optimal for the penalties exactly when no feasible
    object has a strictly lower total penalty; the names listed by
    [penalty_omni_optimization] are the names of these objects, and when
    there is a feasible object the list is not empty. *)
Theorem penalty_optimum (self : PreferenceProblem) :
  (forall obj1,
      is_optimal_penalty_object (feasible_objects self) obj1 = true <->
      forall obj2, In obj2 (feasible_objects self) ->
                   total_penalty obj1 <= total_penalty obj2) /\
  (forall nm,
      In nm (penalty_omni_optimization self) <->
      exists obj1, In obj1 (feasible_objects self) /\ name obj1 = nm /\
                   forall obj2, In obj2 (feasible_objects self) ->
                                total_penalty obj1 <= total_penalty obj2) /\
  (feasible_objects self <> [] -> penalty_omni_optimization self <> []).
Proof.
  assert (Hopt : forall feasible obj1,
            is_optimal_penalty_object feasible obj1 = true <->
            forall obj2, In obj2 feasible -> total_penalty obj1 <= total_penalty obj2).
  { induction feasible as [|o feasible IH]; intros obj1.
    - split; [intros _ ? []|reflexivity].
    - cbn [is_optimal_penalty_object]. unfold get_total_penalty.
      destruct (Z.eqb_spec (total_penalty obj1) (total_penalty o)) as [Heq|Hne].
      + rewrite IH. split.
        * intros Hall obj2 [<-|Hin]; [lia|now apply Hall].
        * intros Hall obj2 Hin. apply Hall. now right.
      + destruct (Z.ltb_spec (total_penalty obj1) (total_penalty o)) as [Hlt|Hge].
        * rewrite IH. split.
          -- intros Hall obj2 [<-|Hin]; [lia|now apply Hall].
          -- intros Hall obj2 Hin. apply Hall. now right.
        * split; [discriminate|]. intros Hall.
          specialize (Hall o (or_introl eq_refl)). lia. }
  assert (Hnames : forall nm,
            In nm (penalty_omni_optimization self) <->
            exists obj1, In obj1 (feasible_objects self) /\ name obj1 = nm /\
                         forall obj2, In obj2 (feasible_objects self) ->
                                      total_penalty obj1 <= total_penalty obj2).
  { intros nm. unfold penalty_omni_optimization. rewrite in_map_iff. split.
    - intros (o & Hn & Hin). apply filter_In in Hin as [Hin Ho].
      exists o. split; [exact Hin|]. split; [exact Hn|]. now apply Hopt.
    - intros (o & Hin & Hn & Hmin). exists o. split; [exact Hn|].
      apply filter_In. split; [exact Hin|]. now apply Hopt. }
  split; [intros obj1; apply Hopt|]. split; [exact Hnames|].
  intros Hne.
  assert (Hmin : exists obj1, In obj1 (feasible_objects self) /\
            forall obj2, In obj2 (feasible_objects self) ->
                         total_penalty obj1 <= total_penalty obj2).
  { revert Hne. generalize (feasible_objects self) as l.
    induction l as [|o l IH]; intros Hne; [congruence|].
    destruct l as [|o' l'].
    - exists o. split; [now left|]. intros obj2 [<-|[]]. lia.
    - destruct (IH ltac:(discriminate)) as (m & Hm & Hmin).
      destruct (Z.le_gt_cases (total_penalty o) (total_penalty m)) as [Hle|Hgt].
      + exists o. split; [now left|]. intros obj2 [<-|Hin]; [lia|].
        specialize (Hmin obj2 Hin). lia.
      + exists m. split; [now right|]. intros obj2 [<-|Hin]; [lia|now apply Hmin]. }
  destruct Hmin as (m & Hm & Hmin).
  assert (Hin : In (name m) (penalty_omni_optimization self)).
  { apply Hnames. now exists m. }
  intros Hnil. rewrite Hnil in Hin. exact Hin.
Qed.

Lemma not_lower_pointwise (a b : list Z) :
  ~ lower_somewhere b a <->
  forall i x y, a !! i = Some x -> b !! i = Some y -> x <= y.
Proof.
  split.
  - intros Hno i x y Hx Hy. destruct (Z.le_gt_cases x y) as [Hle|Hgt]; [exact Hle|].
    exfalso. apply Hno. exists i, y, x. split; [exact Hy|]. split; [exact Hx|lia].
  - intros Hall (i & y & x & Hy & Hx & Hlt). specialize (Hall i x y Hx Hy). lia.
Qed.

Lemma strictly_preferred_trans (a b c : list Z) :
  length a = length b -> length b = length c ->
  strictly_preferred a b -> strictly_preferred b c -> strictly_preferred a c.
Proof.
  intros Hab Hbc [(i & x & y & Hx & Hy & Hlt) Hnab] [_ Hnbc].
  unfold strictly_preferred.
  rewrite not_lower_pointwise in Hnab. rewrite not_lower_pointwise in Hnbc.
  rewrite not_lower_pointwise.
  assert (Hmid : forall j u, a !! j = Some u -> exists v, b !! j = Some v).
  { intros j u Hu. apply lookup_lt_is_Some_2. apply lookup_lt_Some in Hu. lia. }
  split.
  - destruct (lookup_lt_is_Some_2 c i) as [z Hz].
    { apply lookup_lt_Some in Hy. lia. }
    exists i, x, z. split; [exact Hx|]. split; [exact Hz|].
    specialize (Hnbc i y z Hy Hz). lia.
  - intros j u w Hu Hw. destruct (Hmid j u Hu) as [v Hv].
    specialize (Hnab j u v Hu Hv). specialize (Hnbc j v w Hv Hw). lia.
Qed.

(** X13. Seen from the other object the verdict is the swapped one: for
    vectors of equal length, if comparing [a] with [b] gives a verdict,
    comparing [b] with [a] gives that verdict with the two objects
    exchanged. *)
Theorem compare_degrees_swap (a b : list Z) :
  length a = length b ->
  exists v, compare_degrees a b = Return v /\
            compare_degrees b a = Return (swap_verdict v).
Proof.
  intros Hlen.
  destruct (compare_degrees_verdict a b Hlen) as (v & Hv & H1 & H2 & H3 & H4).
  destruct (compare_degrees_verdict b a (eq_sym Hlen)) as (w & Hw & W1 & W2 & W3 & W4).
  exists v. split; [exact Hv|]. rewrite Hw. f_equal.
  destruct v; cbn [swap_verdict].
  - apply W2. now apply H1.
  - apply W1. now apply H2.
  - apply W3. apply and_comm. now apply H3.
  - apply W4. symmetry. now apply H4.
Qed.

(** X14. Strict preference between degree vectors of one length is a
    strict order as the code computes it: no vector is strictly preferred
    to itself (the verdict is [Equal]), and if [a] is strictly preferred
    to [b] and [b] to [c] then [a] is strictly preferred to [c]. *)
Theorem compare_degrees_strict_order (a b c : list Z) :
  length a = length b -> length b = length c ->
  compare_degrees a a = Return Equal /\
  (compare_degrees a b = Return OneOverTwo ->
   compare_degrees b c = Return OneOverTwo ->
   compare_degrees a c = Return OneOverTwo).
Proof.
  intros Hab Hbc. split.
  - destruct (compare_degrees_verdict a a eq_refl) as (v & -> & _ & _ & _ & H4).
    f_equal. now apply H4.
  - intros H1 H2.
    destruct (compare_degrees_verdict a b Hab) as (v & Hv & V1 & _).
    destruct (compare_degrees_verdict b c Hbc) as (w & Hw & W1 & _).
    destruct (compare_degrees_verdict a c (eq_trans Hab Hbc)) as (u & -> & U1 & _).
    rewrite Hv in H1. injection H1 as ->. rewrite Hw in H2. injection H2 as ->.
    f_equal. apply U1.
    apply (strictly_preferred_trans a b c Hab Hbc); [now apply V1|now apply W1].
Qed.

Lemma degree_sum_le (a b : list Z) :
  length a = length b ->
  (forall i x y, a !! i = Some x -> b !! i = Some y -> x <= y) ->
  degree_sum a <= degree_sum b.
Proof.
  revert b. induction a as [|x a IH]; intros [|y b] Hlen Hall; try discriminate.
  cbn [degree_sum fold_right]. fold (degree_sum a). fold (degree_sum b).
  pose proof (Hall 0%nat x y eq_refl eq_refl).
  assert (degree_sum a <= degree_sum b).
  { apply IH; [cbn in Hlen; lia|]. intros i u v Hu Hv. now apply (Hall (S i)). }
  lia.
Qed.

Lemma degree_sum_lt (a b : list Z) :
  length a = length b -> strictly_preferred a b -> degree_sum a < degree_sum b.
Proof.
  intros Hlen [Hlow Hno]. rewrite not_lower_pointwise in Hno.
  revert b Hlen Hlow Hno. induction a as [|x a IH]; intros [|y b] Hlen Hlow Hno;
    try discriminate.
  - now apply lower_somewhere_nil_l in Hlow.
  - cbn [degree_sum fold_right]. fold (degree_sum a). fold (degree_sum b).
    pose proof (Hno 0%nat x y eq_refl eq_refl) as Hxy.
    assert (Hrest : forall i u v, a !! i = Some u -> b !! i = Some v -> u <= v).
    { intros i u v Hu Hv. now apply (Hno (S i)). }
    apply lower_somewhere_cons in Hlow as [Hlt|Hlow].
    + pose proof (degree_sum_le a b ltac:(cbn in Hlen; lia) Hrest). lia.
    + specialize (IH b ltac:(cbn in Hlen; lia) Hlow Hrest). lia.
Qed.

Lemma omni_loop (oqv l : list (string * list Z)) (n : nat) (acc : list string) :
  (forall key d, In (key, d) oqv -> length d = n) ->
  (forall key d, In (key, d) l -> length d = n) ->
  exists names,
    for_each (fun optimal_objects '(key, obj) =>
                b ← is_optimal_qualitative_object oqv obj;
                Return (if b : bool then optimal_objects ++ [key] else optimal_objects))
             l acc
    = Return (acc ++ names) /\
    forall key,
      In key names <->
      exists d, In (key, d) l /\
                forall key2 d2, In (key2, d2) oqv -> ~ strictly_preferred d2 d.
Proof.
  intros Hoqv. revert acc. induction l as [|[k d] l IH]; intros acc Hl.
  - exists []. split; [cbn; now rewrite app_nil_r|].
    intros key. split; [intros []|intros (d & [] & _)].
  - cbn [for_each].
    destruct (is_optimal_spec oqv d) as (b & Hb & Hiff).
    { intros key d2 Hin. rewrite (Hoqv key d2 Hin). symmetry. apply (Hl k). now left. }
    rewrite Hb, bind_Return.
    destruct (IH (if b then acc ++ [k] else acc)) as (names & Hrun & Hnames).
    { intros key d' Hin. apply (Hl key). now right. }
    rewrite bind_Return, Hrun. destruct b.
    + exists (k :: names). split; [now rewrite <- app_assoc|].
      intros key. split.
      * intros [<-|Hin].
        -- exists d. split; [now left|]. now apply Hiff.
        -- apply Hnames in Hin as (d' & Hin & Hd'). exists d'. split; [now right|exact Hd'].
      * intros (d' & [Heq|Hin] & Hd').
        -- injection Heq as <- <-. now left.
        -- right. apply Hnames. now exists d'.
    + exists names. split; [reflexivity|].
      intros key. split.
      * intros Hin. apply Hnames in Hin as (d' & Hin & Hd').
        exists d'. split; [now right|exact Hd'].
      * intros (d' & [Heq|Hin] & Hd').
        -- injection Heq as <- <-. apply Hiff in Hd'. discriminate.
        -- apply Hnames. now exists d'.
Qed.

(** X15. When all stored degree vectors have one length,
    [qualitative_omni_optimization] returns: it lists exactly the names
    whose vector no stored vector is strictly preferred to, and with at
    least one stored vector the list is not empty (a vector with the
    least sum of degrees is always listed). *)
Theorem qualitative_optimum (self : PreferenceProblem) (n : nat) :
  (forall key d, In (key, d) (object_qualitative_values self) -> length d = n) ->
  exists names,
    qualitative_omni_optimization self = Return names /\
    (forall key,
        In key names <->
        exists d, In (key, d) (object_qualitative_values self) /\
                  forall key2 d2, In (key2, d2) (object_qualitative_values self) ->
                                  ~ strictly_preferred d2 d) /\
    (object_qualitative_values self <> [] -> names <> []).
Proof.
  intros Hlen. unfold qualitative_omni_optimization.
  destruct (omni_loop (object_qualitative_values self) (object_qualitative_values self)
              n [] Hlen Hlen) as (names & Hrun & Hnames).
  exists names. split; [exact Hrun|]. split; [exact Hnames|].
  intros Hne.
  assert (Hmin : exists key d, In (key, d) (object_qualitative_values self) /\
            forall key2 d2, In (key2, d2) (object_qualitative_values self) ->
                            degree_sum d <= degree_sum d2).
  { clear -Hne. revert Hne. generalize (object_qualitative_values self) as l.
    induction l as [|[k d] l IH]; intros Hne; [congruence|].
    destruct l as [|kd' l'].
    - exists k, d. split; [now left|]. intros key2 d2 [Heq|[]].
      injection Heq as <- <-. lia.
    - destruct (IH ltac:(discriminate)) as (km & dm & Hm & Hmin).
      destruct (Z.le_gt_cases (degree_sum d) (degree_sum dm)) as [Hle|Hgt].
      + exists k, d. split; [now left|]. intros key2 d2 [Heq|Hin].
        * injection Heq as <- <-. lia.
        * specialize (Hmin key2 d2 Hin). lia.
      + exists km, dm. split; [now right|]. intros key2 d2 [Heq|Hin].
        * injection Heq as <- <-. lia.
        * now apply (Hmin key2). }
  destruct Hmin as (key & d & Hin & Hmin).
  assert (Hlisted : In key names).
  { apply Hnames. exists d. split; [exact Hin|].
    intros key2 d2 Hin2 Hpref.
    pose proof (degree_sum_lt d2 d) as Hlt.
    rewrite (Hlen key2 d2 Hin2), (Hlen key d Hin) in Hlt.
    specialize (Hlt eq_refl Hpref). specialize (Hmin key2 d2 Hin2). lia. }
  intros Hnil. rewrite Hnil in Hlisted. exact Hlisted.
Qed.

End Orders.

Lemma penalty_optimum_witness :
  penalty_omni_optimization
    {| hard_constraints := []; penalty_logics := []; qualitative_logics := [];
       object_qualitative_values := []; feasible_objects := demo_objects;
       penalty_logic_table := []; qualitative_choice_table := [] |} <> [].
Proof.
  apply (penalty_optimum
    {| hard_constraints := []; penalty_logics := []; qualitative_logics := [];
       object_qualitative_values := []; feasible_objects := demo_objects;
       penalty_logic_table := []; qualitative_choice_table := [] |}).
  discriminate.
Defined.

Lemma compare_degrees_swap_witness :
  exists v, compare_degrees [1; 2] [1; 3] = Return v /\
            compare_degrees [1; 3] [1; 2] = Return (swap_verdict v).
Proof. apply (compare_degrees_swap [1; 2] [1; 3]). reflexivity. Defined.

Lemma compare_degrees_strict_order_witness :
  compare_degrees [1; 1] [1; 3] = Return OneOverTwo.
Proof.
  destruct (compare_degrees_strict_order [1; 1] [1; 2] [1; 3] eq_refl eq_refl)
    as [_ Htrans].
  apply Htrans; reflexivity.
Defined.

Lemma qualitative_optimum_witness :
  exists names,
    qualitative_omni_optimization
      {| hard_constraints := []; penalty_logics := []; qualitative_logics := [];
         object_qualitative_values := [("o1", [1; 3]); ("o2", [3; 1]); ("o3", [3; 3])];
         feasible_objects := []; penalty_logic_table := [];
         qualitative_choice_table := [] |} = Return names /\
    names <> [].
Proof.
  destruct (qualitative_optimum
      {| hard_constraints := []; penalty_logics := []; qualitative_logics := [];
         object_qualitative_values := [("o1", [1; 3]); ("o2", [3; 1]); ("o3", [3; 3])];
         feasible_objects := []; penalty_logic_table := [];
         qualitative_choice_table := [] |} 2) as (names & Hrun & _ & Hne).
  - intros key d [Heq|[Heq|[Heq|[]]]]; injection Heq as <- <-; reflexivity.
  - exists names. split; [exact Hrun|]. apply Hne. discriminate.
Defined.

(** ** The penalty pass and the construction of the problem *)

Section Construction.
Context `{SatOracle} `{PyBuiltins}.

Lemma penalty_pass_rows (rules : list PenaltyLogic) (feasible feasible' : list Object)
    (table : list penalty_row) :
  penalty_pass rules feasible = Return (table, feasible') ->
  Forall2 (fun obj obj' => exists t, obj' = set_total_penalty obj t) feasible feasible' /\
  Forall2 (fun obj' row =>
             row.1.1 = name obj' /\ row.2 = total_penalty obj' /\
             Forall2 (fun rule p => p = PyInt 0 \/ p = penalty rule) rules row.1.2 /\
             (2 + length row.1.2)%nat = length (make_penalty_table_columns rules))
          feasible' table.
Proof.
  revert feasible' table. induction feasible as [|obj feasible IH];
    intros feasible' table Hr.
  - injection Hr as <- <-. split; constructor.
  - cbn [penalty_pass] in Hr.
    destruct (apply_rules rules obj) as [[ps obj']|e] eqn:E; [|discriminate].
    rewrite bind_Return in Hr. cbn beta iota in Hr.
    destruct (penalty_pass rules feasible) as [[rows objs']|e] eqn:E';
      [|discriminate].
    rewrite bind_Return in Hr. cbn beta iota in Hr. injection Hr as <- <-.
    destruct (apply_rules_frame _ _ _ _ E) as [Hobj Hps].
    destruct (IH _ _ eq_refl) as [Hobjs Hrows].
    split; constructor; try assumption.
    cbn [fst snd]. split; [reflexivity|]. split; [reflexivity|]. split; [exact Hps|].
    unfold make_penalty_table_columns. cbn [length app].
    rewrite length_app, length_map. cbn [length].
    apply Forall2_length in Hps. lia.
Qed.

(** X16. The penalty pass changes nothing of an object but its total:
    the objects come back in the same order with the same name, encoding,
    labels and literals.  There is one table row per feasible object; it
    carries the object's name, its total after the pass, and one entry
    per rule, each 0 or the rule's configured penalty, so that a row has
    as many cells as the table has columns. *)
Theorem penalty_pass_frame (rules : list PenaltyLogic) (feasible feasible' : list Object)
    (table : list penalty_row) :
  apply_penalty_logic rules feasible = Return (table, feasible') ->
  Forall2 (fun obj obj' => exists t, obj' = set_total_penalty obj t) feasible feasible' /\
  Forall2 (fun obj' row =>
             row.1.1 = name obj' /\ row.2 = total_penalty obj' /\
             Forall2 (fun rule p => p = PyInt 0 \/ p = penalty rule) rules row.1.2 /\
             (2 + length row.1.2)%nat = length (make_penalty_table_columns rules))
          feasible' table.
Proof.
  rewrite apply_penalty_logic_unfold. destruct (bool_decide _); [|discriminate].
  apply penalty_pass_rows.
Qed.

Lemma apply_rules_returns (rules : list PenaltyLogic) (obj : Object) :
  (exists r, apply_rules rules obj = Return r) <->
  forall rule, In rule rules -> solve (constraint rule ++ pinning obj) = false ->
               exists v, py_int (penalty rule) = Return v.
Proof.
  revert obj. induction rules as [|rule rules IH]; intros obj.
  - split; [intros _ rule []|intros _; eexists; reflexivity].
  - assert (Hrest : forall p t,
              (exists r, ('(ps, obj2) ← apply_rules rules (set_total_penalty obj t);
                          Return (p :: ps, obj2)) = Return r) <->
              forall rule0, In rule0 rules ->
                            solve (constraint rule0 ++ pinning obj) = false ->
                            exists v, py_int (penalty rule0) = Return v).
    { intros p t. specialize (IH (set_total_penalty obj t)).
      change (pinning (set_total_penalty obj t)) with (pinning obj) in IH.
      rewrite <- IH.
      destruct (apply_rules rules (set_total_penalty obj t)) as [[ps o2]|e].
      - split; intros _; eexists; reflexivity.
      - split; intros [r Hr]; discriminate. }
    cbn [apply_rules]. unfold PenaltyLogic_test, add_penalty.
    fold (pinning obj).
    destruct (solve (constraint rule ++ pinning obj)) eqn:Hs.
    + cbn [py_int]. rewrite !bind_Return. cbn beta iota. rewrite Hrest. split.
      * intros Hall rule0 [<-|Hin] Hf; [congruence|now apply Hall].
      * intros Hall rule0 Hin. apply Hall. now right.
    + destruct (py_int (penalty rule)) as [v|e] eqn:Hp.
      * rewrite !bind_Return. cbn beta iota. rewrite Hrest. split.
        -- intros Hall rule0 [<-|Hin] Hf; [eauto|now apply Hall].
        -- intros Hall rule0 Hin. apply Hall. now right.
      * split; [intros [r Hr]; discriminate|].
        intros Hall. destruct (Hall rule (or_introl eq_refl) Hs) as [v Hv].
        congruence.
Qed.

Lemma penalty_pass_returns (rules : list PenaltyLogic) (feasible : list Object) :
  (exists r, penalty_pass rules feasible = Return r) <->
  forall obj rule, In obj feasible -> In rule rules ->
                   solve (constraint rule ++ pinning obj) = false ->
                   exists v, py_int (penalty rule) = Return v.
Proof.
  induction feasible as [|obj feasible IH].
  - split; [intros _ obj rule []|intros _; eexists; reflexivity].
  - cbn [penalty_pass].
    pose proof (apply_rules_returns rules obj) as Hobj.
    destruct (apply_rules rules obj) as [[ps obj']|e].
    + rewrite bind_Return. cbn beta iota.
      destruct (penalty_pass rules feasible) as [[rows objs']|e].
      * rewrite bind_Return. cbn beta iota. split; [|intros _; eexists; reflexivity].
        intros _ o rule [<-|Hin] Hrule.
        -- apply Hobj; [eexists; reflexivity|exact Hrule].
        -- apply IH; [eexists; reflexivity|exact Hin|exact Hrule].
      * split; [intros [r Hr]; discriminate|].
        intros Hall. destruct (proj2 IH) as [r Hr]; [|discriminate].
        intros o rule Hin. apply Hall. now right.
    + split; [intros [r Hr]; discriminate|].
      intros Hall. destruct (proj2 Hobj) as [r Hr]; [|discriminate].
      intros rule. apply Hall. now left.
Qed.

(** X17. The penalty pass, and with it the construction of the problem,
    returns exactly when the columns of the table (["encoding"], the
    names of the rules, ["total penalty"]) are pairwise different and
    every rule that some feasible object violates has an integer for its
    configured penalty: a penalty that [int] rejects is harmless as long
    as every feasible object satisfies its rule.  With two equal columns
    the table is refused with [ValueError] before any rule is tested. *)
Theorem penalty_pass_returns_iff (rules : list PenaltyLogic) (feasible : list Object) :
  ((exists r, apply_penalty_logic rules feasible = Return r) <->
   NoDup (make_penalty_table_columns rules) /\
   forall obj rule, In obj feasible -> In rule rules ->
                    solve (constraint rule ++ pinning obj) = false ->
                    exists v, py_int (penalty rule) = Return v) /\
  (~ NoDup (make_penalty_table_columns rules) ->
   apply_penalty_logic rules feasible = Raise ValueError).
Proof.
  rewrite apply_penalty_logic_unfold.
  destruct (bool_decide_reflect (NoDup (make_penalty_table_columns rules)))
    as [Hcols|Hcols].
  - split; [|intros Hno; now apply Hno in Hcols].
    rewrite penalty_pass_returns. split; [intros Hall; now split|now intros [_ Hall]].
  - split; [|reflexivity].
    split; [intros [r Hr]; discriminate|intros [Hyes _]; now apply Hcols in Hyes].
Qed.

Lemma map_result_length {A B : Type} (f : A -> result B) (xs : list A) (ys : list B) :
  map_result f xs = Return ys -> length ys = length xs.
Proof.
  revert ys. induction xs as [|x xs IH]; intros ys Hr.
  - now injection Hr as <-.
  - cbn [map_result] in Hr. destruct (f x) as [y|e]; [|discriminate].
    rewrite bind_Return in Hr.
    destruct (map_result f xs) as [ys'|e]; [|discriminate].
    rewrite bind_Return in Hr. injection Hr as <-. cbn. now rewrite (IH ys').
Qed.

Lemma generated_names_NoDup (attrs : list (list string)) (n : nat) :
  NoDup (map name (map (generated attrs) (seq 0 n))).
Proof.
  rewrite map_map.
  apply (NoDup_fmap_2_strong (fun k => name (generated attrs k))); [|apply NoDup_seq].
  intros a b _ _ Heq. unfold generated in Heq. cbn in Heq.
  apply str_nat_inj. now injection Heq.
Qed.

Lemma constructor_outcome (objs : list Object) (hard : formula)
    (pls : list PenaltyLogic) (qcls : list QualitativeChoiceLogic)
    (self : PreferenceProblem) :
  NoDup (map name objs) ->
  new_PreferenceProblem objs hard pls qcls = Return self ->
  penalty_logics self = pls /\ qualitative_logics self = qcls /\
  NoDup (map name (feasible_objects self)) /\
  object_qualitative_values self
  = map (fun obj => (name obj,
                     map (fun rule => stored_value (QualitativeChoiceLogic_test rule obj))
                         qcls)) (feasible_objects self) /\
  forall obj', In obj' (feasible_objects self) ->
               exists obj t, In obj objs /\ obj' = set_total_penalty obj t.
Proof.
  intros Hnd Hnew.
  destruct (constructor_stores _ _ _ _ _ Hnew) as (ptable & E & Hpls & Hqcls & Hstored).
  assert (Hnames : NoDup (map name (feasible_objects self))).
  { rewrite (apply_penalty_logic_names _ _ _ _ E). now apply filter_names_NoDup. }
  split; [exact Hpls|]. split; [exact Hqcls|]. split; [exact Hnames|]. split.
  - rewrite Hstored. apply (stored_in_order qcls _ [] Hnames).
    intros obj _ Hin. now apply elem_of_nil in Hin.
  - intros obj' Hin'.
    rewrite apply_penalty_logic_unfold in E. destruct (bool_decide _); [|discriminate].
    destruct (penalty_pass_rows _ _ _ _ E) as [Hframe _].
    apply list_elem_of_In in Hin'. apply list_elem_of_lookup_1 in Hin' as [i Hi].
    destruct (Forall2_lookup_r _ _ _ _ _ Hframe Hi) as (obj & Hobj & t & ->).
    exists obj, t. split; [|reflexivity].
    apply list_elem_of_lookup_2 in Hobj. apply list_elem_of_In in Hobj.
    unfold check_feasibility in Hobj. now apply filter_In in Hobj as [Hobj _].
Qed.

(** X18. When the four files give a problem: the attributes file has at
    least one line; there is one penalty rule per line of the penalty
    file and one qualitative rule per line of the qualitative file; the
    feasible objects have pairwise different names, each is one of the
    2^N generated objects, and the dictionary of degrees holds, in the
    order of the feasible objects, one vector per object under its name,
    with one degree per qualitative rule. *)
Theorem problem_from_files
    (attributes_file constraints_file penalty_file qualitative_choice_file : list string)
    (self : PreferenceProblem) :
  new_preference_problem attributes_file constraints_file penalty_file
                         qualitative_choice_file = Return self ->
  attributes_file <> [] /\
  length (penalty_logics self) = length penalty_file /\
  length (qualitative_logics self) = length qualitative_choice_file /\
  degrees_recorded self /\
  (forall key d, In (key, d) (object_qualitative_values self) ->
                 length d = length qualitative_choice_file) /\
  (forall obj, In obj (feasible_objects self) ->
     exists k, (k < 2 ^ length attributes_file)%nat /\
               name obj = "o" +:+ str_nat k /\
               length (integers obj) = length attributes_file).
Proof.
  intros Hnew. unfold new_preference_problem in Hnew.
  destruct (read_attributes attributes_file new_DataHandler) as [handler|e] eqn:Ea;
    [|discriminate].
  rewrite bind_Return in Hnew.
  destruct (read_constraints handler constraints_file) as [hard|e]; [|discriminate].
  rewrite bind_Return in Hnew.
  destruct (read_attributes_keeps_well_formed _ _ _ new_DataHandler_well_formed Ea)
    as [[Htwo _] Hlen].
  cbn [attributes new_DataHandler length Nat.add] in Hlen.
  assert (Hne : attributes handler <> []).
  { intros Hnone. unfold make_objects in Hnew. rewrite Hnone in Hnew. discriminate. }
  rewrite (make_objects_generated handler [] Hne Htwo) in Hnew.
  rewrite bind_Return in Hnew. cbn [app] in Hnew.
  destruct (read_penalty_logic handler penalty_file) as [pls|e] eqn:Ep; [|discriminate].
  rewrite bind_Return in Hnew.
  destruct (read_qualitative_logic handler qualitative_choice_file) as [qcls|e] eqn:Eq;
    [|discriminate].
  rewrite bind_Return in Hnew.
  destruct (constructor_outcome _ _ _ _ _ (generated_names_NoDup _ _) Hnew)
    as (Hpls & Hqcls & Hnd & Hoqv & Hgen).
  assert (Hplen : length pls = length penalty_file).
  { unfold read_penalty_logic in Ep. rewrite for_each_collect in Ep.
    destruct (map_result (read_penalty_logic_line handler) penalty_file) as [ys|e] eqn:Em;
      [|discriminate].
    rewrite bind_Return in Ep. injection Ep as <-. cbn [app].
    now apply map_result_length in Em. }
  assert (Hqlen : length qcls = length qualitative_choice_file).
  { unfold read_qualitative_logic in Eq. rewrite for_each_collect in Eq.
    destruct (map_result (read_qualitative_logic_line handler) qualitative_choice_file)
      as [ys|e] eqn:Em; [|discriminate].
    rewrite bind_Return in Eq. injection Eq as <-. cbn [app].
    now apply map_result_length in Em. }
  split.
  { intros ->. apply Hne. destruct (attributes handler); [reflexivity|discriminate]. }
  split; [now rewrite Hpls|]. split; [now rewrite Hqcls|]. split; [|split].
  - split; [exact Hnd|].
    exists (fun obj => map (fun rule => stored_value (QualitativeChoiceLogic_test rule obj))
                           qcls), (length qcls).
    split; [intros obj; apply length_map|exact Hoqv].
  - intros key d Hin. rewrite Hoqv in Hin. apply in_map_iff in Hin as (obj & Heq & _).
    injection Heq as _ <-. now rewrite length_map.
  - intros obj' Hin'. destruct (Hgen obj' Hin') as (obj & t & Hin & ->).
    apply in_map_iff in Hin as (k & <- & Hk). apply in_seq in Hk.
    exists k. rewrite <- Hlen. split; [lia|]. split; [reflexivity|].
    unfold generated. cbn. now rewrite signed_literals_length, bit_list_length.
Qed.

End Construction.

(** ** Tiers of a qualitative rule *)

Section Tiers.
Context `{SatOracle}.

Lemma tier_true_with_tier (rule : QualitativeChoiceLogic) (tier : formula)
    (obj : Object) (k : Z) :
  tier_true (with_tier rule tier) obj k <->
  tier_true rule obj k \/
  (k = Z.of_nat (length (constraints rule)) + 1 /\ solve (tier ++ pinning obj) = true).
Proof.
  unfold tier_true, with_tier. cbn [constraints]. split.
  - intros (Hk & t & Hl & Hs). apply lookup_app_Some in Hl as [Hl|[Hge Hl]].
    + left. split; [exact Hk|]. now exists t.
    + right. apply list_lookup_singleton_Some in Hl as [Hi <-].
      split; [|exact Hs]. unfold formula, clause_t in *. lia.
  - intros [(Hk & t & Hl & Hs)|[-> Hs]].
    + split; [exact Hk|]. exists t. split; [|exact Hs].
      apply lookup_app_Some. now left.
    + split; [lia|]. exists tier. split; [|exact Hs].
      apply lookup_app_Some. right. unfold formula, clause_t in *.
      split; [lia|].
      replace (Z.to_nat _ - _)%nat with 0%nat by lia. reflexivity.
Qed.

(** X19. A tier appended after the last one of a rule changes no finite
    degree.  An object of degree +∞ gets the index of the new tier when
    the rule applies to it and the new tier is true of it, and keeps +∞
    otherwise. *)
Theorem appended_tier (rule : QualitativeChoiceLogic) (tier : formula) (obj : Object) :
  QualitativeChoiceLogic_test (with_tier rule tier) obj =
  match QualitativeChoiceLogic_test rule obj with
  | Finite k => Finite k
  | Infinite =>
      if applicable rule obj && solve (tier ++ pinning obj)
      then Finite (Z.of_nat (length (constraints rule)) + 1)
      else Infinite
  end.
Proof.
  destruct (applicable rule obj) eqn:Happ.
  - assert (Hyes : match condition rule with
                   | Some c => solve (c ++ pinning obj) = true
                   | None => True
                   end).
    { unfold applicable in Happ. now destruct (condition rule). }
    pose proof (test_applicable rule obj Hyes) as Hold.
    pose proof (test_applicable (with_tier rule tier) obj Hyes) as Hnew.
    apply (min_true_tier_unique (with_tier rule tier) obj); [exact Hnew|].
    destruct (QualitativeChoiceLogic_test rule obj) as [k|].
    + destruct Hold as [Hk Hmin]. split.
      * apply tier_true_with_tier. now left.
      * intros j Hj. apply tier_true_with_tier in Hj as [Hj|[-> _]];
          [now apply Hmin|].
        destruct Hk as (Hk & t & Hl & _). apply lookup_lt_Some in Hl.
        unfold formula, clause_t in *. lia.
    + cbn [andb]. destruct (solve (tier ++ pinning obj)) eqn:Hs.
      * split.
        -- apply tier_true_with_tier. now right.
        -- intros j Hj. apply tier_true_with_tier in Hj as [Hj|[-> _]];
             [now apply Hold in Hj|lia].
      * intros j Hj. apply tier_true_with_tier in Hj as [Hj|[_ Hj]];
          [now apply Hold in Hj|congruence].
  - unfold applicable in Happ.
    destruct (condition rule) as [c|] eqn:Hc; [|discriminate].
    rewrite (test_inapplicable rule obj c Hc Happ).
    rewrite (test_inapplicable (with_tier rule tier) obj c Hc Happ).
    reflexivity.
Qed.

End Tiers.

Lemma penalty_pass_frame_witness :
  exists table feasible',
    apply_penalty_logic (H := Reference.oracle) (H0 := Reference.builtins)
      [ {| pl_name := "big"; constraint := [[1]]; penalty := PyStr "5" |} ]
      demo_objects = Return (table, feasible') /\
    Forall2 (fun obj obj' => exists t, obj' = set_total_penalty obj t)
            demo_objects feasible'.
Proof.
  eexists _, _. split; [vm_compute; reflexivity|].
  eapply (penalty_pass_frame (H := Reference.oracle) (H0 := Reference.builtins)
            [ {| pl_name := "big"; constraint := [[1]]; penalty := PyStr "5" |} ]).
  vm_compute. reflexivity.
Defined.

Lemma problem_from_files_witness :
  exists self,
    new_preference_problem (H := Reference.oracle) (H0 := Reference.builtins)
      ["size: big, small"] ["big"] ["big, 5"] ["big BT small IF"] = Return self /\
    degrees_recorded self.
Proof.
  eexists. split; [vm_compute; reflexivity|].
  eapply (problem_from_files (H := Reference.oracle) (H0 := Reference.builtins)
            ["size: big, small"] ["big"] ["big, 5"] ["big BT small IF"]).
  vm_compute. reflexivity.
Defined.
